(** * linkedin-ai: the Easy Apply application-flow engine

    A shallow embedding of [src/aihawk_easy_applier.py] (class
    [AIHawkEasyApplier]) and of [src/llm/llm_manager.py] (class
    [GPTAnswerer]), with the properties of the natural-language
    specification stated and settled over it.

    Conventions.
    - Python [str] values are modelled as [string]; a character is a code
      point below 256 (Latin-1), on which [str.lower], [str.isspace] and the
      regular expression of [_sanitize_text] are written out in full.
    - The browser, the file system, the clock, the random generator, the
      resume generator and the LLM endpoint are the outside world: an
      [Env] gives, for an abstract world state, what each call returns (or
      raises) and the next world.  The embedded methods run in a state and
      exception monad over that world and record every outside call in a
      log.
    - Python exceptions are values of [exn]; only subclasses of
      [Exception] are modelled. *)

From Stdlib Require Import List String Ascii Bool Arith NArith ZArith Lia.
From Stdlib Require Import DecimalString.
Import ListNotations.

Set Implicit Arguments.
Set Warnings "-register-all".

(* ===================================================================== *)
(** * Text: the [str] methods used by the source *)
(* ===================================================================== *)

Module Text.

Definition chars := list ascii.

Definition code (c : ascii) : N := N_of_ascii c.

(** [str.lower] on one Latin-1 character: A-Z and the accented capitals
    0xC0-0xDE (except the multiplication sign 0xD7) move up by 32. *)
Definition lower_char (c : ascii) : ascii :=
  let n := code c in
  if ((65 <=? n) && (n <=? 90) ||
      (192 <=? n) && (n <=? 222) && negb (n =? 215))%N
  then ascii_of_N (n + 32) else c.

(** [str.isspace] on one Latin-1 character. *)
Definition isspace (c : ascii) : bool :=
  let n := code c in
  ((9 <=? n) && (n <=? 13) || (28 <=? n) && (n <=? 32) ||
   (n =? 133) || (n =? 160))%N.

(** The character class [[\x00-\x1F\x7F]]. *)
Definition is_control (c : ascii) : bool :=
  let n := code c in ((n <=? 31) || (n =? 127))%N.

Definition lower (s : chars) : chars := map lower_char s.

Fixpoint lstrip_by (p : ascii -> bool) (s : chars) : chars :=
  match s with
  | [] => []
  | c :: s' => if p c then lstrip_by p s' else s
  end.

Definition rstrip_by (p : ascii -> bool) (s : chars) : chars :=
  rev (lstrip_by p (rev s)).

(** [s.strip()] *)
Definition strip (s : chars) : chars :=
  rstrip_by isspace (lstrip_by isspace s).

(** [s.rstrip(c)] for a one-character argument. *)
Definition rstrip_char (c : ascii) (s : chars) : chars :=
  rstrip_by (Ascii.eqb c) s.

(** [s.replace(c, '')] for a one-character [c]. *)
Definition remove_char (c : ascii) (s : chars) : chars :=
  filter (fun x => negb (Ascii.eqb x c)) s.

(** [s.replace(c, d)] for one-character [c] and [d]. *)
Definition replace_char (c d : ascii) (s : chars) : chars :=
  map (fun x => if Ascii.eqb x c then d else x) s.

(** [re.sub(r'[\x00-\x1F\x7F]', '', s)] *)
Definition re_sub_control (s : chars) : chars :=
  filter (fun x => negb (is_control x)) s.

Definition quote : ascii := ascii_of_N 34.
Definition backslash : ascii := ascii_of_N 92.
Definition newline : ascii := ascii_of_N 10.
Definition carriage_return : ascii := ascii_of_N 13.
Definition space : ascii := ascii_of_N 32.
Definition comma : ascii := ascii_of_N 44.

(** [AIHawkEasyApplier._sanitize_text], on the characters of the text. *)
Definition sanitize_chars (text : chars) : chars :=
  let sanitized_text :=
    remove_char backslash (remove_char quote (strip (lower text))) in
  rstrip_char comma
    (remove_char carriage_return
       (replace_char newline space (re_sub_control sanitized_text))).

Definition _sanitize_text (text : string) : string :=
  string_of_list_ascii (sanitize_chars (list_ascii_of_string text)).

(** [needle in haystack] for strings. *)
Fixpoint is_prefix (p s : chars) : bool :=
  match p, s with
  | [], _ => true
  | _ :: _, [] => false
  | a :: p', b :: s' => Ascii.eqb a b && is_prefix p' s'
  end.

Fixpoint contains_chars (needle s : chars) : bool :=
  is_prefix needle s ||
  match s with
  | [] => false
  | _ :: s' => contains_chars needle s'
  end.

Definition str_in (needle haystack : string) : bool :=
  contains_chars (list_ascii_of_string needle) (list_ascii_of_string haystack).

Definition str_lower (s : string) : string :=
  string_of_list_ascii (lower (list_ascii_of_string s)).

End Text.

(* ===================================================================== *)
(** * Python values, exceptions and the answer-store file *)
(* ===================================================================== *)

Module Py.

Local Open Scope string_scope.

(** Values decoded from JSON (and returned by scripts run in the page).
    A float is kept as mantissa and decimal exponent: only whether it is
    zero matters to the code. *)
Inductive json : Type :=
| JNull
| JBool (b : bool)
| JInt (z : Z)
| JFloat (mantissa exponent : Z)
| JStr (s : string)
| JList (items : list json)
| JObject (fields : list (string * json)).

(** Python truth value, as tested by [if x:]. *)
Definition truthy (j : json) : bool :=
  match j with
  | JNull => false
  | JBool b => b
  | JInt z => negb (z =? 0)%Z
  | JFloat m _ => negb (m =? 0)%Z
  | JStr s => negb (s =? "")
  | JList l => match l with [] => false | _ => true end
  | JObject l => match l with [] => false | _ => true end
  end.

(** [d.get(key, default)] and [d[key] = v] on a dict, which keeps the
    order in which keys were first inserted. *)
Fixpoint dict_get (key : string) (d : list (string * json)) : option json :=
  match d with
  | [] => None
  | (k, v) :: d' => if k =? key then Some v else dict_get key d'
  end.

Fixpoint dict_set (key : string) (v : json) (d : list (string * json))
  : list (string * json) :=
  match d with
  | [] => [(key, v)]
  | (k, v0) :: d' =>
      if k =? key then (k, v) :: d' else (k, v0) :: dict_set key v d'
  end.

(** The exception classes the source raises, catches or can receive. *)
Inductive exn_class : Type :=
| Exception_
| ValueError | JSONDecodeError | UnicodeDecodeError
| KeyError | AttributeError | TypeError | IndexError
| OSError | FileNotFoundError | FileExistsError
| WebDriverException | TimeoutException | NoSuchElementException
| RequestException.

Definition exn_class_eqb (a b : exn_class) : bool :=
  match a, b with
  | Exception_, Exception_ | ValueError, ValueError
  | JSONDecodeError, JSONDecodeError
  | UnicodeDecodeError, UnicodeDecodeError
  | KeyError, KeyError | AttributeError, AttributeError
  | TypeError, TypeError | IndexError, IndexError
  | OSError, OSError | FileNotFoundError, FileNotFoundError
  | FileExistsError, FileExistsError
  | WebDriverException, WebDriverException
  | TimeoutException, TimeoutException
  | NoSuchElementException, NoSuchElementException
  | RequestException, RequestException => true
  | _, _ => false
  end.

(** The direct base class, [None] for [Exception] itself. *)
Definition base_class (c : exn_class) : option exn_class :=
  match c with
  | Exception_ => None
  | JSONDecodeError | UnicodeDecodeError => Some ValueError
  | FileNotFoundError | FileExistsError | RequestException => Some OSError
  | TimeoutException | NoSuchElementException => Some WebDriverException
  | _ => Some Exception_
  end.

(** [issubclass c d]; the hierarchy is three levels deep. *)
Definition issubclass (c d : exn_class) : bool :=
  exn_class_eqb c d ||
  match base_class c with
  | None => false
  | Some b =>
      exn_class_eqb b d ||
      match base_class b with
      | None => false
      | Some b' => exn_class_eqb b' d
      end
  end.

(** A raised exception.
    - [Exn c msg]: an instance of [c] with [str(e) = msg].
    - [ExnList c prefix items]: the message is [prefix] followed by the
      [repr] of the list [items] (an f-string over a list).
    - [HTTPStatusError code retry_after msg]: httpx's error with the
      response's status code and its [retry-after] header; its class
      derives from [Exception] through classes the source never names.
    - [Reraised prefix cause]: [Exception(prefix + traceback.format_exc())]
      raised in the handler that caught [cause]. *)
Inductive exn : Type :=
| Exn (c : exn_class) (msg : string)
| ExnList (c : exn_class) (prefix : string) (items : list string)
| HTTPStatusError (status_code : Z) (retry_after : option string) (msg : string)
| Reraised (prefix : string) (cause : exn).

Definition class_of (e : exn) : exn_class :=
  match e with
  | Exn c _ => c
  | ExnList c _ _ => c
  | HTTPStatusError _ _ _ => Exception_
  | Reraised _ _ => Exception_
  end.

(** [isinstance(e, c)], the test of an [except c] clause. *)
Definition isinstance (e : exn) (c : exn_class) : bool :=
  issubclass (class_of e) c.

(** [str(e)].  The text of a traceback and the [repr] of a list are kept
    to their message parts. *)
Fixpoint exn_str (e : exn) : string :=
  match e with
  | Exn _ msg => msg
  | ExnList _ prefix items => prefix ++ "[" ++ String.concat ", " items ++ "]"
  | HTTPStatusError _ _ msg => msg
  | Reraised prefix cause => prefix ++ exn_str cause
  end.

(** What reading [answers.json] with [json.load] gives for the content
    the file holds. *)
Inductive file_content : Type :=
| Undecodable                (* text that is not JSON: JSONDecodeError *)
| BadEncoding                (* bytes that are not text: UnicodeDecodeError *)
| Decoded (data : json).     (* well-formed JSON *)

(** The answer-store file: absent, or present with some content. *)
Definition store_file := option file_content.

(** [int(s)] for a decimal string: optional surrounding white space, an
    optional sign, then digits (the grouping of digits with underscores,
    which [int] also accepts, is left out). *)
Definition digit_value (c : ascii) : option Z :=
  let n := Text.code c in
  if ((48 <=? n) && (n <=? 57))%N then Some (Z.of_N n - 48)%Z else None.

Fixpoint digits_value (acc : Z) (s : Text.chars) : option Z :=
  match s with
  | [] => Some acc
  | c :: s' =>
      match digit_value c with
      | Some d => digits_value (10 * acc + d)%Z s'
      | None => None
      end
  end.

Definition int_of_str (s : string) : option Z :=
  match Text.strip (list_ascii_of_string s) with
  | [] => None
  | c :: rest =>
      if Ascii.eqb c "-"%char then
        match rest with
        | [] => None
        | _ => option_map Z.opp (digits_value 0 rest)
        end
      else if Ascii.eqb c "+"%char then
        match rest with
        | [] => None
        | _ => digits_value 0 rest
        end
      else digits_value 0 (c :: rest)
  end.

(** [str(n)] for an [int]. *)
Definition str_of_int (z : Z) : string :=
  NilZero.string_of_int (Z.to_int z).

End Py.

(* ===================================================================== *)
(** * The outside world and the monad of the embedded methods *)
(* ===================================================================== *)

Module World.

Import Py.

(** A handle on a DOM element, as Selenium returns it. *)
Definition elem := nat.

(** [selenium.webdriver.common.by.By] *)
Inductive By : Type := CLASS_NAME | XPATH | TAG_NAME.

(** The expected conditions passed to [WebDriverWait(driver, 10).until]. *)
Inductive condition : Type :=
| presence_of_element_located (by_ : By) (value : string)
| visibility_of (e : elem)
| element_to_be_clickable (e : elem).

(** An argument of [execute_script] after the script text. *)
Inductive script_arg : Type :=
| ArgElem (e : elem)
| ArgInt (z : Z).

(** [ActionChains(driver).move_to_element(e).click().perform()] or
    [e.click()]. *)
Inductive click_kind : Type := ViaActionChains | Direct.

(** The response of the LLM endpoint to [requests.post]: the status code
    and what [response.json()] gives ([None] when the body is not JSON). *)
Record http_response : Type := {
  status_code : Z;
  body : option json
}.

(** What a call to the outside returns: a value or a raised exception. *)
Definition reply (A : Type) : Type := (exn + A)%type.

(** The outside world over a state [W]: for each call the source makes,
    its answer and the world after it.  [current_url] is a plain reading
    of the location.  [get_attribute] is only used on anchors that were
    selected for having the attribute, so that it gives a string. *)
Record Env (W : Type) : Type := {
  (* selenium driver *)
  current_url : W -> string;
  get : string -> W -> reply unit * W;
  refresh : W -> reply unit * W;
  page_source : W -> reply string * W;
  execute_script : string -> list script_arg -> W -> reply json * W;
  find_element : option elem -> By -> string -> W -> reply elem * W;
  find_elements : option elem -> By -> string -> W -> reply (list elem) * W;
  wait_until : condition -> W -> reply elem * W;
  click : click_kind -> elem -> W -> reply unit * W;
  text : elem -> W -> reply string * W;
  get_attribute : elem -> string -> W -> reply string * W;
  send_keys : elem -> string -> W -> reply unit * W;
  (* collaborators *)
  pdf_base64 : option string -> W -> reply string * W;
  requests_post : string -> json -> W -> reply http_response * W;
  (* operating system and libraries *)
  makedirs : string -> W -> reply unit * W;
  time : W -> Z * W;
  b64decode : string -> reply string;
  open_xb : string -> W -> reply unit * W;
  file_write : string -> string -> W -> reply unit * W;
  render_pdf : string -> list string -> W -> reply unit * W;
  getsize : string -> W -> reply Z * W;
  abspath : string -> string;
  fits_width : string -> bool;
  randbelow : nat -> W -> nat * W
}.

(** One entry of the log per call to the outside. *)
Inductive event : Type :=
| EvCurrentUrl
| EvGet (url : string)
| EvRefresh
| EvPageSource
| EvExecuteScript (script : string) (args : list script_arg)
| EvFindElement (scope : option elem) (by_ : By) (value : string)
| EvFindElements (scope : option elem) (by_ : By) (value : string)
| EvWaitUntil (c : condition)
| EvClick (k : click_kind) (e : elem)
| EvText (e : elem)
| EvGetAttribute (e : elem) (name : string)
| EvSendKeys (e : elem) (keys : string)
| EvPdfBase64
| EvRequestsPost (url : string)
| EvMakedirs (path : string)
| EvOpenXb (path : string)
| EvFileWrite (path : string)
| EvRenderPdf (path : string)
| EvGetsize (path : string)
| EvRandom.

(** Modelled from the spec: the Job object, whose class is not part of
    the repository.  Its fields are the ones of section 3 of the
    specification (link, title, description, recruiter link, paths of the
    generated artifacts), which are also the ones the source reads and
    writes. *)
Record Job : Type := {
  link : string;
  title : string;
  description : option string;
  recruiter_link : option string;
  pdf_path : option string;
  cover_letter_path : option string
}.

(** [GPTAnswerer]: its configuration and the job it was given. *)
Record GPTAnswerer : Type := {
  llm_api_key : string;
  llm_model : string;
  llm_model_type : string;
  llm_api_url : string;
  gpt_current_job : bool
}.

(** The state the methods run in: the world, the log of calls, the
    answer-store file, the Job object of the attempt (one object, shared
    by every reference to it) and the fields of the applier. *)
Record state (W : Type) : Type := {
  world : W;
  log : list event;
  answers_json : store_file;
  job : Job;
  resume_path : option string;
  current_job : bool;
  gpt_answerer : GPTAnswerer
}.

(** The result of running a method: it returns, it raises, or the bound on
    the number of iterations of an unbounded loop was reached. *)
Inductive outcome (A : Type) : Type :=
| Ok (a : A)
| Raise (e : exn)
| OutOfFuel.

Arguments Raise {A} e.
Arguments OutOfFuel {A}.

Definition M (W A : Type) : Type := state W -> outcome A * state W.

Section Monad.
Context {W : Type}.

Definition ret {A} (a : A) : M W A := fun s => (Ok a, s).

Definition raise {A} (e : exn) : M W A := fun s => (Raise e, s).

Definition out_of_fuel {A} : M W A := fun s => (OutOfFuel, s).

Definition bind {A B} (m : M W A) (k : A -> M W B) : M W B :=
  fun s =>
    match m s with
    | (Ok a, s') => k a s'
    | (Raise e, s') => (Raise e, s')
    | (OutOfFuel, s') => (OutOfFuel, s')
    end.

(** [try: body  except ...: handler].  The handler receives the exception;
    a clause that does not match re-raises it. *)
Definition try_except {A} (body : M W A) (handler : exn -> M W A) : M W A :=
  fun s =>
    match body s with
    | (Raise e, s') => handler e s'
    | r => r
    end.

Definition get_state : M W (state W) := fun s => (Ok s, s).

Definition put_state (s : state W) : M W unit := fun _ => (Ok tt, s).

End Monad.

Declare Scope py_scope.
Delimit Scope py_scope with py.
Notation "x <- m ;; k" := (bind m (fun x => k))
  (at level 61, m at next level, right associativity) : py_scope.
Notation "m ;; k" := (bind m (fun _ => k))
  (at level 61, right associativity) : py_scope.

Local Open Scope py_scope.

Section Calls.
Context {W : Type} (E : Env W).

(** A call to the outside: log it, ask the world, return or raise. *)
Definition call {A} (ev : event) (f : W -> reply A * W) : M W A :=
  fun s =>
    let (r, w) := f (world s) in
    let s' := {| world := w; log := (log s ++ [ev])%list;
                 answers_json := answers_json s; job := job s;
                 resume_path := resume_path s;
                 current_job := current_job s;
                 gpt_answerer := gpt_answerer s |} in
    match r with
    | inl e => (Raise e, s')
    | inr a => (Ok a, s')
    end.

Definition pure_call {A} (ev : event) (f : W -> A * W) : M W A :=
  call ev (fun w => let (a, w') := f w in (inr a, w')).

Definition driver_current_url : M W string :=
  pure_call EvCurrentUrl (fun w => (current_url E w, w)).
Definition driver_get (url : string) : M W unit :=
  call (EvGet url) (get E url).
Definition driver_refresh : M W unit :=
  call EvRefresh (refresh E).
Definition driver_page_source : M W string :=
  call EvPageSource (page_source E).
Definition driver_execute_script (script : string) (args : list script_arg)
  : M W json :=
  call (EvExecuteScript script args) (execute_script E script args).
Definition driver_find_element (by_ : By) (value : string) : M W elem :=
  call (EvFindElement None by_ value) (find_element E None by_ value).
Definition driver_find_elements (by_ : By) (value : string) : M W (list elem) :=
  call (EvFindElements None by_ value) (find_elements E None by_ value).
Definition element_find_element (e : elem) (by_ : By) (value : string)
  : M W elem :=
  call (EvFindElement (Some e) by_ value) (find_element E (Some e) by_ value).
Definition element_find_elements (e : elem) (by_ : By) (value : string)
  : M W (list elem) :=
  call (EvFindElements (Some e) by_ value) (find_elements E (Some e) by_ value).
Definition WebDriverWait_until (c : condition) : M W elem :=
  call (EvWaitUntil c) (wait_until E c).
Definition actions_click (e : elem) : M W unit :=
  call (EvClick ViaActionChains e) (click E ViaActionChains e).
Definition element_click (e : elem) : M W unit :=
  call (EvClick Direct e) (click E Direct e).
Definition element_text (e : elem) : M W string :=
  call (EvText e) (text E e).
Definition element_get_attribute (e : elem) (name : string) : M W string :=
  call (EvGetAttribute e name) (get_attribute E e name).
Definition element_send_keys (e : elem) (keys : string) : M W unit :=
  call (EvSendKeys e keys) (send_keys E e keys).
Definition generator_pdf_base64 (job_description_text : option string)
  : M W string :=
  call EvPdfBase64 (pdf_base64 E job_description_text).
Definition post (url : string) (payload : json) : M W http_response :=
  call (EvRequestsPost url) (requests_post E url payload).
Definition os_makedirs (path : string) : M W unit :=
  call (EvMakedirs path) (makedirs E path).
Definition open_exclusive (path : string) : M W unit :=
  call (EvOpenXb path) (open_xb E path).
Definition write_bytes (path data : string) : M W unit :=
  call (EvFileWrite path) (file_write E path data).
Definition reportlab_render (path : string) (lines : list string) : M W unit :=
  call (EvRenderPdf path) (render_pdf E path lines).
Definition os_getsize (path : string) : M W Z :=
  call (EvGetsize path) (getsize E path).

(** [int(time.time())]; reading the clock is not logged. *)
Definition time_time : M W Z :=
  fun s =>
    let (t, w) := time E (world s) in
    (Ok t, {| world := w; log := log s;
              answers_json := answers_json s; job := job s;
              resume_path := resume_path s;
              current_job := current_job s;
              gpt_answerer := gpt_answerer s |}).

(** [random.choice(options)]: [IndexError] on an empty list, else the
    element at a random index below the length. *)
Definition random_choice {A} (options : list A) : M W A :=
  match options with
  | [] => raise (Exn IndexError "Cannot choose from an empty sequence")
  | first :: _ =>
      i <- pure_call EvRandom (randbelow E (List.length options)) ;;
      ret (nth (i mod List.length options) options first)
  end.

(** [for x in xs: body x] *)
Fixpoint for_each {A} (xs : list A) (body : A -> M W unit) : M W unit :=
  match xs with
  | [] => ret tt
  | x :: xs' => body x ;; for_each xs' body
  end.

(** Updates of the Job object and of the applier's fields. *)
Definition update_job (f : Job -> Job) : M W unit :=
  fun s =>
    (Ok tt, {| world := world s; log := log s;
               answers_json := answers_json s; job := f (job s);
               resume_path := resume_path s;
               current_job := current_job s;
               gpt_answerer := gpt_answerer s |}).

Definition set_current_job : M W unit :=
  fun s =>
    (Ok tt, {| world := world s; log := log s;
               answers_json := answers_json s; job := job s;
               resume_path := resume_path s;
               current_job := true;
               gpt_answerer := gpt_answerer s |}).

Definition set_answers_json (f : store_file) : M W unit :=
  fun s =>
    (Ok tt, {| world := world s; log := log s;
               answers_json := f; job := job s;
               resume_path := resume_path s;
               current_job := current_job s;
               gpt_answerer := gpt_answerer s |}).

Definition update_gpt (f : GPTAnswerer -> GPTAnswerer) : M W unit :=
  fun s =>
    (Ok tt, {| world := world s; log := log s;
               answers_json := answers_json s; job := job s;
               resume_path := resume_path s;
               current_job := current_job s;
               gpt_answerer := f (gpt_answerer s) |}).

End Calls.

End World.

(* ===================================================================== *)
(** * Paths and line splitting *)
(* ===================================================================== *)

Module Path.

Import Text.
Local Open Scope string_scope.

(** [s.rfind(c)] for a one-character [c]: the last index of [c], or -1. *)
Fixpoint rfind_from (c : ascii) (s : chars) (i : Z) (last : Z) : Z :=
  match s with
  | [] => last
  | x :: s' => rfind_from c s' (i + 1) (if Ascii.eqb x c then i else last)
  end.

Definition rfind (c : ascii) (s : chars) : Z := rfind_from c s 0 (-1).

(** [p[a:b]] for [0 <= a]. *)
Definition slice (p : chars) (a b : Z) : chars :=
  firstn (Z.to_nat (b - a)) (skipn (Z.to_nat a) p).

(** [os.path.splitext] (posixpath): the extension starts at the last dot
    of the last path component, leading dots of that component apart. *)
Definition splitext_chars (p : chars) : chars * chars :=
  let sepIndex := rfind "/"%char p in
  let dotIndex := rfind "."%char p in
  if (dotIndex >? sepIndex)%Z then
    if existsb (fun c => negb (Ascii.eqb c "."%char))
               (slice p (sepIndex + 1) dotIndex)
    then (firstn (Z.to_nat dotIndex) p, skipn (Z.to_nat dotIndex) p)
    else (p, [])
  else (p, []).

Definition splitext (p : string) : string * string :=
  let (root, ext) := splitext_chars (list_ascii_of_string p) in
  (string_of_list_ascii root, string_of_list_ascii ext).

(** [os.path.join(a, b)] for a relative [b] and a non-empty [a] that does
    not end with a slash. *)
Definition join (a b : string) : string := a ++ "/" ++ b.

(** The pieces of [s] between the characters that satisfy [p]. *)
Fixpoint split_by (p : ascii -> bool) (s : chars) : list chars :=
  match s with
  | [] => [[]]
  | x :: s' =>
      if p x then [] :: split_by p s'
      else match split_by p s' with
           | [] => [[x]]
           | l :: ls => (x :: l) :: ls
           end
  end.

(** [s.split('\n')] *)
Definition split_lines (s : string) : list string :=
  map string_of_list_ascii
      (split_by (Ascii.eqb newline) (list_ascii_of_string s)).

(** [s.split()]: the words between runs of white space. *)
Definition split_words (s : string) : list string :=
  map string_of_list_ascii
      (filter (fun w => match w with [] => false | _ => true end)
              (split_by isspace (list_ascii_of_string s))).

Definition str_strip (s : string) : string :=
  string_of_list_ascii (strip (list_ascii_of_string s)).

(** The local function [split_text_by_width] of
    [_create_and_upload_cover_letter]; [fits l] is the test
    [stringWidth(l, font_name, font_size) <= max_line_width]. *)
Definition split_text_by_width (fits : string -> bool) (text : string)
  : list string :=
  fold_left
    (fun lines line =>
       if fits line then (lines ++ [line])%list
       else
         let words := split_words line in
         let '(lines', new_line) :=
           fold_left
             (fun '(ls, new_line) word =>
                if fits (new_line ++ word ++ " ")
                then (ls, new_line ++ word ++ " ")
                else ((ls ++ [str_strip new_line])%list, word ++ " "))
             words (lines, "") in
         (lines' ++ [str_strip new_line])%list)
    (split_lines text) [].

End Path.

(* ===================================================================== *)
(** * GPTAnswerer (src/llm/llm_manager.py) *)
(* ===================================================================== *)

Module GPT.

Import Py World.
Local Open Scope string_scope.
Local Open Scope py_scope.

Section Answerer.
Context {W : Type} (E : Env W).

(** [response.raise_for_status()] *)
Definition raise_for_status (r : http_response) : M W unit :=
  if ((400 <=? status_code r) && (status_code r <? 600))%Z
  then raise (Exn RequestException "HTTPError")
  else ret tt.

(** [response.json()] *)
Definition response_json (r : http_response) : M W json :=
  match body r with
  | Some data => ret data
  | None => raise (Exn JSONDecodeError "Expecting value")
  end.

(** [data.get(key, default)] on whatever [response.json()] returned: only
    a dict has the method. *)
Definition data_get (data : json) (key : string) (default : json)
  : M W json :=
  match data with
  | JObject d =>
      ret (match dict_get key d with Some v => v | None => default end)
  | _ => raise (Exn AttributeError "object has no attribute 'get'")
  end.

(** [x in options] for a list of strings: a decoded value equals a string
    only when it is that string. *)
Definition in_options (x : json) (options : list string) : option string :=
  match x with
  | JStr a => if existsb (String.eqb a) options then Some a else None
  | _ => None
  end.

Definition set_job : M W unit :=
  update_gpt (fun g => {| llm_api_key := llm_api_key g;
                          llm_model := llm_model g;
                          llm_model_type := llm_model_type g;
                          llm_api_url := llm_api_url g;
                          gpt_current_job := true |}).

(** The body of the [try] of [answer_question_from_options]. *)
Definition ask_for_option (self : GPTAnswerer) (question_text : string)
  (options : list string) : M W string :=
  let payload :=
    JObject [("prompt", JStr question_text);
             ("options", JList (map JStr options));
             ("model", JStr (llm_model self))] in
  response <- post E (llm_api_url self) payload ;;
  raise_for_status response ;;
  data <- response_json response ;;
  gemini_answer <- data_get data "answer" (JStr "") ;;
  match in_options gemini_answer options with
  | Some a => ret a
  | None => random_choice E options
  end.

Definition answer_question_from_options (question_text : string)
  (options : list string) : M W string :=
  s <- get_state ;;
  let self := gpt_answerer s in
  if Text.str_lower (llm_model_type self) =? "gemini" then
    if llm_api_url self =? "" then random_choice E options
    else
      try_except (ask_for_option self question_text options)
                 (fun _ => random_choice E options)
  else random_choice E options.

Definition _fallback_text : string :=
  "I'm excited about the opportunity to contribute " ++
  "to this role with my experience and enthusiasm. " ++
  "Looking forward to discussing further details!".

Definition answer_question_textual_wide_range (question_text : string)
  : M W json :=
  s <- get_state ;;
  let self := gpt_answerer s in
  if Text.str_lower (llm_model_type self) =? "gemini" then
    if llm_api_url self =? "" then ret (JStr _fallback_text)
    else
      try_except
        (let payload :=
           JObject [("prompt", JStr question_text);
                    ("model", JStr (llm_model self))] in
         response <- post E (llm_api_url self) payload ;;
         raise_for_status response ;;
         data <- response_json response ;;
         gemini_answer <- data_get data "answer" (JStr "") ;;
         if truthy gemini_answer then ret gemini_answer
         else ret (JStr _fallback_text))
        (fun _ => ret (JStr _fallback_text))
  else ret (JStr _fallback_text).

Definition answer_question_numeric (question_text : string) : M W json :=
  s <- get_state ;;
  let self := gpt_answerer s in
  if (Text.str_lower (llm_model_type self) =? "gemini") &&
     negb (llm_api_url self =? "") then
    try_except
      (let payload :=
         JObject [("prompt",
                   JStr ("Return a numeric answer for: " ++ question_text));
                  ("model", JStr (llm_model self))] in
       response <- post E (llm_api_url self) payload ;;
       raise_for_status response ;;
       data <- response_json response ;;
       numeric_answer <- data_get data "answer" (JStr "42") ;;
       ret numeric_answer)
      (fun _ => ret (JStr "42"))
  else ret (JStr "42").

Definition resume_or_cover (parent_text : string) : string :=
  let parent_text := Text.str_lower parent_text in
  if Text.str_in "cover" parent_text then "cover" else "resume".

End Answerer.

End GPT.

(* ===================================================================== *)
(** * AIHawkEasyApplier (src/aihawk_easy_applier.py) *)
(* ===================================================================== *)

Module Applier.

Import Py World.
Local Open Scope string_scope.
Local Open Scope py_scope.

(** The characters that cannot be written inside a string literal. *)
Definition nl : string := String Text.newline "".
Definition dq : string := String Text.quote "".

(** ** The answer store *)

Definition output_file_error_prefix (what : string) : string :=
  "Error " ++ what ++ " questions data from JSON file: " ++ nl ++
  "Traceback:" ++ nl.

Definition format_error : exn :=
  Exn ValueError "JSON file format is incorrect. Expected a list of questions.".

(** [open(output_file, 'r')] followed by [json.load(f)]. *)
Definition open_read (f : store_file) : exn + file_content :=
  match f with
  | None => inl (Exn FileNotFoundError "answers.json")
  | Some c => inr c
  end.

Definition json_load (c : file_content) : exn + json :=
  match c with
  | Undecodable => inl (Exn JSONDecodeError "Expecting value")
  | BadEncoding => inl (Exn UnicodeDecodeError "invalid start byte")
  | Decoded data => inr data
  end.

Section Methods.
Context {W : Type} (E : Env W).

Definition lift {A} (r : exn + A) : M W A :=
  match r with
  | inl e => raise e
  | inr a => ret a
  end.

(** The inner [try] shared by the loader and the saver: decode, insist on
    a list, and take a decoding failure as the empty list. *)
Definition load_list (c : file_content) : M W (list json) :=
  try_except
    (data <- lift (json_load c) ;;
     match data with
     | JList items => ret items
     | _ => raise format_error
     end)
    (fun e =>
       if isinstance e JSONDecodeError then ret []
       else raise e).

Definition _load_questions_from_json : M W (list json) :=
  try_except
    (s <- get_state ;;
     f <- lift (open_read (answers_json s)) ;;
     data <- load_list f ;;
     ret data)
    (fun e =>
       if isinstance e FileNotFoundError then ret []
       else raise (Reraised (output_file_error_prefix "loading") e)).

(** [question_data['question'] = self._sanitize_text(question_data['question'])] *)
Definition sanitize_question (question_data : list (string * json))
  : M W (list (string * json)) :=
  match dict_get "question" question_data with
  | None => raise (Exn KeyError "'question'")
  | Some (JStr q) =>
      ret (dict_set "question" (JStr (Text._sanitize_text q)) question_data)
  | Some _ => raise (Exn AttributeError "object has no attribute 'lower'")
  end.

Definition _save_questions_to_json (question_data : list (string * json))
  : M W unit :=
  question_data <- sanitize_question question_data ;;
  try_except
    (data <- try_except
               (s <- get_state ;;
                f <- lift (open_read (answers_json s)) ;;
                load_list f)
               (fun e =>
                  if isinstance e FileNotFoundError then ret []
                  else raise e) ;;
     let data := (data ++ [JObject question_data])%list in
     set_answers_json (Some (Decoded (JList data))))
    (fun e => raise (Reraised (output_file_error_prefix "saving") e)).

(** ** RedirectGuard *)

Definition premium : string := "linkedin.com/premium".

Definition redirect_error : exn :=
  Exn Exception_
      "Redirected to Premium page and failed to return to job page.".

(** The [while] loop of [check_for_premium_redirect]; [remaining] is
    [max_attempts - attempts]. *)
Fixpoint premium_loop (remaining : nat) (current_url : string) : M W string :=
  if Text.str_in premium current_url then
    match remaining with
    | O => ret current_url
    | S remaining' =>
        s <- get_state ;;
        driver_get E (link (job s)) ;;
        current_url <- driver_current_url E ;;
        premium_loop remaining' current_url
    end
  else ret current_url.

Definition check_for_premium_redirect_with (max_attempts : nat) : M W unit :=
  current_url <- driver_current_url E ;;
  current_url <- premium_loop max_attempts current_url ;;
  if Text.str_in premium current_url then raise redirect_error
  else ret tt.

(** [max_attempts=3] *)
Definition check_for_premium_redirect : M W unit :=
  check_for_premium_redirect_with 3.

(** ** Scrolling (src/utils.py) *)

(** [range(0, h, step)] and [range(h, 0, -step)] for [step > 0]. *)
Definition range_up (h step : Z) : list Z :=
  map (fun i => Z.of_nat i * step)%Z
      (seq 0 (Z.to_nat ((h + step - 1) / step))).

Definition range_down (h step : Z) : list Z :=
  map (fun i => h - Z.of_nat i * step)%Z
      (seq 0 (Z.to_nat ((h + step - 1) / step))).

(** A value used where Python needs an [int]: [bool] counts as one. *)
Definition as_int (v : json) : M W Z :=
  match v with
  | JInt z => ret z
  | JBool b => ret (if b then 1 else 0)%Z
  | _ => raise (Exn TypeError "object cannot be interpreted as an integer")
  end.

Definition scroll_slow (element : elem) (step : Z) (reverse : bool)
  : M W unit :=
  v <- driver_execute_script E "return arguments[0].scrollHeight"
                             [ArgElem element] ;;
  scroll_height <- as_int v ;;
  let scroll_range :=
    if reverse then range_down scroll_height step
    else range_up scroll_height step in
  for_each scroll_range
    (fun value =>
       driver_execute_script E "arguments[0].scrollTop = %s;"
                             [ArgElem element; ArgInt value] ;;
       ret tt).

Definition _scroll_page : M W unit :=
  scrollable_element <- driver_find_element E TAG_NAME "html" ;;
  scroll_slow scrollable_element 300 false ;;
  scroll_slow scrollable_element 300 true.

(** ** ElementLocator *)

Record search_method : Type := {
  method_description : string;
  method_find_elements : bool;
  method_xpath : string
}.

Definition search_methods : list search_method :=
  [ {| method_description :=
         "XPath con jobs-apply-button y texto 'Easy Apply'";
       method_find_elements := true;
       method_xpath :=
         "//button[contains(@class, " ++ dq ++ "jobs-apply-button" ++ dq ++
         ") and .//span[contains(@class, " ++ dq ++ "artdeco-button__text" ++
         dq ++ ") and normalize-space(text()) = " ++ dq ++ "Easy Apply" ++
         dq ++ "]]" |};
    {| method_description := "aria-label containing 'Easy Apply to'";
       method_find_elements := false;
       method_xpath :=
         "//button[contains(@aria-label, " ++ dq ++ "Easy Apply to" ++ dq ++
         ")]" |};
    {| method_description := "button text fallback";
       method_find_elements := false;
       method_xpath :=
         "//button[contains(text(), " ++ dq ++ "Easy Apply" ++ dq ++
         ") or contains(text(), " ++ dq ++ "Apply now" ++ dq ++
         ") or contains(text(), " ++ dq ++ "Solicitud sencilla" ++ dq ++
         ")]" |} ].

Definition not_found_error : exn :=
  Exn Exception_ "No clickable 'Easy Apply' button found".

(** The inner [for index, button in enumerate(buttons)]: the first button
    that becomes visible and clickable is returned, a button that does not
    is logged and skipped. *)
Fixpoint first_clickable (buttons : list elem) : M W (option elem) :=
  match buttons with
  | [] => ret None
  | button :: rest =>
      r <- try_except
             (WebDriverWait_until E (visibility_of button) ;;
              WebDriverWait_until E (element_to_be_clickable button) ;;
              ret (Some button))
             (fun _ => ret None) ;;
      match r with
      | Some b => ret (Some b)
      | None => first_clickable rest
      end
  end.

(** The body of [for method in search_methods]: [Some button] when the
    method executes [return button], [None] when it falls through (no
    element, or an exception, which both [except] clauses only log). *)
Definition try_method (method : search_method) : M W (option elem) :=
  try_except
    (if method_find_elements method then
       buttons <- driver_find_elements E XPATH (method_xpath method) ;;
       first_clickable buttons
     else
       button <- WebDriverWait_until E
                   (presence_of_element_located XPATH (method_xpath method)) ;;
       WebDriverWait_until E (visibility_of button) ;;
       WebDriverWait_until E (element_to_be_clickable button) ;;
       ret (Some button))
    (fun _ => ret None).

Fixpoint try_methods (methods : list search_method) : M W (option elem) :=
  match methods with
  | [] => ret None
  | method :: rest =>
      r <- try_method method ;;
      match r with
      | Some b => ret (Some b)
      | None => try_methods rest
      end
  end.

(** The code after the [while] loop of [_find_easy_apply_button]. *)
Definition report_not_found {A} : M W A :=
  driver_page_source E ;;
  raise not_found_error.

(** The [while attempt < 2] loop; [rounds] bounds its iterations and two
    are enough, since [attempt] grows by one each time round. *)
Fixpoint find_loop (rounds : nat) (attempt : nat) : M W elem :=
  match rounds with
  | O => report_not_found
  | S rounds' =>
      if (attempt <? 2)%nat then
        check_for_premium_redirect ;;
        _scroll_page ;;
        r <- try_methods search_methods ;;
        match r with
        | Some button => ret button
        | None =>
            check_for_premium_redirect ;;
            (if (attempt =? 0)%nat then driver_refresh E else ret tt) ;;
            find_loop rounds' (attempt + 1)
        end
      else report_not_found
  end.

Definition _find_easy_apply_button : M W elem := find_loop 2 0.

(** ** Job description and recruiter *)

Definition _get_job_description : M W string :=
  try_except
    (try_except
       (see_more_button <-
          driver_find_element E XPATH
            ("//button[@aria-label=" ++ dq ++
             "Click to see more description" ++ dq ++ "]") ;;
        actions_click E see_more_button)
       (fun e =>
          if isinstance e NoSuchElementException then ret tt else raise e) ;;
     description <-
       try_except
         (el <- driver_find_element E CLASS_NAME
                  "jobs-description-content__text" ;;
          element_text E el)
         (fun e =>
            if isinstance e NoSuchElementException then
              el <- driver_find_element E CLASS_NAME
                      "job-details-about-the-job-module__description" ;;
              element_text E el
            else raise e) ;;
     ret description)
    (fun e =>
       if isinstance e NoSuchElementException
       then raise (Exn Exception_ "Job description not found.")
       else raise (Reraised ("Error getting Job description:" ++ nl) e)).

Definition _get_job_recruiter : M W string :=
  try_except
    (hiring_team_section <-
       WebDriverWait_until E
         (presence_of_element_located XPATH
            ("//h2[text()=" ++ dq ++ "Meet the hiring team" ++ dq ++ "]")) ;;
     recruiter_elements <-
       element_find_elements E hiring_team_section XPATH
         (".//following::a[contains(@href, " ++ dq ++ "linkedin.com/in/" ++
          dq ++ ")]") ;;
     match recruiter_elements with
     | first :: _ =>
         recruiter_link <- element_get_attribute E first "href" ;;
         ret recruiter_link
     | [] => ret ""
     end)
    (fun _ => ret "").

(** ** Uploads *)

Definition max_file_size : Z := 2 * 1024 * 1024.

Definition allowed_extensions : list string := [".pdf"; ".doc"; ".docx"].

(** [file_extension.lower() not in allowed_extensions], negated. *)
Definition extension_allowed (file_path : string) : bool :=
  let (_, file_extension) := Path.splitext file_path in
  existsb (String.eqb (Text.str_lower file_extension)) allowed_extensions.

(** The size and format checks, written twice in the source (in
    [_create_and_upload_resume] and [_create_and_upload_cover_letter])
    with the same tests and different messages. *)
Definition validate_artifact (size_message format_message : string)
  (file_size : Z) (file_path : string) : M W unit :=
  if (file_size >? max_file_size)%Z then
    raise (Exn ValueError size_message)
  else if negb (extension_allowed file_path) then
    raise (Exn ValueError format_message)
  else ret tt.

Definition folder_path : string := "generated_cv".

Definition set_pdf_path (p : string) : M W unit :=
  update_job (fun j => {| link := link j; title := title j;
                          description := description j;
                          recruiter_link := recruiter_link j;
                          pdf_path := Some p;
                          cover_letter_path := cover_letter_path j |}).

Definition set_cover_letter_path (p : string) : M W unit :=
  update_job (fun j => {| link := link j; title := title j;
                          description := description j;
                          recruiter_link := recruiter_link j;
                          pdf_path := pdf_path j;
                          cover_letter_path := Some p |}).

(** [time.sleep(secs)] raises on a negative length and is otherwise not
    modelled. *)
Definition time_sleep (secs : Z) : M W unit :=
  if (secs <? 0)%Z
  then raise (Exn ValueError "sleep length must be non-negative")
  else ret tt.

(** The two [except] clauses of the [while True] of
    [_create_and_upload_resume]: [None] means that a rate limit was met
    and that the loop goes round again. *)
Definition rate_limit_handler (e : exn) : M W (option string) :=
  match e with
  | HTTPStatusError status retry_after_header _ =>
      if (status =? 429)%Z then
        let retry_after :=
          match retry_after_header with
          | Some h => if h =? "" then "20" else h
          | None => "20"
          end in
        match int_of_str retry_after with
        | Some wait_time => time_sleep wait_time ;; ret None
        | None =>
            raise (Exn ValueError "invalid literal for int() with base 10")
        end
      else raise e
  | _ =>
      if Text.str_in "RateLimitError" (exn_str e) then ret None
      else raise e
  end.

(** One iteration of the [while True] of [_create_and_upload_resume]:
    [Some path] when it reaches [break]. *)
Definition generate_resume_once : M W (option string) :=
  try_except
    (timestamp <- time_time E ;;
     let file_path_pdf :=
       Path.join folder_path ("CV_" ++ str_of_int timestamp ++ ".pdf") in
     s <- get_state ;;
     resume_pdf_base64 <- generator_pdf_base64 E (description (job s)) ;;
     open_exclusive E file_path_pdf ;;
     data <- lift (b64decode E resume_pdf_base64) ;;
     write_bytes E file_path_pdf data ;;
     ret (Some file_path_pdf))
    rate_limit_handler.

Fixpoint generate_resume (fuel : nat) : M W string :=
  match fuel with
  | O => out_of_fuel
  | S fuel' =>
      r <- generate_resume_once ;;
      match r with
      | Some file_path_pdf => ret file_path_pdf
      | None => generate_resume fuel'
      end
  end.

(** The first part of [_create_and_upload_resume], up to the end of its
    [while True]: the path of the file that was written. *)
Definition create_resume (fuel : nat) : M W string :=
  os_makedirs E folder_path ;;
  generate_resume fuel.

Definition _create_and_upload_resume (fuel : nat) (element : elem)
  : M W unit :=
  file_path_pdf <- create_resume fuel ;;
  file_size <- os_getsize E file_path_pdf ;;
  validate_artifact
    "Resume file size exceeds the maximum limit of 2 MB."
    "Resume file format is not allowed. Only PDF, DOC, DOCX supported."
    file_size file_path_pdf ;;
  element_send_keys E element (abspath E file_path_pdf) ;;
  set_pdf_path (abspath E file_path_pdf).

(** The first part of [_create_and_upload_cover_letter], up to [c.save()]:
    the path of the file that was rendered. *)
Definition create_cover_letter : M W string :=
  cover_letter_text <-
    GPT.answer_question_textual_wide_range E "Write a cover letter" ;;
  os_makedirs E folder_path ;;
  timestamp <- time_time E ;;
  let file_path_pdf :=
    Path.join folder_path
              ("Cover_Letter_" ++ str_of_int timestamp ++ ".pdf") in
  wrapped_lines <-
    match cover_letter_text with
    | JStr text => ret (Path.split_text_by_width (fits_width E) text)
    | _ => raise (Exn AttributeError "object has no attribute 'split'")
    end ;;
  reportlab_render E file_path_pdf wrapped_lines ;;
  ret file_path_pdf.

Definition _create_and_upload_cover_letter (element : elem) : M W unit :=
  file_path_pdf <- create_cover_letter ;;
  file_size <- os_getsize E file_path_pdf ;;
  validate_artifact
    "Cover letter file size exceeds the maximum limit of 2 MB."
    "Cover letter file format is not allowed (PDF, DOC, DOCX)."
    file_size file_path_pdf ;;
  element_send_keys E element (abspath E file_path_pdf) ;;
  set_cover_letter_path (abspath E file_path_pdf).

Definition _is_upload_field (element : elem) : M W bool :=
  found <- element_find_elements E element XPATH ".//input[@type='file']" ;;
  ret (match found with [] => false | _ => true end).

Definition _handle_upload_fields (fuel : nat) (element : elem) : M W unit :=
  try_except
    (show_more_button <-
       driver_find_element E XPATH
         "//button[contains(@aria-label, 'Show more resumes')]" ;;
     element_click E show_more_button)
    (fun e =>
       if isinstance e NoSuchElementException then ret tt else raise e) ;;
  file_upload_elements <-
    driver_find_elements E XPATH "//input[@type='file']" ;;
  for_each file_upload_elements
    (fun input_file =>
       parent <- element_find_element E input_file XPATH ".." ;;
       driver_execute_script E "arguments[0].classList.remove('hidden')"
                             [ArgElem input_file] ;;
       parent_text <- element_text E parent ;;
       let output := GPT.resume_or_cover (Text.str_lower parent_text) in
       if Text.str_in "resume" output then
         s <- get_state ;;
         match resume_path s with
         | Some p =>
             if p =? "" then _create_and_upload_resume fuel input_file
             else element_send_keys E input_file p
         | None => _create_and_upload_resume fuel input_file
         end
       else if Text.str_in "cover" output then
         _create_and_upload_cover_letter input_file
       else ret tt).

(** ** Questions *)

(** [_process_form_section] is [pass] in the source. *)
Definition _process_form_section (section : elem) : M W unit := ret tt.

Definition _fill_additional_questions : M W unit :=
  form_sections <-
    driver_find_elements E CLASS_NAME
      "jobs-easy-apply-form-section__grouping" ;;
  for_each form_sections _process_form_section.

Definition _process_form_element (fuel : nat) (element : elem) : M W unit :=
  is_upload <- _is_upload_field element ;;
  if is_upload then _handle_upload_fields fuel element
  else _fill_additional_questions.

Definition fill_up (fuel : nat) : M W unit :=
  try_except
    (easy_apply_content <-
       WebDriverWait_until E
         (presence_of_element_located CLASS_NAME "jobs-easy-apply-content") ;;
     pb4_elements <-
       element_find_elements E easy_apply_content CLASS_NAME "pb4" ;;
     for_each pb4_elements (_process_form_element fuel))
    (fun _ => ret tt).

(** ** SubmissionStateMachine *)

Definition _unfollow_company : M W unit :=
  try_except
    (follow_checkbox <-
       driver_find_element E XPATH
         "//label[contains(.,'to stay up to date with their page.')]" ;;
     element_click E follow_checkbox)
    (fun _ => ret tt).

(** [[e.text for e in error_elements]] *)
Fixpoint collect_texts (elements : list elem) : M W (list string) :=
  match elements with
  | [] => ret []
  | e :: rest =>
      t <- element_text E e ;;
      ts <- collect_texts rest ;;
      ret (t :: ts)
  end.

Definition _check_for_errors : M W unit :=
  error_elements <-
    driver_find_elements E CLASS_NAME "artdeco-inline-feedback--error" ;;
  match error_elements with
  | [] => ret tt
  | _ =>
      texts <- collect_texts error_elements ;;
      raise (ExnList Exception_ "Failed answering or file upload: " texts)
  end.

Definition _next_or_submit : M W bool :=
  next_button <- driver_find_element E CLASS_NAME "artdeco-button--primary" ;;
  t <- element_text E next_button ;;
  let button_text := Text.str_lower t in
  if Text.str_in "submit application" button_text ||
     Text.str_in "enviar solicitud" button_text then
    _unfollow_company ;;
    element_click E next_button ;;
    ret true
  else
    element_click E next_button ;;
    _check_for_errors ;;
    ret false.

(** The [while True] of [_fill_application_form]; [fuel] bounds the number
    of steps of the wizard (and the rate-limit retries of each upload). *)
Fixpoint _fill_application_form (fuel : nat) : M W unit :=
  match fuel with
  | O => out_of_fuel
  | S fuel' =>
      fill_up fuel ;;
      submitted <- _next_or_submit ;;
      if submitted then ret tt else _fill_application_form fuel'
  end.

(** ** Rollback and the controller *)

Definition _discard_application : M W unit :=
  try_except
    (dismiss <- driver_find_element E CLASS_NAME "artdeco-modal__dismiss" ;;
     element_click E dismiss ;;
     discard_buttons <-
       driver_find_elements E CLASS_NAME "artdeco-modal__confirm-dialog-btn" ;;
     match discard_buttons with
     | first :: _ => element_click E first
     | [] => ret tt
     end)
    (fun _ => ret tt).

(** Modelled from the spec: the setters of the Job object, which store
    their argument in the field they name. *)
Definition set_job_description (d : string) : M W unit :=
  update_job (fun j => {| link := link j; title := title j;
                          description := Some d;
                          recruiter_link := recruiter_link j;
                          pdf_path := pdf_path j;
                          cover_letter_path := cover_letter_path j |}).

Definition set_recruiter_link (r : string) : M W unit :=
  update_job (fun j => {| link := link j; title := title j;
                          description := description j;
                          recruiter_link := Some r;
                          pdf_path := pdf_path j;
                          cover_letter_path := cover_letter_path j |}).

Definition job_apply_error_prefix : string :=
  "Failed to apply to job! Original exception:" ++ nl ++ "Traceback:" ++ nl.

(** The statements of [job_apply] inside its second [try]. *)
Definition job_apply_guarded (fuel : nat) : M W unit :=
  driver_execute_script E "document.activeElement.blur();" [] ;;
  check_for_premium_redirect ;;
  easy_apply_button <- _find_easy_apply_button ;;
  check_for_premium_redirect ;;
  job_description <- _get_job_description ;;
  set_job_description job_description ;;
  recruiter_link <- _get_job_recruiter ;;
  set_recruiter_link recruiter_link ;;
  set_current_job ;;
  actions_click E easy_apply_button ;;
  GPT.set_job ;;
  _fill_application_form fuel.

Definition job_apply (fuel : nat) : M W unit :=
  s <- get_state ;;
  try_except (driver_get E (link (job s)))
    (fun e => raise e) ;;
  check_for_premium_redirect ;;
  try_except (job_apply_guarded fuel)
    (fun e =>
       _discard_application ;;
       raise (Reraised job_apply_error_prefix e)).

Definition apply_to_job (fuel : nat) : M W unit :=
  try_except (job_apply fuel) (fun e => raise e).

End Methods.

End Applier.

(* ===================================================================== *)
(** * Concrete worlds, to run the methods on *)
(* ===================================================================== *)

Module Scenario.

Import Py World.
Local Open Scope string_scope.

(** A static page seen through the driver.  The world state counts the
    navigations made so far, so that the location can change after one. *)
Record page : Type := {
  url_after : nat -> string;
  document : By -> string -> list elem;
  children : elem -> By -> string -> list elem;
  interactable : elem -> bool;
  text_of : elem -> string;
  href_of : elem -> string;
  generated_size : Z;
  resume_reply : reply string;
  llm_reply : reply http_response
}.

Definition first_or (e : exn) (l : list elem) : reply elem :=
  match l with
  | x :: _ => inr x
  | [] => inl e
  end.

Definition no_such_element : exn :=
  Exn NoSuchElementException "no such element".
Definition timed_out : exn := Exn TimeoutException "timeout".

Definition lookup (p : page) (scope : option elem) : By -> string -> list elem :=
  match scope with
  | None => document p
  | Some e => children p e
  end.

Definition env_of (p : page) : Env nat := {|
  current_url := fun w => url_after p w;
  get := fun _ w => (inr tt, S w);
  refresh := fun w => (inr tt, w);
  page_source := fun w => (inr "<html></html>", w);
  execute_script := fun _ _ w => (inr (JInt 0), w);
  find_element := fun scope by_ v w =>
    (first_or no_such_element (lookup p scope by_ v), w);
  find_elements := fun scope by_ v w => (inr (lookup p scope by_ v), w);
  wait_until := fun c w =>
    (match c with
     | presence_of_element_located by_ v =>
         first_or timed_out (document p by_ v)
     | visibility_of e | element_to_be_clickable e =>
         if interactable p e then inr e else inl timed_out
     end, w);
  click := fun _ _ w => (inr tt, w);
  text := fun e w => (inr (text_of p e), w);
  get_attribute := fun e _ w => (inr (href_of p e), w);
  send_keys := fun _ _ w => (inr tt, w);
  pdf_base64 := fun _ w => (resume_reply p, w);
  requests_post := fun _ _ w => (llm_reply p, w);
  makedirs := fun _ w => (inr tt, w);
  time := fun w => (1700000000%Z, w);
  b64decode := fun s => inr s;
  open_xb := fun _ w => (inr tt, w);
  file_write := fun _ _ w => (inr tt, w);
  render_pdf := fun _ _ w => (inr tt, w);
  getsize := fun _ w => (inr (generated_size p), w);
  abspath := fun path => "/home/user/" ++ path;
  fits_width := fun l => (String.length l <=? 80)%nat;
  randbelow := fun _ w => (0%nat, w)
|}.

Definition job_url : string := "https://www.linkedin.com/jobs/view/1".
Definition premium_url : string := "https://www.linkedin.com/premium/products".

Definition a_job : Job := {|
  link := job_url;
  title := "Engineer";
  description := None;
  recruiter_link := None;
  pdf_path := None;
  cover_letter_path := None
|}.

Definition an_answerer : GPTAnswerer := {|
  llm_api_key := "key";
  llm_model := "gemini-pro";
  llm_model_type := "gemini";
  llm_api_url := "https://llm.example/answer";
  gpt_current_job := false
|}.

Definition start (store : store_file) : state nat := {|
  world := 0%nat;
  log := [];
  answers_json := store;
  job := a_job;
  resume_path := None;
  current_job := false;
  gpt_answerer := an_answerer
|}.

(** A document with its root element (element 1) and nothing else. *)
Definition html_only (by_ : By) (v : string) : list elem :=
  match by_ with
  | TAG_NAME => if v =? "html" then [1%nat] else []
  | _ => []
  end.

(** A job page on which nothing the applier looks for exists. *)
Definition blank_page : page := {|
  url_after := fun _ => job_url;
  document := html_only;
  children := fun _ _ _ => [];
  interactable := fun _ => false;
  text_of := fun _ => "";
  href_of := fun _ => "";
  generated_size := 1000;
  resume_reply := inr "JVBERi0=";
  llm_reply := inr {| status_code := 200; body := Some (JObject []) |}
|}.

(** The blank page with a modal open over it: its dismiss control is
    element 20 and the confirmation control of its discard dialog is
    element 21. *)
Definition modal_page : page := {|
  url_after := fun _ => job_url;
  document := fun by_ v =>
    match by_ with
    | CLASS_NAME =>
        if v =? "artdeco-modal__dismiss" then [20%nat]
        else if v =? "artdeco-modal__confirm-dialog-btn" then [21%nat]
        else []
    | _ => html_only by_ v
    end;
  children := fun _ _ _ => [];
  interactable := fun _ => false;
  text_of := fun _ => "";
  href_of := fun _ => "";
  generated_size := 1000;
  resume_reply := inr "JVBERi0=";
  llm_reply := inr {| status_code := 200; body := Some (JObject []) |}
|}.

(** Every location is the upsell page, whatever is navigated to. *)
Definition premium_wall : page := {|
  url_after := fun _ => premium_url;
  document := html_only;
  children := fun _ _ _ => [];
  interactable := fun _ => false;
  text_of := fun _ => "";
  href_of := fun _ => "";
  generated_size := 1000;
  resume_reply := inr "JVBERi0=";
  llm_reply := inr {| status_code := 200; body := Some (JObject []) |}
|}.

(** The upsell page is shown until [n] navigations have been made. *)
Definition premium_until (n : nat) : page := {|
  url_after := fun w => if (w <? n)%nat then premium_url else job_url;
  document := html_only;
  children := fun _ _ _ => [];
  interactable := fun _ => false;
  text_of := fun _ => "";
  href_of := fun _ => "";
  generated_size := 1000;
  resume_reply := inr "JVBERi0=";
  llm_reply := inr {| status_code := 200; body := Some (JObject []) |}
|}.

(** A job page whose apply button is found by the second search method
    only (element 7), with a description (element 8), one wizard step and
    no form content; the primary button (element 9) submits. *)
Definition second_method_page : page := {|
  url_after := fun _ => job_url;
  document := fun by_ v =>
    match by_ with
    | XPATH =>
        if v =? Applier.method_xpath
                  (nth 1 Applier.search_methods
                       (Applier.Build_search_method "" false ""))
        then [7%nat] else []
    | CLASS_NAME =>
        if v =? "jobs-description-content__text" then [8%nat]
        else if v =? "artdeco-button--primary" then [9%nat]
        else []
    | TAG_NAME => [1%nat]
    end;
  children := fun _ _ _ => [];
  interactable := fun _ => true;
  text_of := fun e =>
    if (e =? 8)%nat then "We are hiring."
    else if (e =? 9)%nat then "Submit application" else "";
  href_of := fun _ => "";
  generated_size := 1000;
  resume_reply := inr "JVBERi0=";
  llm_reply := inr {| status_code := 200; body := Some (JObject []) |}
|}.

(** The same page, except that its primary button always reads Next and
    no validation error ever shows. *)
Definition endless_wizard : page := {|
  url_after := url_after second_method_page;
  document := document second_method_page;
  children := children second_method_page;
  interactable := interactable second_method_page;
  text_of := fun e =>
    if (e =? 8)%nat then "We are hiring."
    else if (e =? 9)%nat then "Next" else "";
  href_of := href_of second_method_page;
  generated_size := generated_size second_method_page;
  resume_reply := resume_reply second_method_page;
  llm_reply := llm_reply second_method_page
|}.

(** The same page with a generated file of [size] bytes. *)
Definition with_size (size : Z) (p : page) : page := {|
  url_after := url_after p;
  document := document p;
  children := children p;
  interactable := interactable p;
  text_of := text_of p;
  href_of := href_of p;
  generated_size := size;
  resume_reply := resume_reply p;
  llm_reply := llm_reply p
|}.

(** The same page with an LLM endpoint that gives [r]. *)
Definition with_llm (r : reply http_response) (p : page) : page := {|
  url_after := url_after p;
  document := document p;
  children := children p;
  interactable := interactable p;
  text_of := text_of p;
  href_of := href_of p;
  generated_size := generated_size p;
  resume_reply := resume_reply p;
  llm_reply := r
|}.

(** A job page in the premium layout: no button to expand the
    description, no element of the usual description class, and the
    description in the element of the alternative class (element 12). *)
Definition premium_layout_page : page := {|
  url_after := fun _ => job_url;
  document := fun by_ v =>
    match by_ with
    | CLASS_NAME =>
        if v =? "job-details-about-the-job-module__description"
        then [12%nat] else []
    | _ => html_only by_ v
    end;
  children := fun _ _ _ => [];
  interactable := fun _ => true;
  text_of := fun e => if (e =? 12)%nat then "About the job" else "";
  href_of := fun _ => "";
  generated_size := 1000;
  resume_reply := inr "JVBERi0=";
  llm_reply := inr {| status_code := 200; body := Some (JObject []) |}
|}.

(** A wizard step that was rejected: the primary button (element 9) reads
    Next and two inline error indicators (elements 30 and 31) show. *)
Definition rejected_step_page : page := {|
  url_after := fun _ => job_url;
  document := fun by_ v =>
    match by_ with
    | CLASS_NAME =>
        if v =? "artdeco-button--primary" then [9%nat]
        else if v =? "artdeco-inline-feedback--error" then [30%nat; 31%nat]
        else []
    | _ => html_only by_ v
    end;
  children := fun _ _ _ => [];
  interactable := fun _ => true;
  text_of := fun e =>
    if (e =? 9)%nat then "Next"
    else if (e =? 30)%nat then "Please enter a valid answer"
    else if (e =? 31)%nat then "Enter a whole number"
    else "";
  href_of := fun _ => "";
  generated_size := 1000;
  resume_reply := inr "JVBERi0=";
  llm_reply := inr {| status_code := 200; body := Some (JObject []) |}
|}.

(** The same page with a resume generator that gives [r]. *)
Definition with_resume (r : reply string) (p : page) : page := {|
  url_after := url_after p;
  document := document p;
  children := children p;
  interactable := interactable p;
  text_of := text_of p;
  href_of := href_of p;
  generated_size := generated_size p;
  resume_reply := r;
  llm_reply := llm_reply p
|}.


(** An upload step: the wizard's content (element 40) holds one block
    (element 41) with a file input (element 42) whose parent (element 43)
    is labelled for the resume; the primary button (element 9) submits. *)
Definition upload_step_page : page := {|
  url_after := fun _ => job_url;
  document := fun by_ v =>
    match by_ with
    | CLASS_NAME =>
        if v =? "jobs-easy-apply-content" then [40%nat]
        else if v =? "artdeco-button--primary" then [9%nat]
        else []
    | XPATH => if v =? "//input[@type='file']" then [42%nat] else []
    | TAG_NAME => html_only by_ v
    end;
  children := fun e by_ v =>
    match by_ with
    | CLASS_NAME =>
        if ((e =? 40)%nat && (v =? "pb4"))%bool then [41%nat] else []
    | XPATH =>
        if ((e =? 41)%nat && (v =? ".//input[@type='file']"))%bool
        then [42%nat]
        else if ((e =? 42)%nat && (v =? ".."))%bool then [43%nat]
        else []
    | TAG_NAME => []
    end;
  interactable := fun _ => true;
  text_of := fun e =>
    if (e =? 9)%nat then "Submit application"
    else if (e =? 43)%nat then "Upload resume" else "";
  href_of := fun _ => "";
  generated_size := 1000;
  resume_reply := inr "JVBERi0=";
  llm_reply := inr {| status_code := 200; body := Some (JObject []) |}
|}.

(** The start state with a resume configured at [p]. *)
Definition start_with_resume (p : string) : state nat := {|
  world := 0%nat;
  log := [];
  answers_json := None;
  job := a_job;
  resume_path := Some p;
  current_job := false;
  gpt_answerer := an_answerer
|}.

End Scenario.

(* ===================================================================== *)
(** * Vocabulary of the statements *)
(* ===================================================================== *)

Module Spec.

Import Text Py World.
Local Open Scope string_scope.

(** What every character of a normalised text satisfies. *)
Definition clean (c : ascii) : bool :=
  Ascii.eqb (lower_char c) c && negb (Ascii.eqb c quote) &&
  negb (Ascii.eqb c backslash) && negb (is_control c).

(** The list of records an answer-store file stands for when it can be
    read: none when the file is absent or is not JSON text, the list it
    holds when it holds one. *)
Definition stored_items (f : store_file) : option (list json) :=
  match f with
  | None => Some []
  | Some Undecodable => Some []
  | Some (Decoded (JList items)) => Some items
  | Some _ => None
  end.

(** A question-and-answer record as the caller hands it to the saver. *)
Definition record (question answer type : string) : list (string * json) :=
  [("type", JStr type); ("question", JStr question); ("answer", JStr answer)].

(** [m] only appends to the log, and only events that are [allowed]. *)
Definition emits_only {W A} (allowed : event -> bool) (m : M W A) : Prop :=
  forall s r s',
    m s = (r, s') ->
    exists added, log s' = (log s ++ added)%list /\
                  forallb allowed added = true.

Section Redirect.
Context {W : Type} (E : Env W).
Variable job_link : string.

Definition on_interstitial (w : W) : bool :=
  Text.str_in Applier.premium (current_url E w).

(** The location matches the interstitial pattern now and again after
    each of the next [n] navigations to the job's link. *)
Fixpoint stuck (n : nat) (w : W) : Prop :=
  on_interstitial w = true /\
  match n with
  | O => True
  | S n' => exists w', get E job_link w = (inr tt, w') /\ stuck n' w'
  end.

(** The location matches for the first [k] checks, each followed by a
    navigation to the job's link, and no longer at the next check. *)
Fixpoint released (k : nat) (w : W) : Prop :=
  match k with
  | O => on_interstitial w = false
  | S k' =>
      on_interstitial w = true /\
      exists w', get E job_link w = (inr tt, w') /\ released k' w'
  end.

(** What the guard adds to the log when it navigates [k] times. *)
Definition guard_trace (k : nat) : list event :=
  EvCurrentUrl :: List.concat (repeat [EvGet job_link; EvCurrentUrl] k).

End Redirect.

(** [added] is what a run from [s] to [s'] appended to the log, and [l]
    is what the filter [p] keeps of it. *)
Definition adds {W} (p : event -> bool) (s s' : state W) (l : list event)
  : Prop :=
  exists added, log s' = (log s ++ added)%list /\ filter p added = l.

(** The first call of a search method, by which a round of the locator
    shows in the log. *)
Definition search_event (m : Applier.search_method) : event :=
  if Applier.method_find_elements m
  then EvFindElements None XPATH (Applier.method_xpath m)
  else EvWaitUntil (presence_of_element_located XPATH (Applier.method_xpath m)).

(** The calls by which the locator's rounds, its reload and its giving up
    show in the log: the first call of each search method, the refresh
    and the capture of the page's markup. *)
Definition landmark (ev : event) : bool :=
  match ev with
  | EvRefresh | EvPageSource => true
  | EvFindElements None XPATH _ => true
  | EvWaitUntil (presence_of_element_located XPATH _) => true
  | _ => false
  end.

Definition is_refresh (ev : event) : bool :=
  match ev with
  | EvRefresh => true
  | _ => false
  end.

Section Page.
Context {W : Type} (E : Env W).

(** On this page no search method ever yields a button. *)
Definition never_yields : Prop :=
  forall s, fst (Applier.try_methods E Applier.search_methods s) = Ok None.

(** On this page the redirect guard, the scroll pass, the reload and the
    capture of the markup go through. *)
Definition guard_passes : Prop :=
  forall s, fst (Applier.check_for_premium_redirect E s) = Ok tt.

Definition scroll_passes : Prop :=
  forall s, fst (Applier._scroll_page E s) = Ok tt.

Definition reload_passes : Prop :=
  (forall w, fst (refresh E w) = inr tt) /\
  (forall w, exists markup, fst (page_source E w) = inr markup).

End Page.

(** [m] has no unbounded loop: it returns or raises. *)
Definition fuel_free {W A} (m : M W A) : Prop :=
  forall s, fst (m s) <> OutOfFuel.

(** The events that are no landmark of the locator. *)
Definition quiet (ev : event) : bool := negb (landmark ev).

Definition not_refresh (ev : event) : bool := negb (is_refresh ev).

(** The contract of an artifact, in the words of the specification: at
    most 2 MiB, and an extension among pdf, doc and docx. *)
Definition has_allowed_extension (file_path : string) : Prop :=
  In (Text.str_lower (snd (Path.splitext file_path)))
     [".pdf"; ".doc"; ".docx"].

Definition artifact_valid (file_size : Z) (file_path : string) : Prop :=
  (file_size <= 2 * 1024 * 1024)%Z /\ has_allowed_extension file_path.

(** The first call of the rollback: looking up the modal's dismiss
    control. *)
Definition dismiss_event : event :=
  EvFindElement None CLASS_NAME "artdeco-modal__dismiss".

Definition is_dismiss (ev : event) : bool :=
  match ev with
  | EvFindElement None CLASS_NAME v => v =? "artdeco-modal__dismiss"
  | _ => false
  end.

Definition not_dismiss (ev : event) : bool := negb (is_dismiss ev).

(** The outcomes of one attempt named by the specification. *)
Inductive WorkflowOutcome : Type := Applied | Skipped | Failed.

(** How the caller of [apply_to_job] sees its result: a normal return is
    [Applied], a raised exception is [Failed]; a run cut short by the
    bound on iterations has no outcome. *)
Definition workflow_outcome {A} (r : outcome A) : option WorkflowOutcome :=
  match r with
  | Ok _ => Some Applied
  | Raise _ => Some Failed
  | OutOfFuel => None
  end.

Section PageMore.
Context {W : Type} (E : Env W).

(** On this page navigation and scripts go through. *)
Definition navigation_passes : Prop :=
  forall url w, fst (get E url w) = inr tt.

Definition scripts_pass : Prop :=
  forall script args w, exists v, fst (execute_script E script args w) = inr v.

End PageMore.

(** A character that is neither the extension separator nor the path
    separator. *)
Definition plain_char (c : ascii) : bool :=
  negb (Ascii.eqb c "."%char) && negb (Ascii.eqb c "/"%char).

(** The record as the saver stores it: its question, when it is a string,
    replaced by its normalised text. *)
Definition normalize_record (question_data : list (string * json))
  : list (string * json) :=
  match dict_get "question" question_data with
  | Some (JStr q) =>
      dict_set "question" (JStr (Text._sanitize_text q)) question_data
  | _ => question_data
  end.

(** A record whose question is a string. *)
Definition has_question (question_data : list (string * json)) : Prop :=
  exists q, dict_get "question" question_data = Some (JStr q).



(** The XPath of the button that expands the job description. *)
Definition see_more_xpath : string :=
  "//button[@aria-label=" ++ Applier.dq ++ "Click to see more description" ++
  Applier.dq ++ "]".

(** The answerer is configured to ask the endpoint: its model type reads
    gemini, in any case, and it has a URL. *)
Definition uses_endpoint (g : GPTAnswerer) : bool :=
  (Text.str_lower (llm_model_type g) =? "gemini") &&
  negb (llm_api_url g =? "").


Definition numeric_payload (g : GPTAnswerer) (question_text : string) : json :=
  JObject [("prompt", JStr ("Return a numeric answer for: " ++ question_text));
           ("model", JStr (llm_model g))].

(** The endpoint answered [url] and [payload] in the world [w] with a
    response that is no HTTP error and whose body is a JSON object with
    [answer] under the key of that name. *)
Definition endpoint_answers {W} (E : Env W) (url : string) (payload : json)
  (w : W) (answer : json) : Prop :=
  exists response w' fields,
    requests_post E url payload w = (inr response, w') /\
    ((400 <=? status_code response) && (status_code response <? 600))%Z
      = false /\
    body response = Some (JObject fields) /\
    dict_get "answer" fields = Some answer.

(** The last two calls before [s] are the waits for [button] to be
    visible and to be clickable, and the second one gave an element and
    the world of [s]. *)
Definition just_found_clickable {W} (E : Env W) (button : elem)
  (s : state W) : Prop :=
  (exists before,
     log s = (before ++ [EvWaitUntil (visibility_of button);
                         EvWaitUntil (element_to_be_clickable button)])%list) /\
  exists w x,
    wait_until E (element_to_be_clickable button) w = (inr x, world s).

Definition is_navigation (ev : event) : bool :=
  match ev with
  | EvGet _ => true
  | _ => false
  end.

Definition not_navigation (ev : event) : bool := negb (is_navigation ev).




(** [m] leaves the reading [f] of the state as it was, however it ends. *)
Definition keeps {W A X} (f : state W -> X) (m : M W A) : Prop :=
  forall s, f (snd (m s)) = f s.

(** [f] reads nothing that a call or an upload changes: it is determined
    by the answer store, the configured resume, the flags of the applier
    and of the answerer and the fields of the job other than the paths of
    its generated files. *)
Definition stable {W X} (f : state W -> X) : Prop :=
  forall s s',
    answers_json s = answers_json s' ->
    resume_path s = resume_path s' ->
    current_job s = current_job s' ->
    gpt_answerer s = gpt_answerer s' ->
    link (job s) = link (job s') ->
    title (job s) = title (job s') ->
    description (job s) = description (job s') ->
    recruiter_link (job s) = recruiter_link (job s') ->
    f s = f s'.

(** What an attempt is given: the answer store, the configured resume and
    the identity of the job. *)
Definition settings {W} (s : state W)
  : store_file * option string * string * string :=
  (answers_json s, resume_path s, link (job s), title (job s)).

(** What the steps before the form record about the job: its
    description, its recruiter, and that it is the current job of the
    applier and of the answerer. *)
Definition job_record {W} (s : state W)
  : option string * option string * bool * bool :=
  (description (job s), recruiter_link (job s), current_job s,
   gpt_current_job (gpt_answerer s)).

(** The calls by which a resume is generated and written. *)
Definition is_generation (ev : event) : bool :=
  match ev with
  | EvPdfBase64 | EvOpenXb _ | EvFileWrite _ => true
  | _ => false
  end.

Definition no_generation (ev : event) : bool := negb (is_generation ev).

(** From a state that satisfies [P], [m] only appends [allowed] events to
    the log and ends in a state that satisfies [P]. *)
Definition emits_under {W A} (P : state W -> Prop) (allowed : event -> bool)
  (m : M W A) : Prop :=
  forall s r s',
    P s -> m s = (r, s') ->
    (exists added, log s' = (log s ++ added)%list /\
                   forallb allowed added = true) /\
    P s'.

(** An exception after which the resume generator is asked again: a
    status 429, or a message that names a rate limit. *)
Definition retriable (e : exn) : bool :=
  match e with
  | HTTPStatusError status _ _ => (status =? 429)%Z
  | _ => Text.str_in "RateLimitError" (exn_str e)
  end.

(** The words of a piece of text, as [str.split()] gives them, on
    characters. *)
Definition words_of_chars (l : chars) : list chars :=
  filter (fun w => match w with [] => false | _ => true end)
         (Path.split_by isspace l).

(** A word: not empty, and free of white space. *)
Definition is_word (w : chars) : Prop :=
  w <> [] /\ forallb (fun c => negb (isspace c)) w = true.

(** The characters of the line built from [words] by appending each one
    followed by a space. *)
Definition spaced (words : list string) : chars :=
  List.concat (map (fun w => list_ascii_of_string w ++ [space])%list words).

(** The steps of the locator whose exceptions it lets through. *)
Definition locator_step_raises {W} (E : Env W) (e : exn) (s' : state W)
  : Prop :=
  (exists s0, Applier.check_for_premium_redirect E s0 = (Raise e, s')) \/
  (exists s0, Applier._scroll_page E s0 = (Raise e, s')) \/
  (exists s0, driver_refresh E s0 = (Raise e, s')) \/
  (exists s0, driver_page_source E s0 = (Raise e, s')).

End Spec.

(* ===================================================================== *)
(** * Properties of the text normalisation *)
(* ===================================================================== *)

Module TextFacts.

Import Text Spec.

Lemma lower_char_idem (c : ascii) : lower_char (lower_char c) = lower_char c.
Proof. destruct c as [[] [] [] [] [] [] [] []]; reflexivity. Qed.

Lemma clean_not_newline c : clean c = true -> Ascii.eqb c newline = false.
Proof. destruct c as [[] [] [] [] [] [] [] []]; cbv; congruence. Qed.

Lemma clean_not_cr c : clean c = true -> Ascii.eqb c carriage_return = false.
Proof. destruct c as [[] [] [] [] [] [] [] []]; cbv; congruence. Qed.

Section Strip.
Variable p : ascii -> bool.

Lemma lstrip_by_suffix (l : chars) :
  exists pre, l = pre ++ lstrip_by p l.
Proof.
  induction l as [|c l IH]; simpl.
  - exists []. reflexivity.
  - destruct (p c).
    + destruct IH as [pre IH]. exists (c :: pre). simpl. congruence.
    + exists []. reflexivity.
Qed.

Lemma lstrip_by_idem (l : chars) :
  lstrip_by p (lstrip_by p l) = lstrip_by p l.
Proof.
  induction l as [|c l IH]; simpl; [reflexivity|].
  destruct (p c) eqn:Hc; [exact IH|]. simpl. rewrite Hc. reflexivity.
Qed.

Lemma lstrip_by_length (l : chars) :
  lstrip_by p l = l \/ List.length (lstrip_by p l) < List.length l.
Proof.
  destruct (lstrip_by_suffix l) as [[|c pre] H].
  - left. simpl in H. congruence.
  - right. rewrite H at 2. rewrite length_app. simpl. lia.
Qed.

Lemma lstrip_by_Forall (P : ascii -> Prop) (l : chars) :
  Forall P l -> Forall P (lstrip_by p l).
Proof.
  intros H. destruct (lstrip_by_suffix l) as [pre E].
  rewrite E in H. apply Forall_app in H. tauto.
Qed.

Lemma rstrip_by_idem (l : chars) :
  rstrip_by p (rstrip_by p l) = rstrip_by p l.
Proof.
  unfold rstrip_by. rewrite rev_involutive, lstrip_by_idem. reflexivity.
Qed.

Lemma rstrip_by_length (l : chars) :
  rstrip_by p l = l \/ List.length (rstrip_by p l) < List.length l.
Proof.
  unfold rstrip_by. destruct (lstrip_by_length (rev l)) as [H|H].
  - left. rewrite H. apply rev_involutive.
  - right. rewrite length_rev in *. exact H.
Qed.

Lemma rstrip_by_Forall (P : ascii -> Prop) (l : chars) :
  Forall P l -> Forall P (rstrip_by p l).
Proof.
  intros H. unfold rstrip_by. apply Forall_rev, lstrip_by_Forall, Forall_rev.
  exact H.
Qed.

End Strip.

Lemma strip_length (l : chars) :
  strip l = l \/ List.length (strip l) < List.length l.
Proof.
  unfold strip.
  destruct (lstrip_by_length isspace l) as [H1|H1];
    destruct (rstrip_by_length isspace (lstrip_by isspace l)) as [H2|H2].
  - left. congruence.
  - right. rewrite H1 in H2 at 2. exact H2.
  - right. rewrite H2. exact H1.
  - right. lia.
Qed.

Lemma filter_Forall_id (f : ascii -> bool) (l : chars) :
  Forall (fun c => f c = true) l -> filter f l = l.
Proof.
  induction 1 as [|c l Hc _ IH]; simpl; [reflexivity|].
  rewrite Hc, IH. reflexivity.
Qed.

Lemma filter_Forall_keep (P : ascii -> Prop) (f : ascii -> bool) (l : chars) :
  Forall P l -> Forall P (filter f l).
Proof.
  induction 1 as [|c l Hc _ IH]; simpl; [constructor|].
  destruct (f c); [constructor|]; assumption.
Qed.

Lemma filter_Forall_both (P : ascii -> Prop) (f : ascii -> bool) (l : chars) :
  Forall P l -> Forall (fun c => P c /\ f c = true) (filter f l).
Proof.
  induction 1 as [|c l Hc _ IH]; simpl; [constructor|].
  destruct (f c) eqn:E; [constructor; auto|]; assumption.
Qed.

Lemma map_Forall_id (f : ascii -> ascii) (l : chars) :
  Forall (fun c => f c = c) l -> map f l = l.
Proof.
  induction 1 as [|c l Hc _ IH]; simpl; [reflexivity|].
  rewrite Hc, IH. reflexivity.
Qed.

(** Every character of a normalised text is [clean]. *)
Lemma sanitize_chars_clean (s : chars) :
  Forall (fun c => clean c = true) (sanitize_chars s).
Proof.
  unfold sanitize_chars, rstrip_char, remove_char, re_sub_control.
  apply rstrip_by_Forall.
  set (t3 := filter (fun x => negb (is_control x)) _).
  assert (H3 : Forall (fun c => clean c = true) t3).
  { subst t3.
    eapply Forall_impl;
      [|apply filter_Forall_both, filter_Forall_both, filter_Forall_both].
    - intros c [[[H1 H2] H4] H5]. unfold clean.
      rewrite H2, H4, H5. rewrite (proj2 (Ascii.eqb_eq _ _) H1). reflexivity.
    - unfold strip. apply rstrip_by_Forall, lstrip_by_Forall.
      unfold lower. apply Forall_map, Forall_forall. intros c _.
      apply lower_char_idem. }
  assert (E4 : replace_char newline space t3 = t3).
  { unfold replace_char. apply map_Forall_id.
    eapply Forall_impl; [|exact H3].
    intros c Hc. simpl. rewrite (clean_not_newline _ Hc). reflexivity. }
  rewrite E4. apply filter_Forall_keep. exact H3.
Qed.

Lemma clean_parts c :
  clean c = true ->
  lower_char c = c /\ Ascii.eqb c quote = false /\
  Ascii.eqb c backslash = false /\ is_control c = false.
Proof.
  unfold clean. intros H.
  repeat (apply andb_prop in H; destruct H as [H ?]).
  apply Ascii.eqb_eq in H.
  repeat match goal with
         | X : negb _ = true |- _ => apply negb_true_iff in X
         end.
  auto.
Qed.

(** On a clean text, only the two strips of [sanitize_chars] can act. *)
Lemma sanitize_chars_on_clean (r : chars) :
  Forall (fun c => clean c = true) r ->
  sanitize_chars r = rstrip_char comma (strip r).
Proof.
  intros H. unfold sanitize_chars.
  assert (El : lower r = r).
  { unfold lower. apply map_Forall_id. eapply Forall_impl; [|exact H].
    intros c Hc. apply (clean_parts _ Hc). }
  rewrite El.
  assert (Hs : Forall (fun c => clean c = true) (strip r)).
  { unfold strip. apply rstrip_by_Forall, lstrip_by_Forall, H. }
  set (t := strip r) in *.
  assert (E1 : remove_char quote t = t).
  { apply filter_Forall_id. eapply Forall_impl; [|exact Hs].
    intros c Hc. simpl. destruct (clean_parts _ Hc) as (_ & -> & _).
    reflexivity. }
  rewrite E1.
  assert (E2 : remove_char backslash t = t).
  { apply filter_Forall_id. eapply Forall_impl; [|exact Hs].
    intros c Hc. simpl. destruct (clean_parts _ Hc) as (_ & _ & -> & _).
    reflexivity. }
  rewrite E2.
  assert (E3 : re_sub_control t = t).
  { apply filter_Forall_id. eapply Forall_impl; [|exact Hs].
    intros c Hc. simpl. destruct (clean_parts _ Hc) as (_ & _ & _ & ->).
    reflexivity. }
  rewrite E3.
  assert (E4 : replace_char newline space t = t).
  { apply map_Forall_id. eapply Forall_impl; [|exact Hs].
    intros c Hc. simpl. rewrite (clean_not_newline _ Hc). reflexivity. }
  rewrite E4.
  assert (E5 : remove_char carriage_return t = t).
  { apply filter_Forall_id. eapply Forall_impl; [|exact Hs].
    intros c Hc. simpl. rewrite (clean_not_cr _ Hc). reflexivity. }
  rewrite E5. reflexivity.
Qed.

Lemma sanitize_chars_rstrip (s : chars) :
  rstrip_char comma (sanitize_chars s) = sanitize_chars s.
Proof. unfold sanitize_chars, rstrip_char. apply rstrip_by_idem. Qed.

(** Normalising a normalised text again changes it exactly when it has
    white space at an end. *)
Lemma sanitize_chars_twice (s : chars) :
  sanitize_chars (sanitize_chars s) = sanitize_chars s <->
  strip (sanitize_chars s) = sanitize_chars s.
Proof.
  rewrite (sanitize_chars_on_clean (sanitize_chars_clean s)).
  set (r := sanitize_chars s). split.
  - intros H. destruct (strip_length r) as [E|L]; [exact E|].
    exfalso.
    assert (List.length (rstrip_char comma (strip r)) <= List.length (strip r)).
    { unfold rstrip_char.
      destruct (rstrip_by_length (Ascii.eqb comma) (strip r)) as [->|]; lia. }
    rewrite H in *. lia.
  - intros ->. apply sanitize_chars_rstrip.
Qed.

Lemma string_of_list_ascii_inj (a b : list ascii) :
  string_of_list_ascii a = string_of_list_ascii b -> a = b.
Proof.
  intros H. apply (f_equal list_ascii_of_string) in H.
  rewrite !list_ascii_of_string_of_list_ascii in H. exact H.
Qed.

End TextFacts.

(* ===================================================================== *)
(** * Normalisation of question texts *)
(* ===================================================================== *)

Module Sanitize.

Import Text.
Local Open Scope string_scope.

(** C5, as stated: normalising twice is the same as normalising once.
    It fails on the question text [a ,]: the first pass strips white
    space before it removes the trailing comma and leaves [a ] (with a
    trailing blank), which the second pass strips to [a]. *)
Lemma sanitize_text_not_idempotent :
  _sanitize_text (_sanitize_text "a ,") <> _sanitize_text "a ,".
Proof. vm_compute. discriminate. Qed.

(** C5, amended: for every question text [s],
    [normalize(normalize(s)) == normalize(s)] holds exactly when
    [normalize(s)] has no white space at either end. *)
Theorem sanitize_text_idempotent_iff (s : string) :
  _sanitize_text (_sanitize_text s) = _sanitize_text s <->
  Path.str_strip (_sanitize_text s) = _sanitize_text s.
Proof.
  unfold _sanitize_text, Path.str_strip.
  rewrite !list_ascii_of_string_of_list_ascii.
  split; intros H.
  - f_equal. apply TextFacts.sanitize_chars_twice.
    apply TextFacts.string_of_list_ascii_inj. exact H.
  - f_equal. apply TextFacts.sanitize_chars_twice.
    apply TextFacts.string_of_list_ascii_inj. exact H.
Qed.

Lemma sanitize_text_idempotent_witness :
  _sanitize_text (_sanitize_text "  What is your NAME?,, ") =
  _sanitize_text "  What is your NAME?,, ".
Proof.
  apply (proj2 (sanitize_text_idempotent_iff "  What is your NAME?,, ")).
  reflexivity.
Defined.

End Sanitize.

(* ===================================================================== *)
(** * The answer store *)
(* ===================================================================== *)

Module AnswerStore.

Import Py World Applier Spec.
Local Open Scope string_scope.

(** C4, as stated: the loader returns a list for every content of the
    file.  It does not when the file holds well-formed JSON that is not a
    list (here the empty object): the [ValueError] the loader raises for
    it is not a [JSONDecodeError], and the outer handler re-raises it as
    an [Exception]. *)
Lemma load_raises_on_json_object :
  fst (@_load_questions_from_json nat
         (Scenario.start (Some (Decoded (JObject []))))) =
  Raise (Reraised (output_file_error_prefix "loading") format_error).
Proof. reflexivity. Qed.

(** C4, amended: the loader returns the empty list when the file is
    absent or its text is not JSON, and the stored list when the file
    holds a JSON list; in every other case (well-formed JSON that is not
    a list, bytes that are not text) an [Exception] escapes it.  The
    state is left as it was. *)
Theorem load_questions_cases (W : Type) (s : state W) :
  snd (_load_questions_from_json s) = s /\
  match stored_items (answers_json s) with
  | Some items => fst (_load_questions_from_json s) = Ok items
  | None =>
      exists cause,
        fst (_load_questions_from_json s) =
        Raise (Reraised (output_file_error_prefix "loading") cause)
  end.
Proof.
  unfold _load_questions_from_json, load_list, try_except, bind, get_state,
    lift, open_read, json_load.
  destruct (answers_json s) as [[| |data]|]; simpl; auto.
  - split; [reflexivity|]. eexists. reflexivity.
  - destruct data; simpl; split; try reflexivity; eexists; reflexivity.
Qed.

(** C3, as stated: the append is skipped when an entry with an equivalent
    normalised question is already stored.  The saver never looks: saving
    the question [A] into a store that holds the question [a] leaves two
    entries keyed [a]. *)
Lemma save_appends_duplicate :
  answers_json
    (snd (@_save_questions_to_json nat (record "A" "yes" "radio")
            (Scenario.start
               (Some (Decoded (JList [JObject (record "a" "no" "radio")])))))) =
  Some (Decoded (JList [JObject (record "a" "no" "radio");
                        JObject (record "a" "yes" "radio")])).
Proof. reflexivity. Qed.

(** C3, amended: when a newly produced answer is saved, its question is
    replaced by its normalised text and the record is appended to the
    list the store holds (the empty list for an absent or undecodable
    file), whether or not an entry with the same normalised question is
    already there. *)
Theorem save_appends_normalized (W : Type) (s : state W)
  (question_data : list (string * json)) (question : string)
  (items : list json) :
  dict_get "question" question_data = Some (JStr question) ->
  stored_items (answers_json s) = Some items ->
  fst (_save_questions_to_json question_data s) = Ok tt /\
  answers_json (snd (_save_questions_to_json question_data s)) =
    Some (Decoded (JList (items ++
      [JObject (dict_set "question" (JStr (Text._sanitize_text question))
                         question_data)]))).
Proof.
  intros Hq Hs.
  unfold _save_questions_to_json, sanitize_question, load_list, try_except,
    bind, get_state, lift, open_read, json_load, set_answers_json, stored_items
    in *.
  rewrite Hq. simpl.
  destruct (answers_json s) as [[| |data]|]; simpl in *;
    try discriminate; try (injection Hs as <-; auto).
  destruct data; try discriminate. injection Hs as <-. simpl. auto.
Qed.

Lemma save_appends_normalized_witness :
  fst (@_save_questions_to_json nat (record " Years of Experience?," "5" "numeric")
         (Scenario.start None)) = Ok tt /\
  answers_json
    (snd (@_save_questions_to_json nat
            (record " Years of Experience?," "5" "numeric")
            (Scenario.start None))) =
  Some (Decoded (JList ([] ++
    [JObject (dict_set "question"
                (JStr (Text._sanitize_text " Years of Experience?,"))
                (record " Years of Experience?," "5" "numeric"))]))).
Proof.
  apply (@save_appends_normalized nat (Scenario.start None)
           (record " Years of Experience?," "5" "numeric")
           " Years of Experience?," []); reflexivity.
Defined.

End AnswerStore.

(* ===================================================================== *)
(** * Reasoning about runs: what a method adds to the log *)
(* ===================================================================== *)

Unset Implicit Arguments.

Module Runs.

Import Py World Spec.
Local Open Scope py_scope.

Section Emits.
Context {W : Type}.
Variable allowed : event -> bool.

Lemma emits_nothing {A} (m : M W A) :
  (forall s, log (snd (m s)) = log s) -> emits_only allowed m.
Proof.
  intros H s r s' E. exists []. specialize (H s). rewrite E in H. simpl in H.
  rewrite app_nil_r. auto.
Qed.

Lemma emits_ret {A} (a : A) : emits_only allowed (@ret W A a).
Proof. apply emits_nothing. reflexivity. Qed.

Lemma emits_raise {A} (e : exn) : emits_only allowed (@raise W A e).
Proof. apply emits_nothing. reflexivity. Qed.

Lemma emits_out_of_fuel {A} : emits_only allowed (@out_of_fuel W A).
Proof. apply emits_nothing. reflexivity. Qed.

Lemma emits_get_state : emits_only allowed (@get_state W).
Proof. apply emits_nothing. reflexivity. Qed.

Lemma emits_bind {A B} (m : M W A) (k : A -> M W B) :
  emits_only allowed m -> (forall a, emits_only allowed (k a)) -> emits_only allowed (bind m k).
Proof.
  intros Hm Hk s r s' E. unfold bind in E.
  destruct (m s) as [[a|e|] s1] eqn:E1.
  - destruct (Hm _ _ _ E1) as (d1 & L1 & F1).
    destruct (Hk a _ _ _ E) as (d2 & L2 & F2).
    exists (d1 ++ d2)%list. rewrite L2, L1, app_assoc, forallb_app, F1, F2.
    auto.
  - inversion E; subst. eauto.
  - inversion E; subst. eauto.
Qed.

Lemma emits_try {A} (body : M W A) (handler : exn -> M W A) :
  emits_only allowed body -> (forall e, emits_only allowed (handler e)) ->
  emits_only allowed (try_except body handler).
Proof.
  intros Hm Hk s r s' E. unfold try_except in E.
  destruct (body s) as [[a|e|] s1] eqn:E1.
  - inversion E; subst. eauto.
  - destruct (Hm _ _ _ E1) as (d1 & L1 & F1).
    destruct (Hk e _ _ _ E) as (d2 & L2 & F2).
    exists (d1 ++ d2)%list. rewrite L2, L1, app_assoc, forallb_app, F1, F2.
    auto.
  - inversion E; subst. eauto.
Qed.

Lemma emits_call {A} (ev : event) (f : W -> reply A * W) :
  allowed ev = true -> emits_only allowed (call ev f).
Proof.
  intros Ha s r s' E. unfold call in E.
  destruct (f (world s)) as [[e|a] w]; inversion E; subst; simpl;
    exists [ev]; simpl; rewrite Ha; auto.
Qed.

Lemma emits_pure_call {A} (ev : event) (f : W -> A * W) :
  allowed ev = true -> emits_only allowed (pure_call ev f).
Proof. intros Ha. unfold pure_call. apply emits_call, Ha. Qed.

Lemma emits_for_each {A} (xs : list A) (body : A -> M W unit) :
  (forall x, emits_only allowed (body x)) -> emits_only allowed (for_each xs body).
Proof.
  intros Hb. induction xs as [|x xs IH]; simpl.
  - apply emits_ret.
  - apply emits_bind; auto.
Qed.

End Emits.

Section EmitsEnv.
Context {W : Type} (E : Env W).
Variable allowed : event -> bool.

Lemma emits_time_time : emits_only allowed (time_time E).
Proof.
  apply emits_nothing. intros s. unfold time_time.
  destruct (time E (world s)). reflexivity.
Qed.

Lemma emits_update_job f : emits_only allowed (@update_job W f).
Proof. apply emits_nothing. reflexivity. Qed.

Lemma emits_set_current_job : emits_only allowed (@set_current_job W).
Proof. apply emits_nothing. reflexivity. Qed.

Lemma emits_set_answers_json f : emits_only allowed (@set_answers_json W f).
Proof. apply emits_nothing. reflexivity. Qed.

Lemma emits_update_gpt f : emits_only allowed (@update_gpt W f).
Proof. apply emits_nothing. reflexivity. Qed.

Lemma emits_lift {A} (r : exn + A) : emits_only allowed (@Applier.lift W A r).
Proof. destruct r; [apply emits_raise | apply emits_ret]. Qed.

Lemma emits_random_choice {A} (options : list A) :
  allowed EvRandom = true -> emits_only allowed (random_choice E options).
Proof.
  intros Ha. destruct options; simpl.
  - apply emits_raise.
  - apply emits_bind; [apply emits_pure_call, Ha|]. intros. apply emits_ret.
Qed.

End EmitsEnv.

(** Weakening, and what [emits_only] gives for a filter of the log. *)
Lemma emits_weaken {W A} (a b : event -> bool) (m : M W A) :
  (forall ev, a ev = true -> b ev = true) ->
  emits_only a m -> emits_only b m.
Proof.
  intros Hab Hm s r s' E. destruct (Hm _ _ _ E) as (d & L & F).
  exists d. split; [exact L|].
  rewrite forallb_forall in *. auto.
Qed.

Lemma filter_none (p a : event -> bool) (l : list event) :
  (forall ev, a ev = true -> p ev = false) ->
  forallb a l = true -> filter p l = [].
Proof.
  intros H F. induction l as [|x l IH]; simpl in *; [reflexivity|].
  apply andb_prop in F. destruct F as [Fx Fl].
  rewrite (H _ Fx). auto.
Qed.

End Runs.
(* ===================================================================== *)
(** * RedirectGuard *)
(* ===================================================================== *)

Module RedirectGuard.

Import Py World Applier Spec.
Local Open Scope string_scope.

Section Guard.
Context {W : Type} (E : Env W).

(** The loop while the location keeps matching: it uses up its attempts. *)
Lemma premium_loop_stuck (n : nat) :
  forall s,
    stuck E (link (job s)) n (world s) ->
    exists s',
      premium_loop E n (current_url E (world s)) s =
        (Ok (current_url E (world s')), s') /\
      on_interstitial E (world s') = true /\
      job s' = job s /\
      log s' = (log s ++ List.concat
                  (repeat [EvGet (link (job s)); EvCurrentUrl] n))%list.
Proof.
  induction n as [|n IH]; intros s H; simpl in H.
  - destruct H as [Hm _]. exists s. simpl.
    unfold on_interstitial in Hm. rewrite Hm, app_nil_r. auto.
  - destruct H as [Hm (w' & Hg & Hs)]. simpl.
    unfold on_interstitial in Hm. rewrite Hm.
    unfold bind, get_state, driver_get, driver_current_url, pure_call, call.
    rewrite Hg. simpl.
    match goal with
    | |- context [premium_loop E n _ ?s2] =>
        destruct (IH s2) as (s' & R & M' & J & L); [exact Hs|]
    end.
    simpl in *. exists s'. rewrite R. repeat split; auto.
    rewrite L, <- !app_assoc. reflexivity.
Qed.

(** The loop when the location stops matching at the [k]-th re-check. *)
Lemma premium_loop_released (k : nat) :
  forall n s,
    k <= n ->
    released E (link (job s)) k (world s) ->
    exists s',
      premium_loop E n (current_url E (world s)) s =
        (Ok (current_url E (world s')), s') /\
      on_interstitial E (world s') = false /\
      job s' = job s /\
      log s' = (log s ++ List.concat
                  (repeat [EvGet (link (job s)); EvCurrentUrl] k))%list.
Proof.
  induction k as [|k IH]; intros n s Hk H; simpl in H.
  - exists s. unfold on_interstitial in H.
    destruct n; simpl; rewrite H, app_nil_r; auto.
  - destruct H as [Hm (w' & Hg & Hs)].
    destruct n as [|n]; [lia|]. simpl.
    unfold on_interstitial in Hm. rewrite Hm.
    unfold bind, get_state, driver_get, driver_current_url, pure_call, call.
    rewrite Hg. simpl.
    match goal with
    | |- context [premium_loop E n _ ?s2] =>
        destruct (IH n s2) as (s' & R & M' & J & L); [lia|exact Hs|]
    end.
    simpl in *. exists s'. rewrite R. repeat split; auto.
    rewrite L, <- !app_assoc. reflexivity.
Qed.

(** C6: when the location matches the interstitial pattern at the first
    check and again after each of three re-navigations to the job's link,
    the guard raises its terminal error after exactly three navigations,
    at the third failed re-check; when the location stops matching at the
    first check or at an earlier re-check ([k <= 3] navigations made), the
    guard returns without raising. *)
Theorem redirect_guard_cap (s : state W) :
  (stuck E (link (job s)) 3 (world s) ->
   exists s',
     check_for_premium_redirect E s = (Raise redirect_error, s') /\
     log s' = (log s ++ guard_trace (link (job s)) 3)%list) /\
  (forall k,
     k <= 3 ->
     released E (link (job s)) k (world s) ->
     exists s',
       check_for_premium_redirect E s = (Ok tt, s') /\
       log s' = (log s ++ guard_trace (link (job s)) k)%list).
Proof.
  unfold check_for_premium_redirect, check_for_premium_redirect_with,
    guard_trace.
  unfold bind, driver_current_url, pure_call, call.
  cbv beta iota zeta.
  split.
  - intros H.
    match goal with
    | |- context [premium_loop E 3 _ ?s1] =>
        destruct (premium_loop_stuck 3 s1 H) as (s' & R & M' & J & L)
    end.
    simpl in *. exists s'. rewrite R.
    unfold on_interstitial in M'. rewrite M'. split; [reflexivity|].
    rewrite L, <- app_assoc. reflexivity.
  - intros k Hk H.
    match goal with
    | |- context [premium_loop E 3 _ ?s1] =>
        destruct (@premium_loop_released k 3 s1 Hk H) as (s' & R & M' & J & L)
    end.
    simpl in *. exists s'. rewrite R.
    unfold on_interstitial in M'. rewrite M'. split; [reflexivity|].
    rewrite L, <- app_assoc. reflexivity.
Qed.

End Guard.

(** The theorem at work: a wall that never lets go, and one that lets go
    after two navigations. *)
Lemma redirect_guard_cap_witness :
  (exists s',
     check_for_premium_redirect (Scenario.env_of Scenario.premium_wall)
       (Scenario.start None) = (Raise redirect_error, s') /\
     log s' = ([] ++ guard_trace Scenario.job_url 3)%list) /\
  (exists s',
     check_for_premium_redirect (Scenario.env_of (Scenario.premium_until 2))
       (Scenario.start None) = (Ok tt, s') /\
     log s' = ([] ++ guard_trace Scenario.job_url 2)%list).
Proof.
  split.
  - apply (proj1 (redirect_guard_cap (Scenario.env_of Scenario.premium_wall)
                    (Scenario.start None))).
    simpl. repeat (split; [reflexivity|eexists; split; [reflexivity|]]).
    simpl. auto.
  - apply (proj2 (redirect_guard_cap
                    (Scenario.env_of (Scenario.premium_until 2))
                    (Scenario.start None)) 2); [lia|].
    simpl. repeat (split; [reflexivity|eexists; split; [reflexivity|]]).
    reflexivity.
Defined.

End RedirectGuard.

(* ===================================================================== *)
(** * What each method adds to the log *)
(* ===================================================================== *)

Module Traces.

Import Py World Applier Spec Runs.
Local Open Scope string_scope.

Lemma adds_refl {W} p (s : state W) : adds p s s [].
Proof. exists []. rewrite app_nil_r. auto. Qed.

Lemma adds_trans {W} p (s s1 s2 : state W) l1 l2 :
  adds p s s1 l1 -> adds p s1 s2 l2 -> adds p s s2 (l1 ++ l2).
Proof.
  intros (d1 & L1 & F1) (d2 & L2 & F2). exists (d1 ++ d2)%list.
  rewrite L2, L1, app_assoc, filter_app, F1, F2. auto.
Qed.

(** Quiet steps leave what the filter keeps as it is. *)
Lemma adds_same {W} p (s s1 s2 : state W) :
  adds p s s1 [] -> adds p s1 s2 [] -> adds p s s2 [].
Proof. intros A1 A2. apply (adds_trans _ _ _ _ _ _ A1 A2). Qed.

Lemma adds_two {W} p (s s1 s2 : state W) l :
  adds p s s1 l -> adds p s1 s2 [] -> adds p s s2 l.
Proof.
  intros A1 A2. rewrite <- (app_nil_r l).
  apply (adds_trans _ _ _ _ _ _ A1 A2).
Qed.

Lemma adds_emits {W A} (p a : event -> bool) (m : M W A) s r s' :
  emits_only a m ->
  (forall ev, a ev = true -> p ev = false) ->
  m s = (r, s') -> adds p s s' [].
Proof.
  intros Hm Hp E. destruct (Hm _ _ _ E) as (d & L & F).
  exists d. split; [exact L|]. eapply filter_none; eauto.
Qed.

Lemma adds_call {W A} p (ev : event) (f : W -> reply A * W) s r s' :
  call ev f s = (r, s') -> adds p s s' (if p ev then [ev] else []).
Proof.
  unfold call. intros E.
  destruct (f (world s)) as [[e|a] w]; inversion E; subst;
    exists [ev]; simpl; destruct (p ev); auto.
Qed.

(** A [try] that starts with a marked call and goes on quietly. *)
Lemma adds_try_call_then {W A B} (p a : event -> bool) ev
  (f : W -> reply A * W) (k : A -> M W B) (h : exn -> M W B) s r s' :
  p ev = true ->
  (forall ev', a ev' = true -> p ev' = false) ->
  (forall x, emits_only a (k x)) ->
  (forall e, emits_only a (h e)) ->
  try_except (bind (call ev f) k) h s = (r, s') ->
  adds p s s' [ev].
Proof.
  intros Hev Hq Hk Hh. unfold try_except, bind.
  destruct (call ev f s) as [[x|e|] s1] eqn:C;
    pose proof (adds_call p _ _ _ _ _ C) as A1; rewrite Hev in A1.
  - destruct (k x s1) as [[o|e|] s2] eqn:K;
      pose proof (adds_emits _ _ _ _ _ _ (Hk x) Hq K) as A2; intros R.
    + inversion R; subst. apply (adds_two _ _ _ _ _ A1 A2).
    + pose proof (adds_emits _ _ _ _ _ _ (Hh e) Hq R) as A3.
      apply (adds_two _ _ _ _ _ A1 (adds_same _ _ _ _ A2 A3)).
    + inversion R; subst. apply (adds_two _ _ _ _ _ A1 A2).
  - intros R. pose proof (adds_emits _ _ _ _ _ _ (Hh e) Hq R) as A3.
    apply (adds_two _ _ _ _ _ A1 A3).
  - intros R. inversion R; subst. exact A1.
Qed.

(** The calls are unfolded to [call] before their events are examined. *)
Ltac unfold_calls :=
  unfold driver_current_url, driver_get, driver_refresh, driver_page_source,
    driver_execute_script, driver_find_element, driver_find_elements,
    element_find_element, element_find_elements, WebDriverWait_until,
    actions_click, element_click, element_text, element_get_attribute,
    element_send_keys, generator_pdf_base64, post, os_makedirs,
    open_exclusive, write_bytes, reportlab_render, os_getsize.

Create HintDb emits discriminated.
#[export] Hint Extern 1 (_ = true) => reflexivity : emits.

Ltac side := solve [ reflexivity | intros; reflexivity | auto with emits ].

Ltac emits_step :=
  first
    [ solve [auto 3 with emits]
    | apply emits_ret | apply emits_raise | apply emits_out_of_fuel
    | apply emits_get_state | apply emits_time_time | apply emits_update_job
    | apply emits_set_current_job | apply emits_set_answers_json
    | apply emits_update_gpt | apply emits_lift
    | apply emits_bind; [|intros ?]
    | apply emits_try; [|intros ?]
    | apply emits_for_each; intros ?
    | apply emits_pure_call; side
    | apply emits_call; side
    | apply emits_random_choice; side
    | match goal with
      | |- emits_only _ (if ?x then _ else _) => destruct x
      | |- emits_only _ (match ?x with _ => _ end) => destruct x
      | |- emits_only _ (let _ := _ in _) => cbv zeta
      end ].

Ltac emits := unfold_calls; repeat emits_step.

Section Generic.
Context {W : Type} (E : Env W).
Variable a : event -> bool.

Hypothesis a_url : a EvCurrentUrl = true.
Hypothesis a_get : forall u, a (EvGet u) = true.
Hypothesis a_script : forall script args, a (EvExecuteScript script args) = true.
Hypothesis a_html : a (EvFindElement None TAG_NAME "html") = true.
Hypothesis a_visible : forall e, a (EvWaitUntil (visibility_of e)) = true.
Hypothesis a_clickable :
  forall e, a (EvWaitUntil (element_to_be_clickable e)) = true.
Hypothesis a_search : forall m, a (search_event m) = true.

Lemma emits_premium_loop n url : emits_only a (premium_loop E n url).
Proof.
  revert url. induction n as [|n IH]; intros url; simpl;
    destruct (Text.str_in premium url); emits.
Qed.

Lemma emits_guard : emits_only a (check_for_premium_redirect E).
Proof.
  unfold check_for_premium_redirect, check_for_premium_redirect_with.
  emits. apply emits_premium_loop.
Qed.
#[local] Hint Resolve emits_guard : emits.

Lemma emits_as_int v : emits_only a (@as_int W v).
Proof. unfold as_int. emits. Qed.
#[local] Hint Resolve emits_as_int : emits.

Lemma emits_scroll_slow el step reverse :
  emits_only a (scroll_slow E el step reverse).
Proof. unfold scroll_slow. emits. Qed.
#[local] Hint Resolve emits_scroll_slow : emits.

Lemma emits_scroll : emits_only a (_scroll_page E).
Proof. unfold _scroll_page. emits. Qed.
#[local] Hint Resolve emits_scroll : emits.

Lemma emits_first_clickable buttons :
  emits_only a (first_clickable E buttons).
Proof. induction buttons as [|b rest IH]; simpl; emits. Qed.
#[local] Hint Resolve emits_first_clickable : emits.

Lemma emits_try_method m : emits_only a (try_method E m).
Proof.
  unfold try_method. apply emits_try; [|intros; apply emits_ret].
  pose proof (a_search m) as Hm. unfold search_event in Hm.
  destruct (method_find_elements m); emits.
Qed.
#[local] Hint Resolve emits_try_method : emits.

Lemma emits_try_methods ms : emits_only a (try_methods E ms).
Proof.
  induction ms as [|m rest IH]; simpl; emits.
Qed.
#[local] Hint Resolve emits_try_methods : emits.

End Generic.

#[export] Hint Resolve emits_premium_loop emits_guard emits_as_int
  emits_scroll_slow emits_scroll emits_first_clickable emits_try_method
  emits_try_methods : emits.

Section FuelFree.
Context {W : Type} (E : Env W).

Lemma free_ret {A} (a : A) : fuel_free (@ret W A a).
Proof. intros s. discriminate. Qed.

Lemma free_raise {A} e : fuel_free (@raise W A e).
Proof. intros s. discriminate. Qed.

Lemma free_get_state : fuel_free (@get_state W).
Proof. intros s. discriminate. Qed.

Lemma free_bind {A B} (m : M W A) (k : A -> M W B) :
  fuel_free m -> (forall x, fuel_free (k x)) -> fuel_free (bind m k).
Proof.
  intros Hm Hk s. unfold bind. specialize (Hm s).
  destruct (m s) as [[x|e|] s1]; simpl in *;
    [apply Hk | discriminate | congruence].
Qed.

Lemma free_try {A} (body : M W A) (handler : exn -> M W A) :
  fuel_free body -> (forall e, fuel_free (handler e)) ->
  fuel_free (try_except body handler).
Proof.
  intros Hm Hk s. unfold try_except. specialize (Hm s).
  destruct (body s) as [[x|e|] s1]; simpl in *;
    [discriminate | apply Hk | congruence].
Qed.

Lemma free_call {A} ev (f : W -> reply A * W) : fuel_free (call ev f).
Proof.
  intros s. unfold call. destruct (f (world s)) as [[e|x] w]; discriminate.
Qed.

Lemma free_pure_call {A} ev (f : W -> A * W) : fuel_free (pure_call ev f).
Proof. apply free_call. Qed.

Lemma free_for_each {A} (xs : list A) (body : A -> M W unit) :
  (forall x, fuel_free (body x)) -> fuel_free (for_each xs body).
Proof.
  intros Hb. induction xs as [|x xs IH]; simpl.
  - apply free_ret.
  - apply free_bind; auto.
Qed.

Lemma free_time_time : fuel_free (time_time E).
Proof. intros s. unfold time_time. destruct (time E (world s)). discriminate. Qed.

Lemma free_update_job f : fuel_free (@update_job W f).
Proof. intros s. discriminate. Qed.

Lemma free_set_current_job : fuel_free (@set_current_job W).
Proof. intros s. discriminate. Qed.

Lemma free_set_answers_json f : fuel_free (@set_answers_json W f).
Proof. intros s. discriminate. Qed.

Lemma free_update_gpt f : fuel_free (@update_gpt W f).
Proof. intros s. discriminate. Qed.

Lemma free_lift {A} (r : exn + A) : fuel_free (@lift W A r).
Proof. destruct r; [apply free_raise | apply free_ret]. Qed.

Lemma free_random_choice {A} (options : list A) :
  fuel_free (random_choice E options).
Proof.
  destruct options; simpl.
  - apply free_raise.
  - apply free_bind; [apply free_pure_call|]. intros. apply free_ret.
Qed.

(** What a [fuel_free] method gives: a value or an exception. *)
Lemma free_cases {A} (m : M W A) (s : state W) :
  fuel_free m ->
  (exists a s', m s = (Ok a, s')) \/ (exists e s', m s = (Raise e, s')).
Proof.
  intros H. specialize (H s). destruct (m s) as [[a|e|] s'] eqn:R; simpl in H.
  - left. eauto.
  - right. eauto.
  - congruence.
Qed.

(** A [try] whose handler returns a value, whatever the exception, always
    returns. *)
Lemma try_always_returns {A} (body : M W A) (handler : exn -> M W A) s :
  fuel_free body ->
  (forall e s1, exists a s', handler e s1 = (Ok a, s')) ->
  exists a s', try_except body handler s = (Ok a, s').
Proof.
  intros Hb Hh. unfold try_except.
  destruct (free_cases body s Hb) as [(a & s' & R)|(e & s' & R)]; rewrite R.
  - eauto.
  - apply Hh.
Qed.

End FuelFree.

Create HintDb fuel discriminated.

Ltac free_step :=
  first
    [ solve [auto 2 with fuel]
    | apply free_ret | apply free_raise | apply free_get_state
    | apply free_time_time | apply free_update_job
    | apply free_set_current_job | apply free_set_answers_json
    | apply free_update_gpt | apply free_lift
    | apply free_bind; [|intros ?]
    | apply free_try; [|intros ?]
    | apply free_for_each; intros ?
    | apply free_pure_call
    | apply free_call
    | apply free_random_choice
    | match goal with
      | |- fuel_free (if ?x then _ else _) => destruct x
      | |- fuel_free (match ?x with _ => _ end) => destruct x
      | |- fuel_free (let _ := _ in _) => cbv zeta
      end ].

Ltac fuelfree := unfold_calls; repeat free_step.

Section FuelFreeMethods.
Context {W : Type} (E : Env W).

Lemma free_premium_loop n url : fuel_free (premium_loop E n url).
Proof.
  revert url. induction n as [|n IH]; intros url; simpl;
    destruct (Text.str_in premium url); fuelfree.
Qed.
#[local] Hint Resolve free_premium_loop : fuel.

Lemma free_guard : fuel_free (check_for_premium_redirect E).
Proof.
  unfold check_for_premium_redirect, check_for_premium_redirect_with.
  fuelfree.
Qed.
#[local] Hint Resolve free_guard : fuel.

Lemma free_as_int v : fuel_free (@as_int W v).
Proof. unfold as_int. fuelfree. Qed.
#[local] Hint Resolve free_as_int : fuel.

Lemma free_scroll_slow el step reverse :
  fuel_free (scroll_slow E el step reverse).
Proof. unfold scroll_slow. fuelfree. Qed.
#[local] Hint Resolve free_scroll_slow : fuel.

Lemma free_scroll : fuel_free (_scroll_page E).
Proof. unfold _scroll_page. fuelfree. Qed.
#[local] Hint Resolve free_scroll : fuel.

Lemma free_first_clickable buttons : fuel_free (first_clickable E buttons).
Proof. induction buttons as [|b rest IH]; simpl; fuelfree. Qed.
#[local] Hint Resolve free_first_clickable : fuel.

Lemma free_try_method m : fuel_free (try_method E m).
Proof. unfold try_method. fuelfree. Qed.
#[local] Hint Resolve free_try_method : fuel.

Lemma free_try_methods ms : fuel_free (try_methods E ms).
Proof. induction ms as [|m rest IH]; simpl; fuelfree. Qed.

End FuelFreeMethods.

#[export] Hint Resolve free_premium_loop free_guard free_as_int
  free_scroll_slow free_scroll free_first_clickable free_try_method
  free_try_methods : fuel.

End Traces.

(* ===================================================================== *)
(** * ElementLocator *)
(* ===================================================================== *)

Module Locator.

Import Py World Applier Spec Runs Traces.
Local Open Scope string_scope.

Lemma quiet_not_landmark ev : quiet ev = true -> landmark ev = false.
Proof. unfold quiet. apply negb_true_iff. Qed.

Lemma quiet_not_refresh ev : not_refresh ev = true -> is_refresh ev = false.
Proof. apply negb_true_iff. Qed.

Section Rounds.
Context {W : Type} (E : Env W).

Lemma passes_run {A} (m : M W A) (a : A) :
  (forall s, fst (m s) = Ok a) -> forall s, exists s', m s = (Ok a, s').
Proof.
  intros H s. specialize (H s). destruct (m s) as [r s']. simpl in H.
  subst. eauto.
Qed.

(** A search method shows in the log by its first call, once. *)
Lemma try_method_adds m s r s' :
  try_method E m s = (r, s') -> adds landmark s s' [search_event m].
Proof.
  unfold try_method, search_event.
  destruct (method_find_elements m);
    [unfold driver_find_elements | unfold WebDriverWait_until at 1];
    apply adds_try_call_then with (a := quiet);
    try reflexivity; try apply quiet_not_landmark; intros; emits.
Qed.

(** A round in which no method yields shows every method, in order. *)
Lemma try_methods_adds ms :
  forall s s',
    try_methods E ms s = (Ok None, s') ->
    adds landmark s s' (map search_event ms).
Proof.
  induction ms as [|m rest IH]; intros s s' R; simpl in *.
  - inversion R; subst. apply adds_refl.
  - unfold bind in R. destruct (try_method E m s) as [[[b|]|e|] s1] eqn:T;
      try discriminate.
    apply (adds_trans _ _ _ _ _ _ (try_method_adds _ _ _ _ T) (IH _ _ R)).
Qed.

Section NoTrigger.
Hypothesis Hguard : guard_passes E.
Hypothesis Hscroll : scroll_passes E.
Hypothesis Hreload : reload_passes E.
Hypothesis Hnever : never_yields E.

Lemma guard_step s :
  exists s', check_for_premium_redirect E s = (Ok tt, s') /\
             adds landmark s s' [].
Proof.
  destruct (passes_run _ _ Hguard s) as [s' R]. exists s'. split; [exact R|].
  eapply adds_emits with (a := quiet); [| apply quiet_not_landmark | exact R].
  apply emits_guard; reflexivity.
Qed.

Lemma scroll_step s :
  exists s', _scroll_page E s = (Ok tt, s') /\ adds landmark s s' [].
Proof.
  destruct (passes_run _ _ Hscroll s) as [s' R]. exists s'. split; [exact R|].
  eapply adds_emits with (a := quiet); [| apply quiet_not_landmark | exact R].
  apply emits_scroll; reflexivity.
Qed.

Lemma methods_step s :
  exists s', try_methods E search_methods s = (Ok None, s') /\
             adds landmark s s' (map search_event search_methods).
Proof.
  destruct (passes_run _ _ Hnever s) as [s' R]. exists s'. split; [exact R|].
  apply try_methods_adds, R.
Qed.

Lemma refresh_step s :
  exists s', driver_refresh E s = (Ok tt, s') /\ adds landmark s s' [EvRefresh].
Proof.
  destruct Hreload as [Hr _]. specialize (Hr (world s)).
  unfold driver_refresh.
  destruct (call EvRefresh (refresh E) s) as [r s'] eqn:C.
  pose proof (adds_call landmark _ _ _ _ _ C) as A1. simpl in A1.
  unfold call in C. destruct (refresh E (world s)) as [[e|[]] w];
    simpl in Hr; try discriminate.
  inversion C; subst. eauto.
Qed.

Lemma report_step s :
  exists s', @report_not_found W E elem s = (Raise not_found_error, s') /\
             adds landmark s s' [EvPageSource].
Proof.
  destruct Hreload as [_ Hp]. destruct (Hp (world s)) as [markup Hm].
  unfold report_not_found, bind, driver_page_source.
  destruct (call EvPageSource (page_source E) s) as [r s'] eqn:C.
  pose proof (adds_call landmark _ _ _ _ _ C) as A1. simpl in A1.
  unfold call in C. destruct (page_source E (world s)) as [[e|src] w];
    simpl in Hm; try discriminate.
  inversion C; subst. unfold raise. eauto.
Qed.

(** One iteration of the [while] loop when no method yields. *)
Lemma failed_round rounds attempt s :
  attempt < 2 ->
  exists s',
    find_loop E (S rounds) attempt s = find_loop E rounds (attempt + 1) s' /\
    adds landmark s s'
      (map search_event search_methods ++
       (if (attempt =? 0)%nat then [EvRefresh] else [])).
Proof.
  intros Ha. cbn [find_loop]. rewrite (proj2 (Nat.ltb_lt attempt 2) Ha).
  unfold bind at 1.
  destruct (guard_step s) as (s1 & R1 & A1). rewrite R1.
  unfold bind at 1.
  destruct (scroll_step s1) as (s2 & R2 & A2). rewrite R2.
  unfold bind at 1.
  destruct (methods_step s2) as (s3 & R3 & A3). rewrite R3.
  unfold bind at 1.
  destruct (guard_step s3) as (s4 & R4 & A4). rewrite R4.
  unfold bind at 1.
  pose proof (adds_two _ _ _ _ _
                (adds_trans _ _ _ _ _ _ (adds_same _ _ _ _ A1 A2) A3) A4) as A.
  simpl app in A.
  destruct (attempt =? 0)%nat.
  - destruct (refresh_step s4) as (s5 & R5 & A5). rewrite R5.
    exists s5. split; [reflexivity|]. apply (adds_trans _ _ _ _ _ _ A A5).
  - exists s4. split; [reflexivity|]. rewrite app_nil_r. exact A.
Qed.

Lemma not_found_after_two_rounds s :
  exists s',
    _find_easy_apply_button E s = (Raise not_found_error, s') /\
    adds landmark s s'
      (map search_event search_methods ++ [EvRefresh] ++
       map search_event search_methods ++ [EvPageSource]).
Proof.
  unfold _find_easy_apply_button.
  destruct (failed_round 1 0 s) as (s1 & R1 & A1); [lia|].
  destruct (failed_round 0 1 s1) as (s2 & R2 & A2); [lia|].
  destruct (report_step s2) as (s3 & R3 & A3).
  simpl Nat.add in R1, R2. exists s3. split.
  - rewrite R1, R2. exact R3.
  - pose proof (adds_trans _ _ _ _ _ _
                  (adds_trans _ _ _ _ _ _ A1 A2) A3) as A.
    simpl in A. simpl. exact A.
Qed.

End NoTrigger.

(** A match in the first round: the button is returned and the page is
    not reloaded. *)
Lemma found_in_first_round s s1 s2 s3 button :
  check_for_premium_redirect E s = (Ok tt, s1) ->
  _scroll_page E s1 = (Ok tt, s2) ->
  try_methods E search_methods s2 = (Ok (Some button), s3) ->
  _find_easy_apply_button E s = (Ok button, s3) /\
  adds is_refresh s s3 [].
Proof.
  intros R1 R2 R3. split.
  - unfold _find_easy_apply_button. cbn [find_loop].
    change (0 <? 2)%nat with true. unfold bind. cbv beta iota.
    rewrite R1, R2, R3. reflexivity.
  - apply adds_same with (s1 := s2); [apply adds_same with (s1 := s1)|].
    + eapply adds_emits with (a := not_refresh);
        [| apply quiet_not_refresh | exact R1].
      apply emits_guard; reflexivity.
    + eapply adds_emits with (a := not_refresh);
        [| apply quiet_not_refresh | exact R2].
      apply emits_scroll; reflexivity.
    + eapply adds_emits with (a := not_refresh);
        [| apply quiet_not_refresh | exact R3].
      apply emits_try_methods; try reflexivity.
      intros m. unfold search_event. destruct (method_find_elements m);
        reflexivity.
Qed.

(** C8: on a page where no search method ever yields the apply button
    (and the guard, the scroll, the reload and the capture of the markup go
    through), the locator runs the ordered list of methods, reloads the
    page once, runs the ordered list once more and only then raises its
    not-found error; when a method yields a button in the first round, the
    button is returned and the page is not reloaded. *)
Theorem locator_two_rounds_one_reload (s : state W) :
  (guard_passes E -> scroll_passes E -> reload_passes E -> never_yields E ->
   exists s',
     _find_easy_apply_button E s = (Raise not_found_error, s') /\
     adds landmark s s'
       (map search_event search_methods ++ [EvRefresh] ++
        map search_event search_methods ++ [EvPageSource])) /\
  (forall s1 s2 s3 button,
     check_for_premium_redirect E s = (Ok tt, s1) ->
     _scroll_page E s1 = (Ok tt, s2) ->
     try_methods E search_methods s2 = (Ok (Some button), s3) ->
     _find_easy_apply_button E s = (Ok button, s3) /\
     adds is_refresh s s3 []).
Proof.
  split.
  - intros. apply not_found_after_two_rounds; assumption.
  - intros. eapply found_in_first_round; eassumption.
Qed.

End Rounds.

(** The theorem at work: the blank page, on which nothing is found, and
    the page whose button the second search method finds. *)
Lemma locator_two_rounds_one_reload_witness :
  (exists s',
     _find_easy_apply_button (Scenario.env_of Scenario.blank_page)
       (Scenario.start None) = (Raise not_found_error, s') /\
     adds landmark (Scenario.start None) s'
       (map search_event search_methods ++ [EvRefresh] ++
        map search_event search_methods ++ [EvPageSource])) /\
  (exists s3,
     _find_easy_apply_button (Scenario.env_of Scenario.second_method_page)
       (Scenario.start None) = (Ok 7, s3) /\
     adds is_refresh (Scenario.start None) s3 []).
Proof.
  split.
  - apply (proj1 (locator_two_rounds_one_reload
                    (Scenario.env_of Scenario.blank_page)
                    (Scenario.start None))).
    + intros s. reflexivity.
    + intros s. reflexivity.
    + split; intros w; [reflexivity | eexists; reflexivity].
    + intros s. reflexivity.
  - set (E := Scenario.env_of Scenario.second_method_page).
    set (s1 := snd (check_for_premium_redirect E (Scenario.start None))).
    set (s2 := snd (_scroll_page E s1)).
    exists (snd (try_methods E search_methods s2)).
    apply (proj2 (locator_two_rounds_one_reload E (Scenario.start None))
                 s1 s2); vm_compute; reflexivity.
Defined.

End Locator.

(* ===================================================================== *)
(** * The recruiter link *)
(* ===================================================================== *)

Module Recruiter.

Import Py World Applier Spec.
Local Open Scope string_scope.

Section Recruiter.
Context {W : Type} (E : Env W).

(** C10: [_get_job_recruiter] never raises.  In every state it returns a
    string, and the string is empty unless the hiring-team heading was
    located, a recruiter anchor was found under it and its [href] could
    be read, in which case it is that [href]. *)
Theorem recruiter_link_total (s : state W) :
  exists recruiter s',
    _get_job_recruiter E s = (Ok recruiter, s') /\
    (recruiter = "" \/
     exists heading w1 first rest w2 w3,
       wait_until E
         (presence_of_element_located XPATH
            ("//h2[text()=" ++ dq ++ "Meet the hiring team" ++ dq ++ "]"))
         (world s) = (inr heading, w1) /\
       find_elements E (Some heading) XPATH
         (".//following::a[contains(@href, " ++ dq ++ "linkedin.com/in/" ++
          dq ++ ")]") w1 = (inr (first :: rest), w2) /\
       get_attribute E first "href" w2 = (inr recruiter, w3)).
Proof.
  unfold _get_job_recruiter, try_except, bind, WebDriverWait_until,
    element_find_elements, element_get_attribute, call.
  cbv beta iota zeta.
  destruct (wait_until E _ (world s)) as [[e|heading] w1] eqn:H1;
    cbv beta iota zeta; [unfold ret; eauto|].
  cbn [world].
  destruct (find_elements E (Some heading) XPATH _ w1)
    as [[e|[|first rest]] w2] eqn:H2;
    cbv beta iota zeta; [unfold ret; eauto | unfold ret; eauto |].
  cbn [world].
  destruct (get_attribute E first "href" w2) as [[e|href] w3] eqn:H3;
    cbv beta iota zeta; [unfold ret; eauto|].
  unfold ret. do 2 eexists. split; [reflexivity|].
  right. exists heading, w1, first, rest, w2, w3. auto.
Qed.

End Recruiter.

End Recruiter.

(* ===================================================================== *)
(** * Choosing among options *)
(* ===================================================================== *)

Module Answerer.

Import Py World Spec Runs Traces.
Local Open Scope string_scope.

Section Options.
Context {W : Type} (E : Env W).

Lemma random_choice_in (options : list string) (s : state W) :
  options <> [] ->
  exists a s', random_choice E options s = (Ok a, s') /\ In a options.
Proof.
  intros Hne. destruct options as [|first rest]; [congruence|].
  unfold random_choice, bind, pure_call, call.
  destruct (randbelow E (List.length (first :: rest)) (world s)) as [i w].
  cbv beta iota zeta. do 2 eexists. split; [reflexivity|].
  apply nth_In. apply Nat.mod_upper_bound. simpl. discriminate.
Qed.

Lemma in_options_In (x : json) (options : list string) (a : string) :
  GPT.in_options x options = Some a -> In a options.
Proof.
  unfold GPT.in_options. destruct x; try discriminate.
  destruct (existsb (String.eqb s) options) eqn:Ex; [|discriminate].
  intros H. injection H as <-.
  apply existsb_exists in Ex. destruct Ex as (o & Ho & Heq).
  apply String.eqb_eq in Heq. subst. exact Ho.
Qed.

Lemma ask_fuel_free self q options :
  fuel_free (GPT.ask_for_option E self q options).
Proof.
  unfold GPT.ask_for_option, GPT.raise_for_status, GPT.response_json,
    GPT.data_get.
  fuelfree.
Qed.

Lemma ask_in self q options s a s' :
  options <> [] ->
  GPT.ask_for_option E self q options s = (Ok a, s') -> In a options.
Proof.
  intros Hne. unfold GPT.ask_for_option, bind. cbv zeta.
  destruct (post E _ _ s) as [[response|e|] s1]; try discriminate.
  unfold GPT.raise_for_status.
  destruct (_ && _)%bool; [discriminate|]. unfold ret at 1.
  unfold GPT.response_json.
  destruct (body response) as [data|]; [|discriminate]. unfold ret at 1.
  unfold GPT.data_get.
  destruct data; try discriminate. unfold ret at 1.
  destruct (GPT.in_options _ options) as [a'|] eqn:Hin.
  - intros H. inversion H; subst. eapply in_options_In, Hin.
  - intros H. destruct (random_choice_in options s1 Hne) as (b & s2 & R & Hb).
    rewrite R in H. inversion H; subst. exact Hb.
Qed.

(** C9: for every non-empty list of options,
    [answer_question_from_options] returns an element of the list --
    whatever the endpoint answers, whether the request fails or not, and
    however the answerer is configured; it does not raise. *)
Theorem answer_from_options_in_options (question_text : string)
  (options : list string) (s : state W) :
  options <> [] ->
  exists a s',
    GPT.answer_question_from_options E question_text options s = (Ok a, s') /\
    In a options.
Proof.
  intros Hne. unfold GPT.answer_question_from_options, bind, get_state.
  destruct (_ =? "gemini"); [|apply random_choice_in, Hne].
  destruct (_ =? ""); [apply random_choice_in, Hne|].
  unfold try_except.
  destruct (GPT.ask_for_option E (gpt_answerer s) question_text options s)
    as [[a|e|] s1] eqn:R.
  - exists a, s1. split; [reflexivity|]. eapply ask_in; eauto.
  - apply random_choice_in, Hne.
  - exfalso. apply (ask_fuel_free (gpt_answerer s) question_text options s).
    rewrite R. reflexivity.
Qed.

End Options.

(** The theorem at work: the endpoint answers outside the options. *)
Lemma answer_from_options_witness :
  exists a s',
    GPT.answer_question_from_options
      (Scenario.env_of
         (Scenario.with_llm
            (inr {| status_code := 200;
                    body := Some (JObject [("answer", JStr "Maybe")]) |})
            Scenario.blank_page))
      "Are you authorized to work?" ["Yes"; "No"] (Scenario.start None) =
    (Ok a, s') /\
    In a ["Yes"; "No"].
Proof.
  apply (answer_from_options_in_options _ _ ["Yes"; "No"]). discriminate.
Defined.

End Answerer.

(* ===================================================================== *)
(** * Validation of generated artifacts *)
(* ===================================================================== *)

Module Upload.

Import Py World Applier Spec.
Local Open Scope string_scope.

Lemma extension_allowed_spec (file_path : string) :
  extension_allowed file_path = true <-> has_allowed_extension file_path.
Proof.
  unfold extension_allowed, has_allowed_extension, allowed_extensions.
  destruct (Path.splitext file_path) as [root ext]. simpl snd.
  rewrite existsb_exists. split.
  - intros (x & Hx & Heq). apply String.eqb_eq in Heq. subst. exact Hx.
  - intros H. eexists. split; [exact H|]. apply String.eqb_refl.
Qed.

(** ** The paths the applier generates *)

Lemma list_ascii_of_string_app (a b : string) :
  list_ascii_of_string (a ++ b) =
  (list_ascii_of_string a ++ list_ascii_of_string b)%list.
Proof. induction a as [|c a IH]; simpl; [reflexivity|]. rewrite IH. reflexivity. Qed.

Lemma rfind_from_app c (s1 s2 : Text.chars) i last :
  Path.rfind_from c (s1 ++ s2)%list i last =
  Path.rfind_from c s2 (i + Z.of_nat (List.length s1))
                  (Path.rfind_from c s1 i last).
Proof.
  revert i last. induction s1 as [|x s1 IH]; intros i last; simpl.
  - rewrite Z.add_0_r. reflexivity.
  - rewrite IH. f_equal. lia.
Qed.

Lemma rfind_from_absent c (s : Text.chars) i last :
  Forall (fun x => Ascii.eqb x c = false) s ->
  Path.rfind_from c s i last = last.
Proof.
  intros H. revert i. induction H as [|x s Hx _ IH]; intros i; simpl.
  - reflexivity.
  - rewrite Hx. apply IH.
Qed.

(** The last occurrence of [c] is the one after which there is none. *)
Lemma rfind_last c (a b : Text.chars) :
  Forall (fun x => Ascii.eqb x c = false) b ->
  Path.rfind c (a ++ c :: b)%list = Z.of_nat (List.length a).
Proof.
  intros H. unfold Path.rfind. rewrite rfind_from_app. simpl.
  rewrite Ascii.eqb_refl. apply rfind_from_absent, H.
Qed.

Lemma skipn_length_app (a r : Text.chars) :
  skipn (List.length a) (a ++ r)%list = r.
Proof. induction a; simpl; auto. Qed.

Lemma firstn_length_app (a r : Text.chars) :
  firstn (List.length a) (a ++ r)%list = a.
Proof. induction a; simpl; [destruct r; reflexivity|]. f_equal. auto. Qed.

Lemma plain_not_dot c : plain_char c = true -> Ascii.eqb c "."%char = false.
Proof.
  unfold plain_char. intros H. apply andb_prop in H. destruct H as [H _].
  apply negb_true_iff, H.
Qed.

Lemma plain_not_slash c : plain_char c = true -> Ascii.eqb c "/"%char = false.
Proof.
  unfold plain_char. intros H. apply andb_prop in H. destruct H as [_ H].
  apply negb_true_iff, H.
Qed.

(** A path made of a directory, a separator, and a name of plain
    characters followed by [.pdf] has the extension [.pdf]. *)
Lemma splitext_pdf (dir : Text.chars) (c : ascii) (name : Text.chars) :
  Forall (fun x => plain_char x = true) (c :: name) ->
  Path.splitext_chars
    (dir ++ "/"%char :: (c :: name) ++ list_ascii_of_string ".pdf")%list =
  ((dir ++ "/"%char :: c :: name)%list, list_ascii_of_string ".pdf").
Proof.
  intros Hp. unfold Path.splitext_chars.
  assert (Hsep : Path.rfind "/"%char
                   (dir ++ "/"%char :: (c :: name) ++
                    list_ascii_of_string ".pdf")%list =
                 Z.of_nat (List.length dir)).
  { apply rfind_last. apply Forall_app. split.
    - eapply Forall_impl; [|exact Hp]. apply plain_not_slash.
    - repeat constructor. }
  assert (Hdot : Path.rfind "."%char
                   (dir ++ "/"%char :: (c :: name) ++
                    list_ascii_of_string ".pdf")%list =
                 Z.of_nat (List.length (dir ++ "/"%char :: c :: name)%list)).
  { replace (dir ++ "/"%char :: (c :: name) ++ list_ascii_of_string ".pdf")%list
      with ((dir ++ "/"%char :: c :: name) ++
            "."%char :: list_ascii_of_string "pdf")%list
      by (rewrite <- app_assoc; reflexivity).
    apply rfind_last. repeat constructor. }
  rewrite Hsep, Hdot. rewrite length_app. cbn [List.length].
  destruct (Z.gtb_spec (Z.of_nat (List.length dir + S (S (List.length name))))
              (Z.of_nat (List.length dir))); [|lia].
  replace (Z.to_nat (Z.of_nat (List.length dir + S (S (List.length name)))))
    with (List.length (dir ++ "/"%char :: c :: name)%list)
    by (rewrite length_app; cbn [List.length]; lia).
  unfold Path.slice.
  replace (Z.to_nat (Z.of_nat (List.length dir) + 1))
    with (List.length (dir ++ ["/"%char])%list) by (rewrite length_app; simpl; lia).
  replace (dir ++ "/"%char :: (c :: name) ++ list_ascii_of_string ".pdf")%list
    with ((dir ++ ["/"%char]) ++ (c :: name) ++ list_ascii_of_string ".pdf")%list
    by (rewrite <- app_assoc; reflexivity).
  rewrite skipn_length_app.
  replace (Z.to_nat
             (Z.of_nat (List.length dir + S (S (List.length name))) -
              (Z.of_nat (List.length dir) + 1)))
    with (S (List.length name)) by lia.
  cbn [app firstn existsb].
  inversion Hp as [|? ? Hc Hn]; subst. rewrite (plain_not_dot _ Hc).
  cbn [negb orb].
  replace ((dir ++ ["/"%char]) ++ c :: name ++ list_ascii_of_string ".pdf")%list
    with ((dir ++ "/"%char :: c :: name) ++ list_ascii_of_string ".pdf")%list
    by (rewrite <- !app_assoc; reflexivity).
  rewrite skipn_length_app, firstn_length_app. reflexivity.
Qed.

Lemma uint_plain (d : Decimal.uint) :
  Forall (fun x => plain_char x = true)
         (list_ascii_of_string (NilEmpty.string_of_uint d)).
Proof. induction d; simpl; constructor; auto. Qed.

Lemma str_of_int_plain (z : Z) :
  Forall (fun x => plain_char x = true) (list_ascii_of_string (str_of_int z)).
Proof.
  unfold str_of_int, NilZero.string_of_int, NilZero.string_of_uint.
  destruct (Z.to_int z) as [d|d].
  - destruct d; try apply uint_plain. repeat constructor.
  - simpl. constructor; [reflexivity|].
    destruct d; try apply uint_plain. repeat constructor.
Qed.

(** The paths of the generated resume and cover letter pass the format
    check, whatever the time stamp. *)
Lemma generated_path_allowed (stem : string) (c : ascii) (rest : string)
  (timestamp : Z) :
  stem = String c rest ->
  Forall (fun x => plain_char x = true) (list_ascii_of_string stem) ->
  has_allowed_extension
    (Path.join folder_path (stem ++ str_of_int timestamp ++ ".pdf")).
Proof.
  intros -> Hstem. unfold has_allowed_extension, Path.join, Path.splitext.
  rewrite !list_ascii_of_string_app.
  replace (list_ascii_of_string folder_path ++ list_ascii_of_string "/" ++
           list_ascii_of_string (String c rest) ++
           list_ascii_of_string (str_of_int timestamp) ++
           list_ascii_of_string ".pdf")%list
    with (list_ascii_of_string folder_path ++
          "/"%char :: (c :: list_ascii_of_string rest ++
                       list_ascii_of_string (str_of_int timestamp)) ++
          list_ascii_of_string ".pdf")%list
    by (cbn [list_ascii_of_string app]; rewrite <- app_assoc; reflexivity).
  rewrite splitext_pdf.
  - cbn [snd]. left. reflexivity.
  - cbn [list_ascii_of_string] in Hstem.
    inversion Hstem; subst. constructor; [assumption|].
    apply Forall_app. split; [assumption | apply str_of_int_plain].
Qed.

Section Validation.
Context {W : Type} (E : Env W).




Lemma create_cover_letter_path (s : state W) path s' :
  create_cover_letter E s = (Ok path, s') -> has_allowed_extension path.
Proof.
  unfold create_cover_letter, bind at 1.
  destruct (GPT.answer_question_textual_wide_range E _ s)
    as [[text|e|] s0]; try discriminate.
  unfold bind at 1.
  destruct (os_makedirs E folder_path s0) as [[[]|e|] s1]; try discriminate.
  unfold bind at 1, time_time.
  destruct (time E (world s1)) as [t w]. cbv zeta.
  unfold bind at 1.
  match goal with
  | |- context [match text with _ => _ end ?st] =>
      destruct (match text with
                | JStr txt => ret (Path.split_text_by_width (fits_width E) txt)
                | _ => raise (Exn AttributeError
                                  "object has no attribute 'split'")
                end st) as [[lines|e|] s2]; try discriminate
  end.
  unfold bind.
  destruct (reportlab_render E _ lines s2) as [[[]|e|] s3]; try discriminate.
  unfold ret. intros H. inversion H; subst.
  apply (generated_path_allowed "Cover_Letter_" "C"%char "over_Letter_" t);
    [reflexivity | repeat constructor].
Qed.

Lemma validate_valid size_message format_message file_size file_path
  (s : state W) :
  artifact_valid file_size file_path ->
  validate_artifact size_message format_message file_size file_path s =
  (Ok tt, s).
Proof.
  intros [Hs He]. unfold validate_artifact, max_file_size.
  destruct (Z.gtb_spec file_size (2 * 1024 * 1024)); [lia|].
  apply extension_allowed_spec in He. rewrite He. reflexivity.
Qed.

Lemma validate_invalid size_message format_message file_size file_path
  (s : state W) :
  ~ artifact_valid file_size file_path ->
  exists message,
    validate_artifact size_message format_message file_size file_path s =
    (Raise (Exn ValueError message), s).
Proof.
  intros Hn. unfold validate_artifact, max_file_size.
  destruct (Z.gtb_spec file_size (2 * 1024 * 1024)); [eexists; reflexivity|].
  destruct (extension_allowed file_path) eqn:He; [|eexists; reflexivity].
  exfalso. apply Hn. split; [lia|]. apply extension_allowed_spec, He.
Qed.

(** C7: a generated artifact is accepted for upload iff it is at most
    2 MiB and its extension is pdf, doc or docx; one byte over 2 MiB raises
    the artifact error ([ValueError]), so does an extension outside the
    set whatever the size, and after a violation nothing more is done: the
    method ends with the reading of the size as its last call, without
    generating again and without uploading.  This holds for the resume
    and for the cover letter. *)
Theorem artifact_validation :
  (forall size_message format_message file_size file_path (s : state W),
     (artifact_valid file_size file_path ->
      validate_artifact size_message format_message file_size file_path s =
      (Ok tt, s)) /\
     (~ artifact_valid file_size file_path ->
      exists message,
        validate_artifact size_message format_message file_size file_path s =
        (Raise (Exn ValueError message), s))) /\
  (forall size_message format_message file_path (s : state W),
     validate_artifact size_message format_message
       (2 * 1024 * 1024 + 1) file_path s =
     (Raise (Exn ValueError size_message), s)) /\
  (forall size_message format_message file_size file_path (s : state W),
     ~ has_allowed_extension file_path ->
     exists message,
       validate_artifact size_message format_message file_size file_path s =
       (Raise (Exn ValueError message), s)) /\
  (forall fuel element s file_path s1 file_size s2,
     create_resume E fuel s = (Ok file_path, s1) ->
     os_getsize E file_path s1 = (Ok file_size, s2) ->
     log s2 = (log s1 ++ [EvGetsize file_path])%list /\
     (artifact_valid file_size file_path ->
      _create_and_upload_resume E fuel element s =
      bind (element_send_keys E element (abspath E file_path))
           (fun _ => set_pdf_path (abspath E file_path)) s2) /\
     (~ artifact_valid file_size file_path ->
      exists message,
        _create_and_upload_resume E fuel element s =
        (Raise (Exn ValueError message), s2))) /\
  (forall element s file_path s1 file_size s2,
     create_cover_letter E s = (Ok file_path, s1) ->
     os_getsize E file_path s1 = (Ok file_size, s2) ->
     log s2 = (log s1 ++ [EvGetsize file_path])%list /\
     (artifact_valid file_size file_path ->
      _create_and_upload_cover_letter E element s =
      bind (element_send_keys E element (abspath E file_path))
           (fun _ => set_cover_letter_path (abspath E file_path)) s2) /\
     (~ artifact_valid file_size file_path ->
      exists message,
        _create_and_upload_cover_letter E element s =
        (Raise (Exn ValueError message), s2))).
Proof.
  split; [|split; [|split; [|split]]].
  - intros. split; [apply validate_valid | apply validate_invalid].
  - intros. reflexivity.
  - intros size_message format_message file_size file_path s Hn.
    apply validate_invalid. intros [_ He]. auto.
  - intros fuel element s file_path s1 file_size s2 Hc Hg.
    split; [|split].
    + unfold os_getsize, call in Hg.
      destruct (getsize E file_path (world s1)) as [[e|z] w];
        inversion Hg; subst; reflexivity.
    + intros Hv. unfold _create_and_upload_resume.
      unfold bind at 1. rewrite Hc. unfold bind at 1. rewrite Hg.
      unfold bind at 1. rewrite (validate_valid _ _ _ _ s2 Hv). reflexivity.
    + intros Hv. unfold _create_and_upload_resume.
      unfold bind at 1. rewrite Hc. unfold bind at 1. rewrite Hg.
      unfold bind at 1.
      destruct (validate_invalid
                  "Resume file size exceeds the maximum limit of 2 MB."
                  "Resume file format is not allowed. Only PDF, DOC, DOCX supported."
                  _ _ s2 Hv) as [message Hm].
      rewrite Hm. eauto.
  - intros element s file_path s1 file_size s2 Hc Hg.
    split; [|split].
    + unfold os_getsize, call in Hg.
      destruct (getsize E file_path (world s1)) as [[e|z] w];
        inversion Hg; subst; reflexivity.
    + intros Hv. unfold _create_and_upload_cover_letter.
      unfold bind at 1. rewrite Hc. unfold bind at 1. rewrite Hg.
      unfold bind at 1. rewrite (validate_valid _ _ _ _ s2 Hv). reflexivity.
    + intros Hv. unfold _create_and_upload_cover_letter.
      unfold bind at 1. rewrite Hc. unfold bind at 1. rewrite Hg.
      unfold bind at 1.
      destruct (validate_invalid
                  "Cover letter file size exceeds the maximum limit of 2 MB."
                  "Cover letter file format is not allowed (PDF, DOC, DOCX)."
                  _ _ s2 Hv) as [message Hm].
      rewrite Hm. eauto.
Qed.

End Validation.

(** The theorem at work: a generated resume of 2 MiB + 1 bytes is refused,
    a cover letter of exactly 2 MiB goes on to the upload. *)
Lemma artifact_validation_witness :
  (exists message s2,
     _create_and_upload_resume
       (Scenario.env_of
          (Scenario.with_size (2 * 1024 * 1024 + 1) Scenario.blank_page))
       3 4 (Scenario.start None) =
     (Raise (Exn ValueError message), s2)) /\
  (exists s2,
     _create_and_upload_cover_letter
       (Scenario.env_of
          (Scenario.with_size (2 * 1024 * 1024) Scenario.blank_page))
       4 (Scenario.start None) =
     bind (element_send_keys
             (Scenario.env_of
                (Scenario.with_size (2 * 1024 * 1024) Scenario.blank_page))
             4 "/home/user/generated_cv/Cover_Letter_1700000000.pdf")
          (fun _ => set_cover_letter_path
                      "/home/user/generated_cv/Cover_Letter_1700000000.pdf")
          s2).
Proof.
  split.
  - set (E := Scenario.env_of
                (Scenario.with_size (2 * 1024 * 1024 + 1) Scenario.blank_page)).
    set (s1 := snd (create_resume E 3 (Scenario.start None))).
    set (path := "generated_cv/CV_1700000000.pdf").
    set (s2 := snd (os_getsize E path s1)).
    destruct (proj1 (proj2 (proj2 (proj2 (artifact_validation E))))
                3 4 (Scenario.start None) path s1
                (2 * 1024 * 1024 + 1)%Z s2) as (_ & _ & H).
    + vm_compute. reflexivity.
    + vm_compute. reflexivity.
    + destruct H as [message H].
      * intros [Hsize _]. lia.
      * exists message, s2. exact H.
  - set (E := Scenario.env_of
                (Scenario.with_size (2 * 1024 * 1024) Scenario.blank_page)).
    set (s1 := snd (create_cover_letter E (Scenario.start None))).
    set (path := "generated_cv/Cover_Letter_1700000000.pdf").
    set (s2 := snd (os_getsize E path s1)).
    destruct (proj2 (proj2 (proj2 (proj2 (artifact_validation E))))
                4 (Scenario.start None) path s1
                (2 * 1024 * 1024)%Z s2) as (_ & H & _).
    + vm_compute. reflexivity.
    + vm_compute. reflexivity.
    + exists s2. apply H. split; [lia|]. vm_compute. left. reflexivity.
Defined.

End Upload.

(* ===================================================================== *)
(** * The controller: rollback and outcomes *)
(* ===================================================================== *)

Module Controller.

Import Py World Applier Spec Runs Traces.
Local Open Scope string_scope.

Lemma not_dismiss_search m : not_dismiss (search_event m) = true.
Proof. unfold search_event. destruct (method_find_elements m); reflexivity. Qed.

Lemma not_dismiss_sound ev : not_dismiss ev = true -> is_dismiss ev = false.
Proof. unfold not_dismiss. apply negb_true_iff. Qed.

#[export] Hint Resolve not_dismiss_search : emits.

Section Body.
Context {W : Type} (E : Env W).

(** Nothing but the rollback looks up the dismiss control: every other
    method only emits events that are [not_dismiss]. *)

Lemma calm_textual q :
  emits_only not_dismiss (GPT.answer_question_textual_wide_range E q).
Proof.
  unfold GPT.answer_question_textual_wide_range, GPT.raise_for_status,
    GPT.response_json, GPT.data_get.
  emits.
Qed.
#[local] Hint Resolve calm_textual : emits.

Lemma calm_validate sm fm size path :
  emits_only not_dismiss (@validate_artifact W sm fm size path).
Proof. unfold validate_artifact. emits. Qed.
#[local] Hint Resolve calm_validate : emits.

Lemma calm_time_sleep secs : emits_only not_dismiss (@time_sleep W secs).
Proof. unfold time_sleep. emits. Qed.
#[local] Hint Resolve calm_time_sleep : emits.

Lemma calm_generate_resume_once : emits_only not_dismiss (generate_resume_once E).
Proof. unfold generate_resume_once, rate_limit_handler. emits. Qed.
#[local] Hint Resolve calm_generate_resume_once : emits.

Lemma calm_generate_resume fuel : emits_only not_dismiss (generate_resume E fuel).
Proof. induction fuel as [|fuel IH]; simpl; emits. Qed.
#[local] Hint Resolve calm_generate_resume : emits.

Lemma calm_create_resume fuel : emits_only not_dismiss (create_resume E fuel).
Proof. unfold create_resume. emits. Qed.
#[local] Hint Resolve calm_create_resume : emits.

Lemma calm_upload_resume fuel el :
  emits_only not_dismiss (_create_and_upload_resume E fuel el).
Proof. unfold _create_and_upload_resume, set_pdf_path. emits. Qed.
#[local] Hint Resolve calm_upload_resume : emits.

Lemma calm_create_cover_letter : emits_only not_dismiss (create_cover_letter E).
Proof. unfold create_cover_letter. emits. Qed.
#[local] Hint Resolve calm_create_cover_letter : emits.

Lemma calm_upload_cover_letter el :
  emits_only not_dismiss (_create_and_upload_cover_letter E el).
Proof. unfold _create_and_upload_cover_letter, set_cover_letter_path. emits. Qed.
#[local] Hint Resolve calm_upload_cover_letter : emits.

Lemma calm_is_upload_field el : emits_only not_dismiss (_is_upload_field E el).
Proof. unfold _is_upload_field. emits. Qed.
#[local] Hint Resolve calm_is_upload_field : emits.

Lemma calm_handle_upload_fields fuel el :
  emits_only not_dismiss (_handle_upload_fields E fuel el).
Proof. unfold _handle_upload_fields. emits. Qed.
#[local] Hint Resolve calm_handle_upload_fields : emits.

Lemma calm_fill_additional_questions :
  emits_only not_dismiss (_fill_additional_questions E).
Proof. unfold _fill_additional_questions, _process_form_section. emits. Qed.
#[local] Hint Resolve calm_fill_additional_questions : emits.

Lemma calm_process_form_element fuel el :
  emits_only not_dismiss (_process_form_element E fuel el).
Proof. unfold _process_form_element. emits. Qed.
#[local] Hint Resolve calm_process_form_element : emits.

Lemma calm_fill_up fuel : emits_only not_dismiss (fill_up E fuel).
Proof. unfold fill_up. emits. Qed.
#[local] Hint Resolve calm_fill_up : emits.

Lemma calm_unfollow_company : emits_only not_dismiss (_unfollow_company E).
Proof. unfold _unfollow_company. emits. Qed.
#[local] Hint Resolve calm_unfollow_company : emits.

Lemma calm_collect_texts els : emits_only not_dismiss (collect_texts E els).
Proof. induction els as [|e rest IH]; simpl; emits. Qed.
#[local] Hint Resolve calm_collect_texts : emits.

Lemma calm_check_for_errors : emits_only not_dismiss (_check_for_errors E).
Proof. unfold _check_for_errors. emits. Qed.
#[local] Hint Resolve calm_check_for_errors : emits.

Lemma calm_next_or_submit : emits_only not_dismiss (_next_or_submit E).
Proof. unfold _next_or_submit. emits. Qed.
#[local] Hint Resolve calm_next_or_submit : emits.

Lemma calm_fill_application_form fuel :
  emits_only not_dismiss (_fill_application_form E fuel).
Proof. induction fuel as [|fuel IH]; simpl; emits. Qed.
#[local] Hint Resolve calm_fill_application_form : emits.

Lemma calm_get_job_description : emits_only not_dismiss (_get_job_description E).
Proof. unfold _get_job_description. emits. Qed.
#[local] Hint Resolve calm_get_job_description : emits.

Lemma calm_get_job_recruiter : emits_only not_dismiss (_get_job_recruiter E).
Proof. unfold _get_job_recruiter. emits. Qed.
#[local] Hint Resolve calm_get_job_recruiter : emits.

Lemma calm_find_loop rounds :
  forall attempt, emits_only not_dismiss (find_loop E rounds attempt).
Proof.
  induction rounds as [|rounds IH]; intros attempt; simpl;
    unfold report_not_found; emits.
Qed.
#[local] Hint Resolve calm_find_loop : emits.

Lemma calm_job_apply_guarded fuel :
  emits_only not_dismiss (job_apply_guarded E fuel).
Proof.
  unfold job_apply_guarded, _find_easy_apply_button, set_job_description,
    set_recruiter_link, GPT.set_job.
  emits.
Qed.

(** ** The rollback *)

Lemma free_discard_body :
  fuel_free
    (bind (driver_find_element E CLASS_NAME "artdeco-modal__dismiss")
       (fun dismiss =>
        bind (element_click E dismiss) (fun _ =>
        bind (driver_find_elements E CLASS_NAME
                "artdeco-modal__confirm-dialog-btn")
          (fun discard_buttons =>
           match discard_buttons with
           | first :: _ => element_click E first
           | [] => ret tt
           end)))).
Proof. fuelfree. Qed.

(** The rollback never raises. *)
Lemma discard_returns (s : state W) :
  exists s', _discard_application E s = (Ok tt, s').
Proof.
  unfold _discard_application.
  destruct (try_always_returns _ (fun _ : exn => ret tt) s free_discard_body)
    as ([] & s' & R).
  - intros e s1. exists tt, s1. reflexivity.
  - exists s'. exact R.
Qed.

(** The rollback looks up the dismiss control, once. *)
Lemma discard_adds (s : state W) r s' :
  _discard_application E s = (r, s') ->
  adds is_dismiss s s' [dismiss_event].
Proof.
  unfold _discard_application, driver_find_element.
  apply adds_try_call_then with (a := not_dismiss);
    try reflexivity; try apply not_dismiss_sound; intros; emits.
Qed.

(** When the modal can be dismissed, the rollback clicks its dismiss
    control, looks for a confirmation control and clicks the first one
    if there is any. *)
Lemma discard_trace (s : state W) dismiss w1 w2 buttons w3 :
  find_element E None CLASS_NAME "artdeco-modal__dismiss" (world s) =
    (inr dismiss, w1) ->
  click E Direct dismiss w1 = (inr tt, w2) ->
  find_elements E None CLASS_NAME "artdeco-modal__confirm-dialog-btn" w2 =
    (inr buttons, w3) ->
  log (snd (_discard_application E s)) =
    (log s ++
     [dismiss_event; EvClick Direct dismiss;
      EvFindElements None CLASS_NAME "artdeco-modal__confirm-dialog-btn"] ++
     match buttons with
     | first :: _ => [EvClick Direct first]
     | [] => []
     end)%list.
Proof.
  intros H1 H2 H3.
  unfold _discard_application, try_except, bind, driver_find_element,
    element_click, driver_find_elements, call.
  cbn [world log]. rewrite H1. cbn [world log]. rewrite H2.
  cbn [world log]. rewrite H3. cbn [world log].
  destruct buttons as [|first rest].
  - simpl. rewrite <- !app_assoc. reflexivity.
  - cbn [world log]. destruct (click E Direct first w3) as [[e|[]] w4];
      simpl; rewrite <- !app_assoc; reflexivity.
Qed.

(** [fill_up] lets no exception through: whatever is raised while a step
    is filled, an artifact error included, is logged and dropped there. *)
Lemma fill_up_swallows fuel (s : state W) :
  fst (fill_up E fuel s) = Ok tt \/ fst (fill_up E fuel s) = OutOfFuel.
Proof.
  unfold fill_up, try_except.
  match goal with
  | |- context [let (_, _) := ?b s in _] => destruct (b s) as [[[]|e|] s1]
  end; simpl; auto.
Qed.

(** ** Errors of [job_apply] *)

Lemma job_apply_raises fuel (s : state W) e s' :
  job_apply E fuel s = (Raise e, s') ->
  ((fst (driver_get E (link (job s)) s) = Raise e \/
    exists s0,
      driver_get E (link (job s)) s = (Ok tt, s0) /\
      fst (check_for_premium_redirect E s0) = Raise e) /\
   adds is_dismiss s s' []) \/
  (exists s0 s1 cause s2,
     driver_get E (link (job s)) s = (Ok tt, s0) /\
     check_for_premium_redirect E s0 = (Ok tt, s1) /\
     job_apply_guarded E fuel s1 = (Raise cause, s2) /\
     _discard_application E s2 = (Ok tt, s') /\
     e = Reraised job_apply_error_prefix cause /\
     adds is_dismiss s s' [dismiss_event]).
Proof.
  unfold job_apply, get_state. unfold bind at 1. unfold bind at 1.
  unfold try_except at 1.
  destruct (driver_get E (link (job s)) s) as [[[]|e0|] s0] eqn:G;
    try discriminate.
  - assert (A0 : adds is_dismiss s s0 []).
    { eapply adds_emits;
        [| apply not_dismiss_sound | exact G]. unfold driver_get. emits. }
    unfold bind at 1.
    destruct (check_for_premium_redirect E s0) as [[[]|e1|] s1] eqn:C;
      try discriminate.
    + assert (A1 : adds is_dismiss s0 s1 []).
      { eapply adds_emits;
          [| apply not_dismiss_sound | exact C]. emits. }
      unfold try_except.
      destruct (job_apply_guarded E fuel s1) as [[[]|cause|] s2] eqn:B;
        try discriminate.
      assert (A2 : adds is_dismiss s1 s2 []).
      { eapply adds_emits;
          [apply calm_job_apply_guarded | apply not_dismiss_sound | exact B]. }
      unfold bind.
      destruct (discard_returns s2) as [s3 D]. rewrite D.
      intros R. inversion R; subst. right.
      exists s0, s1, cause, s2. repeat split; auto.
      pose proof (discard_adds _ _ _ D) as A3.
      pose proof (adds_trans _ _ _ _ _ _
                    (adds_same _ _ _ _ (adds_same _ _ _ _ A0 A1) A2) A3) as A.
      exact A.
    + intros R. inversion R; subst. left. split.
      * right. exists s0. split; [reflexivity|]. rewrite C. reflexivity.
      * assert (A1 : adds is_dismiss s0 s' []).
        { eapply adds_emits;
            [| apply not_dismiss_sound | exact C]. emits. }
        apply (adds_same _ _ _ _ A0 A1).
  - intros R. inversion R; subst. left. split.
    + left. reflexivity.
    + eapply adds_emits;
        [| apply not_dismiss_sound | exact G]. unfold driver_get. emits.
Qed.

(** C2, as stated: every error raised during [job_apply], a redirect loop
    included, is followed by the rollback before it reaches the caller.
    On a location that stays on the interstitial page the first redirect
    check, which comes before the guarded section, raises the redirect
    error as it is, and the dismiss control is never looked up. *)
Lemma redirect_loop_without_rollback :
  fst (job_apply (Scenario.env_of Scenario.premium_wall) 1
         (Scenario.start None)) = Raise redirect_error /\
  filter is_dismiss
    (log (snd (job_apply (Scenario.env_of Scenario.premium_wall) 1
                 (Scenario.start None)))) = [].
Proof. vm_compute. split; reflexivity. Qed.

(** C2, amended: an error raised by the guarded section of [job_apply]
    (the statements after the initial navigation and the initial redirect
    check: a later redirect check, the locator, the description, the click,
    the form loop with its validation failures) is followed by the
    rollback, and the caller receives an [Exception] that carries the
    traceback of that error; the rollback looks up the dismiss control
    once, clicks it, clicks the first confirmation control if one appears,
    and never raises.  An error raised by the initial navigation or by
    the initial redirect check reaches the caller as it is, without
    rollback. *)
Theorem rollback_before_raise :
  (forall fuel (s : state W) e s',
     job_apply E fuel s = (Raise e, s') ->
     ((fst (driver_get E (link (job s)) s) = Raise e \/
       exists s0,
         driver_get E (link (job s)) s = (Ok tt, s0) /\
         fst (check_for_premium_redirect E s0) = Raise e) /\
      adds is_dismiss s s' []) \/
     (exists s0 s1 cause s2,
        driver_get E (link (job s)) s = (Ok tt, s0) /\
        check_for_premium_redirect E s0 = (Ok tt, s1) /\
        job_apply_guarded E fuel s1 = (Raise cause, s2) /\
        _discard_application E s2 = (Ok tt, s') /\
        e = Reraised job_apply_error_prefix cause /\
        adds is_dismiss s s' [dismiss_event])) /\
  (forall s : state W, exists s', _discard_application E s = (Ok tt, s')) /\
  (forall (s : state W) dismiss w1 w2 buttons w3,
     find_element E None CLASS_NAME "artdeco-modal__dismiss" (world s) =
       (inr dismiss, w1) ->
     click E Direct dismiss w1 = (inr tt, w2) ->
     find_elements E None CLASS_NAME "artdeco-modal__confirm-dialog-btn" w2 =
       (inr buttons, w3) ->
     log (snd (_discard_application E s)) =
       (log s ++
        [dismiss_event; EvClick Direct dismiss;
         EvFindElements None CLASS_NAME "artdeco-modal__confirm-dialog-btn"] ++
        match buttons with
        | first :: _ => [EvClick Direct first]
        | [] => []
        end)%list).
Proof.
  split; [|split].
  - intros. apply job_apply_raises. assumption.
  - apply discard_returns.
  - intros. eapply discard_trace; eassumption.
Qed.

(** ** The outcome when no trigger is found *)

Section NoTrigger.
Hypothesis Hnav : navigation_passes E.
Hypothesis Hscripts : scripts_pass E.
Hypothesis Hguard : guard_passes E.
Hypothesis Hscroll : scroll_passes E.
Hypothesis Hreload : reload_passes E.
Hypothesis Hnever : never_yields E.

Lemma get_step url (s : state W) :
  exists s', driver_get E url s = (Ok tt, s').
Proof.
  unfold driver_get, call. specialize (Hnav url (world s)).
  destruct (get E url (world s)) as [[e|[]] w]; simpl in Hnav;
    [discriminate|]. eauto.
Qed.

Lemma script_step script args (s : state W) :
  exists v s', driver_execute_script E script args s = (Ok v, s').
Proof.
  unfold driver_execute_script, call.
  destruct (Hscripts script args (world s)) as [v Hv].
  destruct (execute_script E script args (world s)) as [[e|v'] w];
    simpl in Hv; [discriminate|]. eauto.
Qed.

Lemma guarded_not_found fuel (s : state W) :
  exists s', job_apply_guarded E fuel s = (Raise not_found_error, s').
Proof.
  unfold job_apply_guarded.
  destruct (script_step "document.activeElement.blur();" [] s)
    as (v & s1 & R1).
  unfold bind at 1. rewrite R1.
  destruct (Locator.passes_run _ _ Hguard s1) as [s2 R2].
  unfold bind at 1. rewrite R2.
  destruct (Locator.not_found_after_two_rounds E Hguard Hscroll Hreload
              Hnever s2) as (s3 & R3 & _).
  unfold bind at 1. rewrite R3. eauto.
Qed.

Lemma job_apply_not_found fuel (s : state W) :
  exists s',
    job_apply E fuel s =
      (Raise (Reraised job_apply_error_prefix not_found_error), s') /\
    adds is_dismiss s s' [dismiss_event].
Proof.
  assert (R : exists s',
             job_apply E fuel s =
             (Raise (Reraised job_apply_error_prefix not_found_error), s')).
  { unfold job_apply, get_state. unfold bind at 1. unfold bind at 1.
    unfold try_except at 1.
    destruct (get_step (link (job s)) s) as [s0 R0]. rewrite R0.
    destruct (Locator.passes_run _ _ Hguard s0) as [s1 R1].
    unfold bind at 1. rewrite R1.
    destruct (guarded_not_found fuel s1) as [s2 R2].
    unfold try_except. rewrite R2.
    destruct (discard_returns s2) as [s3 R3].
    unfold bind. rewrite R3. unfold raise. eauto. }
  destruct R as [s' R]. exists s'. split; [exact R|].
  destruct (job_apply_raises _ _ _ _ R)
    as [[[H|(s0 & H0 & H)] _]|(s0 & s1 & cause & s2 & _ & _ & _ & _ & _ & A)].
  - destruct (get_step (link (job s)) s) as [s0 R0]. rewrite R0 in H.
    discriminate.
  - rewrite (Hguard s0) in H. discriminate.
  - exact A.
Qed.

End NoTrigger.

(** C1, amended: the wrapper [apply_to_job] hands on what [job_apply]
    gives -- a normal return (Applied) or an exception (Failed); and on a
    page where no search method ever yields the apply trigger (navigation,
    scripts, the redirect guard, the scroll and the reload going through)
    the attempt ends, whatever the bound on iterations, by raising the
    exception that wraps the locator's not-found error, after one
    rollback: its outcome is Failed, not a third outcome. *)
Theorem no_trigger_is_failed (fuel : nat) (s : state W) :
  apply_to_job E fuel s = job_apply E fuel s /\
  (navigation_passes E -> scripts_pass E -> guard_passes E ->
   scroll_passes E -> reload_passes E -> never_yields E ->
   exists s',
     apply_to_job E fuel s =
       (Raise (Reraised job_apply_error_prefix not_found_error), s') /\
     workflow_outcome (fst (apply_to_job E fuel s)) = Some Failed /\
     adds is_dismiss s s' [dismiss_event]).
Proof.
  assert (Heq : apply_to_job E fuel s = job_apply E fuel s).
  { unfold apply_to_job, try_except.
    destruct (job_apply E fuel s) as [[[]|e|] s']; reflexivity. }
  split; [exact Heq|].
  intros Hnav Hscripts Hguard Hscroll Hreload Hnever.
  destruct (job_apply_not_found Hnav Hscripts Hguard Hscroll Hreload Hnever
              fuel s) as (s' & R & A).
  exists s'. rewrite Heq, R. auto.
Qed.

End Body.

(** C1, as stated: when no apply trigger is found the outcome is Skipped.
    On the blank page the locator finds no trigger, and the attempt ends
    with an exception, that is as Failed. *)
Lemma no_trigger_outcome_is_not_skipped :
  fst (_find_easy_apply_button (Scenario.env_of Scenario.blank_page)
         (Scenario.start None)) = Raise not_found_error /\
  fst (apply_to_job (Scenario.env_of Scenario.blank_page) 1
         (Scenario.start None)) =
    Raise (Reraised job_apply_error_prefix not_found_error) /\
  workflow_outcome
    (fst (apply_to_job (Scenario.env_of Scenario.blank_page) 1
            (Scenario.start None))) <> Some Skipped.
Proof. vm_compute. repeat split; discriminate. Qed.

Lemma no_trigger_is_failed_witness :
  exists s',
    apply_to_job (Scenario.env_of Scenario.modal_page) 4
      (Scenario.start None) =
      (Raise (Reraised job_apply_error_prefix not_found_error), s') /\
    workflow_outcome
      (fst (apply_to_job (Scenario.env_of Scenario.modal_page) 4
              (Scenario.start None))) = Some Failed /\
    adds is_dismiss (Scenario.start None) s' [dismiss_event].
Proof.
  apply (proj2 (no_trigger_is_failed (Scenario.env_of Scenario.modal_page)
                  4 (Scenario.start None))).
  - intros url w. reflexivity.
  - intros script args w. eexists. reflexivity.
  - intros s. reflexivity.
  - intros s. reflexivity.
  - split; intros w; [reflexivity | eexists; reflexivity].
  - intros s. reflexivity.
Defined.

(** The theorem on errors at work: on the page with the open modal the
    locator fails inside the guarded section, and the rollback dismisses
    the modal and confirms. *)
Lemma rollback_before_raise_witness :
  (exists s0 s1 cause s2,
     driver_get (Scenario.env_of Scenario.modal_page) Scenario.job_url
       (Scenario.start None) = (Ok tt, s0) /\
     check_for_premium_redirect (Scenario.env_of Scenario.modal_page) s0 =
       (Ok tt, s1) /\
     job_apply_guarded (Scenario.env_of Scenario.modal_page) 4 s1 =
       (Raise cause, s2) /\
     _discard_application (Scenario.env_of Scenario.modal_page) s2 =
       (Ok tt,
        snd (job_apply (Scenario.env_of Scenario.modal_page) 4
               (Scenario.start None))) /\
     Reraised job_apply_error_prefix not_found_error =
       Reraised job_apply_error_prefix cause /\
     adds is_dismiss (Scenario.start None)
       (snd (job_apply (Scenario.env_of Scenario.modal_page) 4
               (Scenario.start None)))
       [dismiss_event]) /\
  log (snd (_discard_application (Scenario.env_of Scenario.modal_page)
              (Scenario.start None))) =
    ([] ++ [dismiss_event; EvClick Direct 20;
            EvFindElements None CLASS_NAME
              "artdeco-modal__confirm-dialog-btn"] ++
     [EvClick Direct 21])%list.
Proof.
  set (E := Scenario.env_of Scenario.modal_page).
  set (s := Scenario.start None).
  split.
  - destruct (proj1 (rollback_before_raise E) 4 s
                (Reraised job_apply_error_prefix not_found_error)
                (snd (job_apply E 4 s)))
      as [[[H|(s0 & H0 & H)] _]|H].
    + vm_compute. reflexivity.
    + vm_compute in H. discriminate.
    + vm_compute in H0. inversion H0; subst s0. vm_compute in H.
      discriminate.
    + exact H.
  - apply (proj2 (proj2 (rollback_before_raise E)) s 20 0%nat 0%nat [21]
                 0%nat);
      reflexivity.
Defined.

(** Termination cannot be promised: on a wizard whose primary button
    always reads Next and that never shows a validation error, the form
    loop goes round for ever; no bound on its iterations is enough. *)
Lemma endless_wizard_form_loop (fuel : nat) :
  forall s,
    fst (_fill_application_form
           (Scenario.env_of Scenario.endless_wizard) fuel s) = OutOfFuel.
Proof.
  induction fuel as [|fuel IH]; intros s; [reflexivity|].
  cbn [_fill_application_form]. unfold bind at 1.
  destruct (fill_up_swallows (Scenario.env_of Scenario.endless_wizard)
              (S fuel) s) as [H|H];
    destruct (fill_up (Scenario.env_of Scenario.endless_wizard) (S fuel) s)
      as [r s1]; simpl in H; subst r; [|reflexivity].
  unfold bind at 1.
  replace (_next_or_submit (Scenario.env_of Scenario.endless_wizard) s1)
    with (@Ok bool false,
          snd (_next_or_submit (Scenario.env_of Scenario.endless_wizard) s1))
    by reflexivity.
  apply IH.
Qed.

End Controller.

(* ===================================================================== *)
(** * The answer store: saving and loading together *)
(* ===================================================================== *)

Module StoreLaws.

Import Py World Applier Spec.
Local Open Scope string_scope.

Section Store.
Context {W : Type}.

(** One save into a readable store. *)
Lemma save_step (s : state W) question_data items :
  has_question question_data ->
  stored_items (answers_json s) = Some items ->
  exists s',
    _save_questions_to_json question_data s = (Ok tt, s') /\
    stored_items (answers_json s') =
      Some (items ++ [JObject (normalize_record question_data)])%list.
Proof.
  intros [q Hq] Hs.
  unfold _save_questions_to_json, sanitize_question, normalize_record,
    load_list, try_except, bind, get_state, lift, open_read, json_load,
    set_answers_json, stored_items in *.
  rewrite Hq. simpl.
  destruct (answers_json s) as [[| |data]|]; simpl in *;
    try discriminate; try (injection Hs as <-; eexists; split; reflexivity).
  destruct data; try discriminate. injection Hs as <-.
  eexists; split; reflexivity.
Qed.

Lemma load_step (s : state W) items :
  stored_items (answers_json s) = Some items ->
  _load_questions_from_json s = (Ok items, s).
Proof.
  unfold _load_questions_from_json, load_list, try_except, bind, get_state,
    lift, open_read, json_load, stored_items.
  destruct (answers_json s) as [[| |data]|]; simpl;
    try discriminate; try (intros H; injection H as <-; reflexivity).
  destruct data; try discriminate. intros H; injection H as <-. reflexivity.
Qed.

Lemma save_all_steps (records : list (list (string * json))) :
  forall (s : state W) items,
    Forall has_question records ->
    stored_items (answers_json s) = Some items ->
    exists s',
      for_each records _save_questions_to_json s = (Ok tt, s') /\
      stored_items (answers_json s') =
        Some (items ++ map (fun r => JObject (normalize_record r)) records)%list.
Proof.
  induction records as [|r rest IH]; intros s items Hall Hs.
  - exists s. simpl. rewrite app_nil_r. auto.
  - inversion Hall as [|? ? Hr Hrest]; subst.
    destruct (save_step s r items Hr Hs) as (s1 & R1 & S1).
    destruct (IH s1 _ Hrest S1) as (s2 & R2 & S2).
    exists s2. simpl. unfold bind. rewrite R1. split; [exact R2|].
    rewrite S2, <- app_assoc. reflexivity.
Qed.

(** X1: Saving records one after the other and loading the store gives back
    what the store held followed by the records, in the order in which
    they were saved, each with its question normalised. *)
Theorem save_all_then_load (records : list (list (string * json)))
  (s : state W) (items : list json) :
  Forall has_question records ->
  stored_items (answers_json s) = Some items ->
  exists s',
    bind (for_each records _save_questions_to_json)
         (fun _ => _load_questions_from_json) s =
    (Ok (items ++ map (fun r => JObject (normalize_record r)) records)%list,
     s').
Proof.
  intros Hall Hs.
  destruct (save_all_steps records s items Hall Hs) as (s' & R & S).
  exists s'. unfold bind. rewrite R. apply load_step, S.
Qed.


End Store.

Lemma save_all_then_load_witness :
  exists s',
    bind (for_each [record "First Name?" "Ada" "text";
                    record "FIRST name?," "Ada" "text"]
                   _save_questions_to_json)
         (fun _ => _load_questions_from_json)
         (Scenario.start (Some Undecodable)) =
    (Ok ([] ++ map (fun r => JObject (normalize_record r))
                   [record "First Name?" "Ada" "text";
                    record "FIRST name?," "Ada" "text"])%list,
     s').
Proof.
  apply (@save_all_then_load nat).
  - repeat constructor; eexists; reflexivity.
  - reflexivity.
Defined.

End StoreLaws.

(* ===================================================================== *)
(** * What a normalised text looks like *)
(* ===================================================================== *)

Module SanitizeLaws.

Import Text Spec.
Local Open Scope string_scope.



End SanitizeLaws.

(* ===================================================================== *)
(** * The job description *)
(* ===================================================================== *)

Module DescriptionLaws.

Import Py World Applier Spec Runs Traces.
Local Open Scope string_scope.

Section Description.
Context {W : Type} (E : Env W).

Lemma free_get_job_description : fuel_free (_get_job_description E).
Proof. unfold _get_job_description. fuelfree. Qed.

(** X4: [_get_job_description] returns the description or raises one of its
    own two exceptions: the not-found error when what was raised inside is
    a [NoSuchElementException], the wrapping error for anything else.  No
    exception of the driver leaves it as it is. *)
Theorem description_errors (s : state W) :
  (exists d s', _get_job_description E s = (Ok d, s')) \/
  (exists s',
     _get_job_description E s =
     (Raise (Exn Exception_ "Job description not found."), s')) \/
  (exists cause s',
     _get_job_description E s =
     (Raise (Reraised ("Error getting Job description:" ++ nl) cause), s') /\
     isinstance cause NoSuchElementException = false).
Proof.
  pose proof (free_get_job_description s) as Hfree.
  destruct (_get_job_description E s) as [r s'] eqn:R.
  unfold _get_job_description in R. unfold try_except at 1 in R.
  match type of R with
  | context [let (_, _) := ?body s in _] =>
      destruct (body s) as [[d|e|] s1]
  end.
  - inversion R; subst. left. eauto.
  - right. destruct (isinstance e NoSuchElementException) eqn:Hi;
      inversion R; subst.
    + left. eauto.
    + right. exists e. eauto.
  - inversion R; subst. exfalso. apply Hfree. reflexivity.
Qed.

(** X5: On a page in the premium layout -- no button to expand the
    description and no element of the usual class -- the description is
    the text of the element of the alternative class. *)
Theorem description_premium_layout (el : elem) (d : string) (s : state W) :
  (forall w, exists m,
     fst (find_element E None XPATH see_more_xpath w) =
     inl (Exn NoSuchElementException m)) ->
  (forall w, exists m,
     fst (find_element E None CLASS_NAME "jobs-description-content__text" w) =
     inl (Exn NoSuchElementException m)) ->
  (forall w,
     fst (find_element E None CLASS_NAME
            "job-details-about-the-job-module__description" w) = inr el) ->
  (forall w, fst (text E el w) = inr d) ->
  fst (_get_job_description E s) = Ok d.
Proof.
  intros Hmore Hfirst Halt Htext.
  unfold _get_job_description, try_except, bind, driver_find_element,
    actions_click, element_text, call.
  fold see_more_xpath.
  destruct (Hmore (world s)) as [m1 H1].
  destruct (find_element E None XPATH see_more_xpath (world s))
    as [r1 w1]. simpl in H1. subst r1. cbn.
  destruct (Hfirst w1) as [m2 H2].
  destruct (find_element E None CLASS_NAME "jobs-description-content__text" w1)
    as [r2 w2]. simpl in H2. subst r2. cbn.
  specialize (Halt w2).
  destruct (find_element E None CLASS_NAME
              "job-details-about-the-job-module__description" w2)
    as [r3 w3]. simpl in Halt. subst r3. cbn.
  specialize (Htext w3).
  destruct (text E el w3) as [r4 w4]. simpl in Htext. subst r4. reflexivity.
Qed.

End Description.

Lemma description_premium_layout_witness :
  fst (_get_job_description
         (Scenario.env_of Scenario.premium_layout_page)
         (Scenario.start None)) = Ok "About the job".
Proof.
  apply (description_premium_layout
           (Scenario.env_of Scenario.premium_layout_page) 12).
  - intros w. eexists. reflexivity.
  - intros w. eexists. reflexivity.
  - intros w. reflexivity.
  - intros w. reflexivity.
Defined.

End DescriptionLaws.

(* ===================================================================== *)
(** * One step of the wizard *)
(* ===================================================================== *)

Module StepLaws.

Import Py World Applier Spec Runs Traces.
Local Open Scope string_scope.

Section Steps.
Context {W : Type} (E : Env W).



Lemma collect_texts_static (label_of : elem -> string) :
  (forall e w, fst (text E e w) = inr (label_of e)) ->
  forall elements (s : state W),
    fst (collect_texts E elements s) = Ok (map label_of elements).
Proof.
  intros Hl elements. induction elements as [|e rest IH]; intros s;
    [reflexivity|].
  cbn [collect_texts map]. unfold bind at 1, element_text, call.
  specialize (Hl e (world s)).
  destruct (text E e (world s)) as [r w]. simpl in Hl. subst r.
  unfold bind.
  match goal with
  | |- context [collect_texts E rest ?st] =>
      specialize (IH st); destruct (collect_texts E rest st) as [r2 s2]
  end.
  simpl in IH. subst r2. reflexivity.
Qed.

(** X7: On a page whose texts do not change, [_check_for_errors] returns when
    no error indicator shows and otherwise raises with the texts of the
    indicators, all of them, in the order of the page and as they are. *)
Theorem check_for_errors_verbatim (label_of : elem -> string)
  (s : state W) (indicators : list elem) (w1 : W) :
  (forall e w, fst (text E e w) = inr (label_of e)) ->
  find_elements E None CLASS_NAME "artdeco-inline-feedback--error" (world s) =
    (inr indicators, w1) ->
  fst (_check_for_errors E s) =
    match indicators with
    | [] => Ok tt
    | _ =>
        Raise (ExnList Exception_ "Failed answering or file upload: "
                       (map label_of indicators))
    end.
Proof.
  intros Hl Hf. unfold _check_for_errors, bind at 1, driver_find_elements,
    call. rewrite Hf.
  destruct indicators as [|first rest]; [reflexivity|].
  unfold bind.
  match goal with
  | |- context [collect_texts E ?els ?st] =>
      pose proof (collect_texts_static label_of Hl els st) as Hc;
      destruct (collect_texts E els st) as [r s2]
  end.
  simpl in Hc. subst r. reflexivity.
Qed.

(** X8: Every exception that leaves the form loop was raised by
    [_next_or_submit]: by the lookup of the primary button, by a click or
    by the scan for validation errors.  What is raised while a step is
    filled never leaves [fill_up]. *)
Theorem form_loop_errors (fuel : nat) (s : state W) (e : exn)
  (s' : state W) :
  _fill_application_form E fuel s = (Raise e, s') ->
  exists s1, _next_or_submit E s1 = (Raise e, s').
Proof.
  revert s. induction fuel as [|fuel IH]; intros s; [discriminate|].
  cbn [_fill_application_form]. unfold bind at 1.
  pose proof (Controller.fill_up_swallows E (S fuel) s) as Hf.
  destruct (fill_up E (S fuel) s) as [[[]|e0|] s1]; simpl in Hf;
    [| destruct Hf; discriminate | discriminate].
  unfold bind.
  destruct (_next_or_submit E s1) as [[[|]|e1|] s2] eqn:N; try discriminate.
  - apply IH.
  - intros H. inversion H; subst. exists s1. exact N.
Qed.

(** X9: Questions are looked up and left alone: [_fill_additional_questions]
    makes one call, the lookup of the question groups, and nothing else --
    no typing, no click, no request to the answerer, no change to the job
    or to the answer store. *)
Theorem additional_questions_only_looked_up (s : state W) :
  log (snd (_fill_additional_questions E s)) =
    (log s ++ [EvFindElements None CLASS_NAME
                 "jobs-easy-apply-form-section__grouping"])%list /\
  answers_json (snd (_fill_additional_questions E s)) = answers_json s /\
  job (snd (_fill_additional_questions E s)) = job s /\
  (fst (_fill_additional_questions E s) = Ok tt \/
   exists e w,
     find_elements E None CLASS_NAME "jobs-easy-apply-form-section__grouping"
       (world s) = (inl e, w) /\
     fst (_fill_additional_questions E s) = Raise e).
Proof.
  unfold _fill_additional_questions, bind, driver_find_elements, call.
  destruct (find_elements E None CLASS_NAME
              "jobs-easy-apply-form-section__grouping" (world s))
    as [[e|sections] w] eqn:F.
  - simpl. split; [reflexivity|]. split; [reflexivity|].
    split; [reflexivity|]. right. exists e, w. split; reflexivity.
  - assert (Hfor : forall st : state W,
               for_each sections _process_form_section st = (Ok tt, st)).
    { clear F. induction sections as [|x rest IH]; intros st;
        [reflexivity|].
      simpl. unfold bind, _process_form_section, ret. apply IH. }
    rewrite Hfor. simpl. split; [reflexivity|]. split; [reflexivity|].
    split; [reflexivity|]. left. reflexivity.
Qed.

End Steps.


Lemma check_for_errors_verbatim_witness :
  fst (_check_for_errors (Scenario.env_of Scenario.rejected_step_page)
         (Scenario.start None)) =
  Raise (ExnList Exception_ "Failed answering or file upload: "
           (map (Scenario.text_of Scenario.rejected_step_page) [30; 31])).
Proof.
  apply (check_for_errors_verbatim
           (Scenario.env_of Scenario.rejected_step_page)
           (Scenario.text_of Scenario.rejected_step_page)
           (Scenario.start None) [30; 31] 0%nat).
  - intros e w. reflexivity.
  - reflexivity.
Defined.

Lemma form_loop_errors_witness :
  exists s1,
    _next_or_submit (Scenario.env_of Scenario.rejected_step_page) s1 =
    (Raise (ExnList Exception_ "Failed answering or file upload: "
              ["Please enter a valid answer"; "Enter a whole number"]),
     snd (_fill_application_form
            (Scenario.env_of Scenario.rejected_step_page) 3
            (Scenario.start None))).
Proof.
  apply (form_loop_errors (Scenario.env_of Scenario.rejected_step_page) 3
           (Scenario.start None)).
  vm_compute. reflexivity.
Defined.

End StepLaws.

(* ===================================================================== *)
(** * The answerer: open and numeric questions *)
(* ===================================================================== *)

Module AnswererLaws.

Import Py World Spec Runs Traces.
Local Open Scope string_scope.

Section Answers.
Context {W : Type} (E : Env W).


(** X11: A numeric question always gets an answer:
    [answer_question_numeric] returns -- it does not raise -- either the
    text 42 or the answer of the endpoint.  It makes one request when the
    answerer is configured for the endpoint and none otherwise. *)
Theorem numeric_answer_total (question_text : string) (s : state W) :
  exists a s',
    GPT.answer_question_numeric E question_text s = (Ok a, s') /\
    (a = JStr "42" \/
     endpoint_answers E (llm_api_url (gpt_answerer s))
       (numeric_payload (gpt_answerer s) question_text) (world s) a) /\
    log s' =
      (if uses_endpoint (gpt_answerer s)
       then log s ++ [EvRequestsPost (llm_api_url (gpt_answerer s))]
       else log s)%list.
Proof.
  unfold GPT.answer_question_numeric, bind at 1, get_state.
  fold (uses_endpoint (gpt_answerer s)).
  destruct (uses_endpoint (gpt_answerer s));
    [|exists (JStr "42"), s; simpl; auto].
  unfold try_except, bind at 1, post, call.
  fold (numeric_payload (gpt_answerer s) question_text).
  destruct (requests_post E (llm_api_url (gpt_answerer s))
              (numeric_payload (gpt_answerer s) question_text) (world s))
    as [[e|response] w] eqn:P.
  - eexists _, _. split; [reflexivity|]. simpl. auto.
  - unfold bind at 1, GPT.raise_for_status.
    destruct ((400 <=? status_code response) && (status_code response <? 600))%Z
      eqn:St.
    + eexists _, _. split; [reflexivity|]. simpl. auto.
    + unfold ret at 1. unfold bind at 1, GPT.response_json.
      destruct (body response) as [data|] eqn:B.
      2:{ eexists _, _. split; [reflexivity|]. simpl. auto. }
      unfold ret at 1. unfold bind, GPT.data_get.
      destruct data as [| | | | | |fields];
        try solve [eexists _, _; split; [reflexivity|]; simpl; auto].
      unfold ret at 1.
      destruct (dict_get "answer" fields) as [v|] eqn:D.
      * exists v. eexists. split; [reflexivity|].
        split; [|reflexivity]. right. exists response, w, fields. auto.
      * eexists _, _. split; [reflexivity|]. simpl. auto.
Qed.

(** X12: The answer to a numeric question is not checked: whatever the
    endpoint puts under the key [answer] -- a text that is no number, an
    empty text, a value that is no text -- is what
    [answer_question_numeric] returns. *)
Theorem numeric_answer_not_validated (question_text : string) (s : state W)
  (v : json) :
  uses_endpoint (gpt_answerer s) = true ->
  endpoint_answers E (llm_api_url (gpt_answerer s))
    (numeric_payload (gpt_answerer s) question_text) (world s) v ->
  fst (GPT.answer_question_numeric E question_text s) = Ok v.
Proof.
  intros Hu (response & w & fields & P & St & B & D).
  unfold GPT.answer_question_numeric, bind at 1, get_state.
  fold (uses_endpoint (gpt_answerer s)). rewrite Hu.
  unfold try_except, bind at 1, post, call.
  fold (numeric_payload (gpt_answerer s) question_text). rewrite P.
  unfold bind at 1, GPT.raise_for_status. rewrite St.
  unfold ret at 1. unfold bind at 1, GPT.response_json. rewrite B.
  unfold ret at 1. unfold bind, GPT.data_get, ret. rewrite D. reflexivity.
Qed.

(** X13: With no option to choose from, [answer_question_from_options] raises
    [IndexError] however the answerer is configured and whatever the
    endpoint answers: the fallback of its [except] clause is itself a
    choice from the empty list. *)
Theorem answer_from_no_options (question_text : string) (s : state W) :
  exists s',
    GPT.answer_question_from_options E question_text [] s =
    (Raise (Exn IndexError "Cannot choose from an empty sequence"), s').
Proof.
  unfold GPT.answer_question_from_options, bind at 1, get_state.
  destruct (_ =? "gemini"); [|eexists; reflexivity].
  destruct (_ =? ""); [eexists; reflexivity|].
  unfold try_except.
  destruct (GPT.ask_for_option E (gpt_answerer s) question_text [] s)
    as [[a|e|] s1] eqn:R.
  - exfalso. revert R. unfold GPT.ask_for_option, bind. cbv zeta.
    destruct (post E _ _ s) as [[response|e|] s1']; try discriminate.
    unfold GPT.raise_for_status.
    destruct (_ && _)%bool; [discriminate|]. unfold ret at 1.
    unfold GPT.response_json.
    destruct (body response) as [data|]; [|discriminate]. unfold ret at 1.
    unfold GPT.data_get.
    destruct data; try discriminate. unfold ret at 1.
    destruct (GPT.in_options _ []) as [a'|] eqn:Hin.
    + apply Answerer.in_options_In in Hin. destruct Hin.
    + discriminate.
  - eexists; reflexivity.
  - exfalso. apply (Answerer.ask_fuel_free E (gpt_answerer s) question_text [] s).
    rewrite R. reflexivity.
Qed.

End Answers.

Lemma numeric_answer_not_validated_witness :
  fst (GPT.answer_question_numeric
         (Scenario.env_of
            (Scenario.with_llm
               (inr {| status_code := 200;
                       body := Some (JObject [("answer", JStr "several")]) |})
               Scenario.blank_page))
         "Years of experience?" (Scenario.start None)) =
  Ok (JStr "several").
Proof.
  apply (numeric_answer_not_validated _ "Years of experience?"
           (Scenario.start None) (JStr "several")).
  - reflexivity.
  - eexists _, _, _. repeat split; reflexivity.
Defined.

End AnswererLaws.

(* ===================================================================== *)
(** * The locator on any page *)
(* ===================================================================== *)

Module LocatorLaws.

Import Py World Applier Spec Runs Traces.
Local Open Scope string_scope.

Section Any.
Context {W : Type} (E : Env W).

Lemma waited_for (button : elem) (s : state W) r s' :
  try_except
    (bind (WebDriverWait_until E (visibility_of button))
       (fun _ => bind (WebDriverWait_until E (element_to_be_clickable button))
                   (fun _ => ret (Some button))))
    (fun _ => ret None) s = (Ok (Some r), s') ->
  r = button /\ just_found_clickable E button s'.
Proof.
  unfold try_except, bind, WebDriverWait_until, call, ret.
  destruct (wait_until E (visibility_of button) (world s)) as [[e|x] w1];
    [discriminate|]. cbn [world log].
  destruct (wait_until E (element_to_be_clickable button) w1)
    as [[e|y] w2] eqn:C; [discriminate|].
  intros H. inversion H; subst. split; [reflexivity|]. split.
  - exists (log s). cbn [log]. rewrite <- app_assoc. reflexivity.
  - exists w1, y. exact C.
Qed.

Lemma first_clickable_found (buttons : list elem) :
  forall (s : state W) button s',
    first_clickable E buttons s = (Ok (Some button), s') ->
    just_found_clickable E button s'.
Proof.
  induction buttons as [|b rest IH]; intros s button s'; [discriminate|].
  cbn [first_clickable]. unfold bind at 1.
  match goal with
  | |- context [try_except ?body ?h s] =>
      destruct (try_except body h s) as [[[r|]|e|] s1] eqn:T
  end; try discriminate.
  - apply waited_for in T. destruct T as [-> J].
    intros H. inversion H; subst. exact J.
  - apply IH.
Qed.

Lemma try_method_found (m : search_method) (s : state W) button s' :
  try_method E m s = (Ok (Some button), s') ->
  just_found_clickable E button s'.
Proof.
  unfold try_method. destruct (method_find_elements m).
  - unfold try_except, bind at 1.
    destruct (driver_find_elements E XPATH (method_xpath m) s)
      as [[buttons|e|] s1]; try discriminate.
    destruct (first_clickable E buttons s1) as [[[b|]|e|] s2] eqn:F;
      try discriminate.
    intros H. inversion H; subst. eapply first_clickable_found, F.
  - unfold try_except, bind at 1.
    destruct (WebDriverWait_until E _ s) as [[b|e|] s1]; try discriminate.
    intros H.
    assert (T : try_except
                  (bind (WebDriverWait_until E (visibility_of b))
                     (fun _ => bind (WebDriverWait_until E
                                       (element_to_be_clickable b))
                                 (fun _ => ret (Some b))))
                  (fun _ => ret None) s1 = (Ok (Some button), s')).
    { unfold try_except.
      destruct (bind (WebDriverWait_until E (visibility_of b)) _ s1)
        as [[[x|]|e|] s2]; try discriminate; exact H. }
    apply waited_for in T. destruct T as [-> J]. exact J.
Qed.

Lemma try_methods_found (ms : list search_method) :
  forall (s : state W) button s',
    try_methods E ms s = (Ok (Some button), s') ->
    just_found_clickable E button s'.
Proof.
  induction ms as [|m rest IH]; intros s button s'; [discriminate|].
  cbn [try_methods]. unfold bind.
  destruct (try_method E m s) as [[[b|]|e|] s1] eqn:T; try discriminate.
  - intros H. inversion H; subst. eapply try_method_found, T.
  - apply IH.
Qed.

Lemma find_loop_found (rounds : nat) :
  forall attempt (s : state W) button s',
    find_loop E rounds attempt s = (Ok button, s') ->
    just_found_clickable E button s'.
Proof.
  induction rounds as [|rounds IH]; intros attempt s button s';
    cbn [find_loop].
  - unfold report_not_found, bind.
    destruct (driver_page_source E s) as [[x|e|] s1]; discriminate.
  - destruct (attempt <? 2)%nat.
    2:{ unfold report_not_found, bind.
        destruct (driver_page_source E s) as [[x|e|] s1]; discriminate. }
    unfold bind at 1.
    destruct (check_for_premium_redirect E s) as [[[]|e|] s1];
      try discriminate.
    unfold bind at 1.
    destruct (_scroll_page E s1) as [[[]|e|] s2]; try discriminate.
    unfold bind at 1.
    destruct (try_methods E search_methods s2) as [[[b|]|e|] s3] eqn:T;
      try discriminate.
    + intros H. inversion H; subst. eapply try_methods_found, T.
    + unfold bind at 1.
      destruct (check_for_premium_redirect E s3) as [[[]|e|] s4];
        try discriminate.
      unfold bind.
      match goal with
      | |- context [(if ?c then driver_refresh E else ret tt) s4] =>
          destruct ((if c then driver_refresh E else ret tt) s4)
            as [[[]|e|] s5]
      end; try discriminate.
      apply IH.
Qed.

(** X14: A button that [_find_easy_apply_button] returns has just been waited
    for: the last two calls of the run are the wait for it to be visible
    and the wait for it to be clickable, and both went through. *)
Theorem found_button_was_clickable (s : state W) (button : elem)
  (s' : state W) :
  _find_easy_apply_button E s = (Ok button, s') ->
  just_found_clickable E button s'.
Proof. apply find_loop_found. Qed.

Lemma not_refresh_search m : not_refresh (search_event m) = true.
Proof. unfold search_event. destruct (method_find_elements m); reflexivity. Qed.

Lemma no_refresh_later (rounds : nat) :
  forall attempt,
    (1 <= attempt)%nat ->
    emits_only not_refresh (find_loop E rounds attempt).
Proof.
  pose proof not_refresh_search as Hs.
  induction rounds as [|rounds IH]; intros attempt Ha; cbn [find_loop];
    unfold report_not_found.
  - emits.
  - destruct (attempt <? 2)%nat; [|emits].
    destruct attempt as [|attempt]; [lia|].
    change (S attempt =? 0)%nat with false. cbv iota.
    emits. apply IH. lia.
Qed.

Lemma find_loop_first :
  find_loop E 2 0 =
  bind (check_for_premium_redirect E)
    (fun _ =>
       bind (_scroll_page E)
         (fun _ =>
            bind (try_methods E search_methods)
              (fun r =>
                 match r with
                 | Some button => ret button
                 | None =>
                     bind (check_for_premium_redirect E)
                       (fun _ =>
                          bind (driver_refresh E)
                            (fun _ => find_loop E 1 1))
                 end))).
Proof. reflexivity. Qed.

Lemma refresh_bound_bind {A B} (m : M W A) (k : A -> M W B) (s : state W) :
  emits_only not_refresh m ->
  (forall x s1,
     adds is_refresh s1 (snd (k x s1)) [] \/
     adds is_refresh s1 (snd (k x s1)) [EvRefresh]) ->
  adds is_refresh s (snd (bind m k s)) [] \/
  adds is_refresh s (snd (bind m k s)) [EvRefresh].
Proof.
  intros Hm Hk. unfold bind.
  destruct (m s) as [[x|e|] s1] eqn:R;
    pose proof (adds_emits is_refresh not_refresh _ _ _ _ Hm
                  Locator.quiet_not_refresh R) as A1;
    try (left; exact A1).
  destruct (Hk x s1) as [A2|A2].
  - left. apply (adds_same _ _ _ _ A1 A2).
  - right. apply (adds_trans _ _ _ _ _ _ A1 A2).
Qed.

(** X15: Whatever the page does, one run of [_find_easy_apply_button] reloads
    it at most once. *)
Theorem at_most_one_refresh (s : state W) :
  adds is_refresh s (snd (_find_easy_apply_button E s)) [] \/
  adds is_refresh s (snd (_find_easy_apply_button E s)) [EvRefresh].
Proof.
  pose proof not_refresh_search as Hs.
  unfold _find_easy_apply_button. rewrite find_loop_first.
  apply refresh_bound_bind; [apply emits_guard; reflexivity|]. intros [] s1.
  apply refresh_bound_bind; [apply emits_scroll; reflexivity|]. intros [] s2.
  apply refresh_bound_bind;
    [apply emits_try_methods; try reflexivity; exact Hs|].
  intros [b|] s3.
  - left. apply adds_refl.
  - apply refresh_bound_bind; [apply emits_guard; reflexivity|].
    intros [] s4. right. unfold bind.
    destruct (driver_refresh E s4) as [[[]|e|] s5] eqn:R;
      pose proof (adds_call is_refresh _ _ _ _ _ R) as A1; simpl in A1;
      try exact A1.
    destruct (find_loop E 1 1 s5) as [r s6] eqn:F.
    pose proof (adds_emits is_refresh not_refresh _ _ _ _
                  (no_refresh_later 1 1 (le_n 1))
                  Locator.quiet_not_refresh F) as A2.
    apply (adds_two _ _ _ _ _ A1 A2).
Qed.

End Any.

Lemma found_button_was_clickable_witness :
  just_found_clickable (Scenario.env_of Scenario.second_method_page) 7
    (snd (_find_easy_apply_button
            (Scenario.env_of Scenario.second_method_page)
            (Scenario.start None))).
Proof.
  apply (found_button_was_clickable
           (Scenario.env_of Scenario.second_method_page)
           (Scenario.start None) 7).
  vm_compute. reflexivity.
Defined.

End LocatorLaws.

(* ===================================================================== *)
(** * The redirect guard for any cap *)
(* ===================================================================== *)

Module GuardLaws.

Import Py World Applier Spec Runs Traces.
Local Open Scope string_scope.

Section Any.
Context {W : Type} (E : Env W).

Lemma premium_loop_bound (n : nat) :
  forall (s : state W) r s',
    premium_loop E n (current_url E (world s)) s = (r, s') ->
    exists k,
      k <= n /\
      adds is_navigation s s' (repeat (EvGet (link (job s))) k) /\
      (forall url, r = Ok url -> url = current_url E (world s')).
Proof.
  induction n as [|n IH]; intros s r s'; cbn [premium_loop].
  - intros H. exists 0. split; [lia|].
    destruct (Text.str_in premium (current_url E (world s)));
      inversion H; subst;
      (split; [apply adds_refl | intros url H'; inversion H'; reflexivity]).
  - destruct (Text.str_in premium (current_url E (world s))).
    2:{ intros H. inversion H; subst. exists 0. split; [lia|].
        split; [apply adds_refl | intros url H'; inversion H'; reflexivity]. }
    unfold bind at 1, get_state. unfold bind at 1.
    destruct (driver_get E (link (job s)) s) as [[[]|e|] s1] eqn:G;
      pose proof (adds_call is_navigation _ _ _ _ _ G) as A1; simpl in A1.
    + assert (J1 : job s1 = job s).
      { revert G. unfold driver_get, call.
        destruct (get E (link (job s)) (world s)) as [[e|[]] w];
          intros H; inversion H; reflexivity. }
      unfold bind at 1, driver_current_url, pure_call, call.
      cbv beta iota zeta. intros R.
      match type of R with
      | premium_loop E n _ ?s2 = _ =>
          destruct (IH s2 _ _ R) as (k & Hk & A2 & U);
          assert (A12 : adds is_navigation s1 s2 []) by
            (exists [EvCurrentUrl]; split; reflexivity)
      end.
      cbn [world job] in *.
      exists (S k). split; [lia|]. split; [|exact U].
      replace (repeat (EvGet (link (job s))) (S k))
        with ([EvGet (link (job s))] ++ [] ++
              repeat (EvGet (link (job s1))) k)%list
        by (rewrite J1; reflexivity).
      apply (adds_trans _ _ _ _ _ _ A1
               (adds_trans _ _ _ _ _ _ A12 A2)).
    + intros H. inversion H; subst. exists 1. split; [lia|].
      split; [exact A1|discriminate].
    + intros H. inversion H; subst. exists 1. split; [lia|].
      split; [exact A1|discriminate].
Qed.

(** X16: Whatever the browser does and whatever the cap, the redirect guard
    navigates at most [max_attempts] times and only to the link of the
    job; and when it returns, the location it last read -- the one the
    browser is at -- does not match the interstitial pattern. *)
Theorem guard_navigation_bound (max_attempts : nat) (s : state W) :
  exists k,
    k <= max_attempts /\
    adds is_navigation s
      (snd (check_for_premium_redirect_with E max_attempts s))
      (repeat (EvGet (link (job s))) k) /\
    (fst (check_for_premium_redirect_with E max_attempts s) = Ok tt ->
     on_interstitial E
       (world (snd (check_for_premium_redirect_with E max_attempts s)))
     = false).
Proof.
  destruct (check_for_premium_redirect_with E max_attempts s) as [r s']
    eqn:Run.
  cbn [fst snd]. revert Run.
  unfold check_for_premium_redirect_with.
  unfold bind at 1, driver_current_url, pure_call, call.
  cbv beta iota zeta. unfold bind.
  match goal with
  | |- context [premium_loop E max_attempts _ ?s0] =>
      destruct (premium_loop E max_attempts (current_url E (world s)) s0)
        as [r1 s1] eqn:R;
      destruct (premium_loop_bound max_attempts s0 _ _ R) as (k & Hk & A & U);
      assert (A0 : adds is_navigation s s0 []) by
        (exists [EvCurrentUrl]; split; reflexivity)
  end.
  cbn [world job] in *.
  pose proof (adds_trans _ _ _ _ _ _ A0 A) as A1. simpl in A1.
  exists k. split; [exact Hk|].
  destruct r1 as [url|e|].
  - specialize (U url eq_refl). subst url. unfold on_interstitial.
    destruct (Text.str_in premium (current_url E (world s1))) eqn:P;
      inversion Run; subst; split; auto; discriminate.
  - inversion Run; subst. split; [exact A1|discriminate].
  - inversion Run; subst. split; [exact A1|discriminate].
Qed.

End Any.

End GuardLaws.

(* ===================================================================== *)
(** * The scroll pass *)
(* ===================================================================== *)

Module ScrollLaws.

Import Py World Applier Spec Runs Traces.
Local Open Scope string_scope.




Section Any.
Context {W : Type} (E : Env W).




End Any.


End ScrollLaws.

(* ===================================================================== *)
(** * Readings of the state that a method keeps *)
(* ===================================================================== *)

Module Frames.

Import Py World Applier Spec Runs Traces.
Local Open Scope string_scope.

Section Keeps.
Context {W : Type} {X : Type}.
Variable f : state W -> X.

Lemma keeps_same {A} (m : M W A) :
  (forall s, snd (m s) = s) -> keeps f m.
Proof. intros H s. rewrite H. reflexivity. Qed.

Lemma keeps_ret {A} (a : A) : keeps f (@ret W A a).
Proof. apply keeps_same. reflexivity. Qed.

Lemma keeps_raise {A} (e : exn) : keeps f (@raise W A e).
Proof. apply keeps_same. reflexivity. Qed.

Lemma keeps_out_of_fuel {A} : keeps f (@out_of_fuel W A).
Proof. apply keeps_same. reflexivity. Qed.

Lemma keeps_get_state : keeps f (@get_state W).
Proof. apply keeps_same. reflexivity. Qed.

Lemma keeps_bind {A B} (m : M W A) (k : A -> M W B) :
  keeps f m -> (forall a, keeps f (k a)) -> keeps f (bind m k).
Proof.
  intros Hm Hk s. unfold bind. specialize (Hm s).
  destruct (m s) as [[a|e|] s1]; simpl in *; auto.
  rewrite Hk. exact Hm.
Qed.

Lemma keeps_try {A} (body : M W A) (handler : exn -> M W A) :
  keeps f body -> (forall e, keeps f (handler e)) ->
  keeps f (try_except body handler).
Proof.
  intros Hm Hk s. unfold try_except. specialize (Hm s).
  destruct (body s) as [[a|e|] s1]; simpl in *; auto.
  rewrite Hk. exact Hm.
Qed.

Lemma keeps_for_each {A} (xs : list A) (body : A -> M W unit) :
  (forall x, keeps f (body x)) -> keeps f (for_each xs body).
Proof.
  intros Hb. induction xs as [|x xs IH]; simpl.
  - apply keeps_ret.
  - apply keeps_bind; auto.
Qed.

Lemma keeps_lift {A} (r : exn + A) : keeps f (@lift W A r).
Proof. destruct r; [apply keeps_raise | apply keeps_ret]. Qed.

Hypothesis Hf : stable f.

Lemma keeps_call {A} (ev : event) (g : W -> reply A * W) :
  keeps f (call ev g).
Proof.
  intros s. unfold call. destruct (g (world s)) as [[e|a] w];
    apply Hf; reflexivity.
Qed.

Lemma keeps_pure_call {A} (ev : event) (g : W -> A * W) :
  keeps f (pure_call ev g).
Proof. apply keeps_call. Qed.

Lemma keeps_set_pdf_path p : keeps f (@set_pdf_path W p).
Proof. intros s. apply Hf; reflexivity. Qed.

Lemma keeps_set_cover_letter_path p : keeps f (@set_cover_letter_path W p).
Proof. intros s. apply Hf; reflexivity. Qed.

Variable E : Env W.

Lemma keeps_time_time : keeps f (time_time E).
Proof.
  intros s. unfold time_time. destruct (time E (world s)).
  apply Hf; reflexivity.
Qed.

Lemma keeps_random_choice {A} (options : list A) :
  keeps f (random_choice E options).
Proof.
  destruct options; simpl.
  - apply keeps_raise.
  - apply keeps_bind; [apply keeps_pure_call|]. intros. apply keeps_ret.
Qed.

End Keeps.

Create HintDb keeps discriminated.

Ltac keeps_step :=
  first
    [ solve [auto 3 with keeps]
    | apply keeps_ret | apply keeps_raise | apply keeps_out_of_fuel
    | apply keeps_get_state | apply keeps_lift
    | apply keeps_bind; [|intros ?]
    | apply keeps_try; [|intros ?]
    | apply keeps_for_each; intros ?
    | apply keeps_time_time; solve [auto with keeps]
    | apply keeps_set_pdf_path; solve [auto with keeps]
    | apply keeps_set_cover_letter_path; solve [auto with keeps]
    | apply keeps_pure_call; solve [auto with keeps]
    | apply keeps_call; solve [auto with keeps]
    | apply keeps_random_choice; solve [auto with keeps]
    | match goal with
      | |- keeps _ (if ?x then _ else _) => destruct x
      | |- keeps _ (match ?x with _ => _ end) => destruct x
      | |- keeps _ (let _ := _ in _) => cbv zeta
      end ].

Ltac keeps := unfold_calls; repeat keeps_step.

Section Methods.
Context {W : Type} {X : Type} (E : Env W).
Variable f : state W -> X.
Hypothesis Hf : stable f.
#[local] Hint Resolve Hf : keeps.

Lemma keeps_premium_loop n url : keeps f (premium_loop E n url).
Proof.
  revert url. induction n as [|n IH]; intros url; simpl;
    destruct (Text.str_in premium url); keeps.
Qed.
#[local] Hint Resolve keeps_premium_loop : keeps.

Lemma keeps_guard : keeps f (check_for_premium_redirect E).
Proof.
  unfold check_for_premium_redirect, check_for_premium_redirect_with. keeps.
Qed.
#[local] Hint Resolve keeps_guard : keeps.

Lemma keeps_scroll_slow el step reverse :
  keeps f (scroll_slow E el step reverse).
Proof. unfold scroll_slow, as_int. keeps. Qed.
#[local] Hint Resolve keeps_scroll_slow : keeps.

Lemma keeps_scroll : keeps f (_scroll_page E).
Proof. unfold _scroll_page. keeps. Qed.
#[local] Hint Resolve keeps_scroll : keeps.

Lemma keeps_first_clickable buttons : keeps f (first_clickable E buttons).
Proof. induction buttons as [|b rest IH]; simpl; keeps. Qed.
#[local] Hint Resolve keeps_first_clickable : keeps.

Lemma keeps_try_method m : keeps f (try_method E m).
Proof. unfold try_method. keeps. Qed.
#[local] Hint Resolve keeps_try_method : keeps.

Lemma keeps_try_methods ms : keeps f (try_methods E ms).
Proof. induction ms as [|m rest IH]; simpl; keeps. Qed.
#[local] Hint Resolve keeps_try_methods : keeps.

Lemma keeps_find_loop rounds :
  forall attempt, keeps f (find_loop E rounds attempt).
Proof.
  induction rounds as [|rounds IH]; intros attempt; simpl;
    unfold report_not_found; keeps.
Qed.
#[local] Hint Resolve keeps_find_loop : keeps.

Lemma keeps_get_job_description : keeps f (_get_job_description E).
Proof. unfold _get_job_description. keeps. Qed.
#[local] Hint Resolve keeps_get_job_description : keeps.

Lemma keeps_get_job_recruiter : keeps f (_get_job_recruiter E).
Proof. unfold _get_job_recruiter. keeps. Qed.
#[local] Hint Resolve keeps_get_job_recruiter : keeps.

Lemma keeps_textual q :
  keeps f (GPT.answer_question_textual_wide_range E q).
Proof.
  unfold GPT.answer_question_textual_wide_range, GPT.raise_for_status,
    GPT.response_json, GPT.data_get.
  keeps.
Qed.
#[local] Hint Resolve keeps_textual : keeps.

Lemma keeps_validate sm fm size path :
  keeps f (@validate_artifact W sm fm size path).
Proof. unfold validate_artifact. keeps. Qed.
#[local] Hint Resolve keeps_validate : keeps.

Lemma keeps_time_sleep secs : keeps f (@time_sleep W secs).
Proof. unfold time_sleep. keeps. Qed.
#[local] Hint Resolve keeps_time_sleep : keeps.

Lemma keeps_generate_resume_once : keeps f (generate_resume_once E).
Proof. unfold generate_resume_once, rate_limit_handler. keeps. Qed.
#[local] Hint Resolve keeps_generate_resume_once : keeps.

Lemma keeps_generate_resume fuel : keeps f (generate_resume E fuel).
Proof. induction fuel as [|fuel IH]; simpl; keeps. Qed.
#[local] Hint Resolve keeps_generate_resume : keeps.

Lemma keeps_upload_resume fuel el :
  keeps f (_create_and_upload_resume E fuel el).
Proof. unfold _create_and_upload_resume, create_resume. keeps. Qed.
#[local] Hint Resolve keeps_upload_resume : keeps.

Lemma keeps_upload_cover_letter el :
  keeps f (_create_and_upload_cover_letter E el).
Proof.
  unfold _create_and_upload_cover_letter, create_cover_letter. keeps.
Qed.
#[local] Hint Resolve keeps_upload_cover_letter : keeps.

Lemma keeps_handle_upload_fields fuel el :
  keeps f (_handle_upload_fields E fuel el).
Proof. unfold _handle_upload_fields. keeps. Qed.
#[local] Hint Resolve keeps_handle_upload_fields : keeps.

Lemma keeps_fill_up fuel : keeps f (fill_up E fuel).
Proof.
  unfold fill_up, _process_form_element, _is_upload_field,
    _fill_additional_questions, _process_form_section.
  keeps.
Qed.
#[local] Hint Resolve keeps_fill_up : keeps.

Lemma keeps_collect_texts els : keeps f (collect_texts E els).
Proof. induction els as [|e rest IH]; simpl; keeps. Qed.
#[local] Hint Resolve keeps_collect_texts : keeps.

Lemma keeps_next_or_submit : keeps f (_next_or_submit E).
Proof.
  unfold _next_or_submit, _unfollow_company, _check_for_errors. keeps.
Qed.
#[local] Hint Resolve keeps_next_or_submit : keeps.

Lemma keeps_fill_application_form fuel :
  keeps f (_fill_application_form E fuel).
Proof. induction fuel as [|fuel IH]; simpl; keeps. Qed.

Lemma keeps_discard : keeps f (_discard_application E).
Proof. unfold _discard_application. keeps. Qed.

End Methods.

#[export] Hint Resolve keeps_premium_loop keeps_guard keeps_scroll_slow
  keeps_scroll keeps_first_clickable keeps_try_method keeps_try_methods
  keeps_find_loop keeps_get_job_description keeps_get_job_recruiter
  keeps_textual keeps_validate keeps_time_sleep keeps_generate_resume_once
  keeps_generate_resume keeps_upload_resume keeps_upload_cover_letter
  keeps_handle_upload_fields keeps_fill_up keeps_collect_texts
  keeps_next_or_submit keeps_fill_application_form keeps_discard : keeps.

Lemma stable_settings {W} : stable (@settings W).
Proof. intros s s' H1 H2 H3 H4 H5 H6 H7 H8. unfold settings. congruence. Qed.

Lemma stable_job_record {W} : stable (@job_record W).
Proof.
  intros s s' H1 H2 H3 H4 H5 H6 H7 H8. unfold job_record. congruence.
Qed.

#[export] Hint Resolve stable_settings stable_job_record : keeps.

End Frames.

(* ===================================================================== *)
(** * What an attempt records and what it leaves alone *)
(* ===================================================================== *)

Module AttemptLaws.

Import Py World Applier Spec Runs Traces Frames.
Local Open Scope string_scope.

Section Attempt.
Context {W : Type} (E : Env W).

Lemma settings_set_job_description d :
  keeps settings (@set_job_description W d).
Proof. intros s. reflexivity. Qed.

Lemma settings_set_recruiter_link r :
  keeps settings (@set_recruiter_link W r).
Proof. intros s. reflexivity. Qed.

Lemma settings_set_current_job : keeps settings (@set_current_job W).
Proof. intros s. reflexivity. Qed.

Lemma settings_set_job : keeps settings (@GPT.set_job W).
Proof. intros s. reflexivity. Qed.

#[local] Hint Resolve settings_set_job_description
  settings_set_recruiter_link settings_set_current_job settings_set_job
  : keeps.

(** X18: An attempt changes nothing of what it was given: however
    [apply_to_job] ends, the answer store, the configured resume and the
    link and title of the job are what they were.  In particular no
    answer is ever saved by an attempt. *)
Theorem attempt_keeps_settings (fuel : nat) (s : state W) :
  settings (snd (apply_to_job E fuel s)) = settings s.
Proof.
  revert s. change (keeps settings (apply_to_job E fuel)).
  unfold apply_to_job, job_apply, job_apply_guarded, _find_easy_apply_button.
  keeps.
Qed.

Lemma run_keeps {A X} (f : state W -> X) (m : M W A) s r s' :
  keeps f m -> m s = (r, s') -> f s' = f s.
Proof. intros K R. specialize (K s). rewrite R in K. exact K. Qed.

Lemma guarded_records (fuel : nat) (s s' : state W) :
  job_apply_guarded E fuel s = (Ok tt, s') ->
  exists d r, job_record s' = (Some d, Some r, true, true).
Proof.
  unfold job_apply_guarded.
  unfold bind at 1.
  destruct (driver_execute_script E _ _ s) as [[v|e|] s1]; try discriminate.
  unfold bind at 1.
  destruct (check_for_premium_redirect E s1) as [[[]|e|] s2];
    try discriminate.
  unfold bind at 1.
  destruct (_find_easy_apply_button E s2) as [[button|e|] s3];
    try discriminate.
  unfold bind at 1.
  destruct (check_for_premium_redirect E s3) as [[[]|e|] s4];
    try discriminate.
  unfold bind at 1.
  destruct (_get_job_description E s4) as [[d|e|] s5]; try discriminate.
  unfold bind at 1, set_job_description, update_job.
  unfold bind at 1.
  match goal with
  | |- context [_get_job_recruiter E ?st] =>
      destruct (_get_job_recruiter E st) as [[r|e|] s6] eqn:R;
      try discriminate;
      pose proof (run_keeps (fun s => description (job s)) _ _ _ _
                    (keeps_get_job_recruiter E _
                       ltac:(intros ? ? ? ? ? ? ? ? H ?; exact H)) R) as D
  end.
  cbn [description job] in D.
  unfold bind at 1, set_recruiter_link, update_job.
  unfold bind at 1, set_current_job.
  unfold bind at 1.
  match goal with
  | |- context [actions_click E button ?st] =>
      destruct (actions_click E button st) as [[[]|e|] s7] eqn:C;
      try discriminate;
      pose proof (run_keeps job_record _ _ _ _
                    (keeps_call job_record stable_job_record _ _) C) as J
  end.
  unfold bind at 1, GPT.set_job, update_gpt.
  match goal with
  | |- _fill_application_form E fuel ?st = _ -> _ =>
      intros F;
      pose proof (run_keeps job_record _ _ _ _
                    (keeps_fill_application_form E job_record
                       stable_job_record fuel) F) as K
  end.
  exists d, r. rewrite K. unfold job_record in *. cbn in *.
  injection J as J1 J2 J3 _. rewrite J1, J2, J3, D. reflexivity.
Qed.

(** X19: When [job_apply] returns, the job carries a description and a
    recruiter link (possibly empty), and it is the current job of the
    applier and of the answerer: nothing that ran after these were set,
    the form loop included, has touched them. *)
Theorem applied_job_is_recorded (fuel : nat) (s s' : state W) :
  job_apply E fuel s = (Ok tt, s') ->
  exists d r, job_record s' = (Some d, Some r, true, true).
Proof.
  unfold job_apply, bind at 1, get_state. unfold bind at 1, try_except at 1.
  destruct (driver_get E (link (job s)) s) as [[[]|e|] s1];
    try discriminate.
  unfold bind at 1.
  destruct (check_for_premium_redirect E s1) as [[[]|e|] s2];
    try discriminate.
  unfold try_except.
  destruct (job_apply_guarded E fuel s2) as [[[]|e|] s3] eqn:G;
    try discriminate.
  - intros H. inversion H; subst. eapply guarded_records, G.
  - unfold bind.
    destruct (_discard_application E s3) as [[[]|e'|] s4]; discriminate.
Qed.

End Attempt.

Lemma applied_job_is_recorded_witness :
  exists d r,
    job_record
      (snd (job_apply (Scenario.env_of Scenario.second_method_page) 3
              (Scenario.start None))) =
    (Some d, Some r, true, true).
Proof.
  apply (applied_job_is_recorded
           (Scenario.env_of Scenario.second_method_page) 3
           (Scenario.start None)).
  vm_compute. reflexivity.
Defined.

End AttemptLaws.

(* ===================================================================== *)
(** * Uploads: the configured resume and the generated one *)
(* ===================================================================== *)

Module UploadLaws.

Import Py World Applier Spec Runs Traces Frames.
Local Open Scope string_scope.

Section Under.
Context {W : Type}.
Variable P : state W -> Prop.
Variable allowed : event -> bool.

Lemma under_emits_keeps {A} (m : M W A) :
  emits_only allowed m ->
  (forall s, P s -> P (snd (m s))) ->
  emits_under P allowed m.
Proof.
  intros Hm Hk s r s' Ps R. split; [exact (Hm _ _ _ R)|].
  specialize (Hk s Ps). rewrite R in Hk. exact Hk.
Qed.

Lemma under_bind {A B} (m : M W A) (k : A -> M W B) :
  emits_under P allowed m -> (forall x, emits_under P allowed (k x)) ->
  emits_under P allowed (bind m k).
Proof.
  intros Hm Hk s r s' Ps R. unfold bind in R.
  destruct (m s) as [[x|e|] s1] eqn:R1;
    destruct (Hm _ _ _ Ps R1) as ((d1 & L1 & F1) & P1).
  - destruct (Hk x _ _ _ P1 R) as ((d2 & L2 & F2) & P2).
    split; [|exact P2]. exists (d1 ++ d2)%list.
    rewrite L2, L1, app_assoc, forallb_app, F1, F2. auto.
  - inversion R; subst. split; eauto.
  - inversion R; subst. split; eauto.
Qed.

Lemma under_get_state {B} (k : state W -> M W B) :
  (forall s0, P s0 -> emits_under P allowed (k s0)) ->
  emits_under P allowed (bind get_state k).
Proof.
  intros H s r s' Ps R. unfold bind, get_state in R.
  exact (H s Ps s r s' Ps R).
Qed.

Lemma under_for_each {A} (xs : list A) (body : A -> M W unit) :
  (forall x, emits_under P allowed (body x)) ->
  emits_under P allowed (for_each xs body).
Proof.
  intros Hb. induction xs as [|x xs IH]; simpl.
  - intros s r s' Ps R. inversion R; subst. split; [|exact Ps].
    exists []. rewrite app_nil_r. auto.
  - apply under_bind; auto.
Qed.

End Under.

Section Uploads.
Context {W : Type} (E : Env W).

Lemma quiet_textual q :
  emits_only no_generation (GPT.answer_question_textual_wide_range E q).
Proof.
  unfold GPT.answer_question_textual_wide_range, GPT.raise_for_status,
    GPT.response_json, GPT.data_get.
  emits.
Qed.

Lemma quiet_upload_cover_letter el :
  emits_only no_generation (_create_and_upload_cover_letter E el).
Proof.
  pose proof quiet_textual as Ht.
  unfold _create_and_upload_cover_letter, create_cover_letter,
    validate_artifact, set_cover_letter_path.
  emits.
Qed.

(** X20: With a resume configured, [_handle_upload_fields] never asks the
    generator for one and writes no resume file, however many file
    inputs the step has and whatever they are labelled. *)
Theorem configured_resume_not_regenerated (fuel : nat) (element : elem)
  (p : string) (s : state W) (r : outcome unit) (s' : state W) :
  resume_path s = Some p ->
  p <> "" ->
  _handle_upload_fields E fuel element s = (r, s') ->
  exists added,
    log s' = (log s ++ added)%list /\ forallb no_generation added = true.
Proof.
  intros Hp Hne R.
  assert (Hcall : forall A ev (g : W -> reply A * W),
             no_generation ev = true ->
             emits_under (fun s => resume_path s = Some p) no_generation
               (call ev g)).
  { intros A ev g Hev. apply under_emits_keeps; [apply emits_call, Hev|].
    intros s0 H0. unfold call. destruct (g (world s0)) as [[e|a] w];
      exact H0. }
  assert (U : emits_under (fun s => resume_path s = Some p) no_generation
                (_handle_upload_fields E fuel element)).
  { unfold _handle_upload_fields.
    apply under_bind.
    { apply under_emits_keeps; [emits|].
      intros s0 H0.
      rewrite (keeps_try (fun s => resume_path s)); [exact H0| |];
        [|intros e; destruct (isinstance e NoSuchElementException);
           [apply keeps_ret | apply keeps_raise]].
      apply keeps_bind; [|intros x]; apply keeps_call;
        intros ? ? ? H ? ? ? ? ? ?; exact H. }
    intros _. apply under_bind; [apply Hcall; reflexivity|].
    intros inputs. apply under_for_each. intros input_file.
    apply under_bind; [apply Hcall; reflexivity|]. intros parent.
    apply under_bind; [apply Hcall; reflexivity|]. intros _.
    apply under_bind; [apply Hcall; reflexivity|]. intros parent_text.
    cbv zeta.
    destruct (Text.str_in "resume" _).
    - apply under_get_state. intros s0 H0. rewrite H0.
      destruct (p =? "") eqn:Pe; [apply String.eqb_eq in Pe; contradiction|].
      apply Hcall. reflexivity.
    - destruct (Text.str_in "cover" _).
      + apply under_emits_keeps; [apply quiet_upload_cover_letter|].
        intros s0 H0.
        rewrite (keeps_upload_cover_letter E (fun s => resume_path s));
          [exact H0|].
        intros ? ? ? H ? ? ? ? ? ?; exact H.
      + intros s0 r0 s0' H0 R0. inversion R0; subst. split; [|exact H0].
        exists []. rewrite app_nil_r. auto. }
  exact (proj1 (U s r s' Hp R)).
Qed.

Lemma rate_limited_once (s : state W) :
  (forall d w, exists msg,
     fst (pdf_base64 E d w) = inl (HTTPStatusError 429 None msg)) ->
  fst (generate_resume_once E s) = Ok None.
Proof.
  intros Hg. unfold generate_resume_once, try_except, bind at 1, time_time.
  destruct (time E (world s)) as [t w0]. cbv zeta.
  unfold bind at 1, get_state. unfold bind at 1, generator_pdf_base64, call.
  cbn [world job log].
  destruct (Hg (description (job s)) w0) as [msg H].
  destruct (pdf_base64 E (description (job s)) w0) as [r w1].
  simpl in H. subst r. reflexivity.
Qed.

(** X21: The retries of the resume generation have no cap: against a
    generator that answers every request with status 429,
    [_create_and_upload_resume] never returns and never raises -- every
    bound on the number of iterations of its loop is used up. *)
Theorem rate_limited_generator_never_gives_up (fuel : nat) (element : elem)
  (s : state W) :
  (forall w, fst (makedirs E folder_path w) = inr tt) ->
  (forall d w, exists msg,
     fst (pdf_base64 E d w) = inl (HTTPStatusError 429 None msg)) ->
  fst (_create_and_upload_resume E fuel element s) = OutOfFuel.
Proof.
  intros Hm Hg. unfold _create_and_upload_resume, bind at 1.
  assert (Hloop : forall st, fst (generate_resume E fuel st) = OutOfFuel).
  { induction fuel as [|n IH]; intros st; [reflexivity|].
    cbn [generate_resume]. unfold bind.
    pose proof (rate_limited_once st Hg) as H1.
    destruct (generate_resume_once E st) as [r1 s1]. simpl in H1. subst r1.
    apply IH. }
  unfold create_resume, bind at 1, os_makedirs, call.
  specialize (Hm (world s)).
  destruct (makedirs E folder_path (world s)) as [r0 w0]. simpl in Hm.
  subst r0.
  match goal with
  | |- context [generate_resume E fuel ?st] =>
      specialize (Hloop st); destruct (generate_resume E fuel st) as [r2 s2]
  end.
  simpl in Hloop. subst r2. reflexivity.
Qed.

(** X22: An error of the generator that is no rate limit ends the upload at
    once: it is raised as it is after the one request, and nothing is
    written. *)
Theorem generator_error_propagates (fuel : nat) (element : elem)
  (s : state W) (e : exn) (w1 w2 : W) :
  makedirs E folder_path (world s) = (inr tt, w1) ->
  pdf_base64 E (description (job s)) (snd (time E w1)) = (inl e, w2) ->
  retriable e = false ->
  exists s',
    _create_and_upload_resume E (S fuel) element s = (Raise e, s') /\
    log s' = (log s ++ [EvMakedirs folder_path; EvPdfBase64])%list.
Proof.
  intros Hm Hg He.
  unfold _create_and_upload_resume, bind at 1, create_resume, bind at 1,
    os_makedirs, call. rewrite Hm. cbn [generate_resume].
  unfold bind at 1, generate_resume_once, try_except, bind at 1, time_time.
  cbn [world job log].
  destruct (time E w1) as [t w0]. cbn [snd] in Hg. cbv zeta.
  unfold bind at 1, get_state. unfold bind at 1, generator_pdf_base64, call.
  cbn [world job log]. rewrite Hg.
  unfold rate_limit_handler.
  destruct e as [c msg|c prefix items|status retry msg|prefix cause];
    unfold retriable in He; rewrite He;
    (eexists; split; [reflexivity|]; cbn [log];
     rewrite <- app_assoc; reflexivity).
Qed.


End Uploads.

Lemma configured_resume_not_regenerated_witness :
  exists added,
    log (snd (_handle_upload_fields
                (Scenario.env_of Scenario.upload_step_page) 3 41
                (Scenario.start_with_resume "/home/user/cv.pdf"))) =
      ([] ++ added)%list /\
    forallb no_generation added = true.
Proof.
  apply (configured_resume_not_regenerated
           (Scenario.env_of Scenario.upload_step_page) 3 41
           "/home/user/cv.pdf"
           (Scenario.start_with_resume "/home/user/cv.pdf")
           (fst (_handle_upload_fields
                   (Scenario.env_of Scenario.upload_step_page) 3 41
                   (Scenario.start_with_resume "/home/user/cv.pdf")))).
  - reflexivity.
  - discriminate.
  - vm_compute. reflexivity.
Defined.

Lemma rate_limited_generator_never_gives_up_witness :
  fst (_create_and_upload_resume
         (Scenario.env_of
            (Scenario.with_resume
               (inl (HTTPStatusError 429 None "Too Many Requests"))
               Scenario.upload_step_page))
         5 42 (Scenario.start None)) = OutOfFuel.
Proof.
  apply (rate_limited_generator_never_gives_up
           (Scenario.env_of
              (Scenario.with_resume
                 (inl (HTTPStatusError 429 None "Too Many Requests"))
                 Scenario.upload_step_page)) 5 42 (Scenario.start None)).
  - intros w. reflexivity.
  - intros d w. eexists. reflexivity.
Defined.

Lemma generator_error_propagates_witness :
  exists s',
    _create_and_upload_resume
      (Scenario.env_of
         (Scenario.with_resume
            (inl (HTTPStatusError 503 None "Service Unavailable"))
            Scenario.upload_step_page))
      1 42 (Scenario.start None) =
    (Raise (HTTPStatusError 503 None "Service Unavailable"), s') /\
    log s' = ([] ++ [EvMakedirs folder_path; EvPdfBase64])%list.
Proof.
  apply (generator_error_propagates
           (Scenario.env_of
              (Scenario.with_resume
                 (inl (HTTPStatusError 503 None "Service Unavailable"))
                 Scenario.upload_step_page))
           0 42 (Scenario.start None)
           (HTTPStatusError 503 None "Service Unavailable") 0%nat 0%nat).
  - reflexivity.
  - reflexivity.
  - reflexivity.
Defined.


End UploadLaws.

(* ===================================================================== *)
(** * Wrapping the cover letter *)
(* ===================================================================== *)

Module WrapLaws.

Import Text Path Spec.
Local Open Scope string_scope.

Section Split.
Variable p : ascii -> bool.

Lemma split_by_not_nil (l : chars) : split_by p l <> [].
Proof.
  destruct l as [|x l]; simpl; [discriminate|].
  destruct (p x); [discriminate|].
  destruct (split_by p l); discriminate.
Qed.

Lemma split_by_trailing (a t : chars) :
  forallb p t = true ->
  split_by p (a ++ t)%list = (split_by p a ++ repeat [] (List.length t))%list.
Proof.
  intros Ht. induction a as [|x a IH]; simpl.
  - induction t as [|y t IHt]; simpl; [reflexivity|].
    simpl in Ht. apply andb_prop in Ht. destruct Ht as [Hy Ht].
    rewrite Hy, (IHt Ht). reflexivity.
  - destruct (p x); [rewrite IH; reflexivity|].
    rewrite IH. pose proof (split_by_not_nil a) as Hn.
    destruct (split_by p a); [congruence|reflexivity].
Qed.

Lemma split_by_word (w : chars) (sp : ascii) (rest : chars) :
  forallb (fun c => negb (p c)) w = true ->
  p sp = true ->
  split_by p (w ++ sp :: rest)%list = w :: split_by p rest.
Proof.
  intros Hw Hsp. induction w as [|x w IH]; simpl.
  - rewrite Hsp. reflexivity.
  - simpl in Hw. apply andb_prop in Hw. destruct Hw as [Hx Hw].
    apply negb_true_iff in Hx. rewrite Hx, (IH Hw). reflexivity.
Qed.

Lemma split_by_pieces (l : chars) :
  Forall (fun w => forallb (fun c => negb (p c)) w = true) (split_by p l).
Proof.
  induction l as [|x l IH]; simpl.
  - repeat constructor.
  - destruct (p x) eqn:Hx; [constructor; [reflexivity|exact IH]|].
    destruct (split_by p l) as [|w ws]; [repeat constructor; simpl|].
    + rewrite Hx. reflexivity.
    + inversion IH; subst. constructor; [|assumption].
      simpl. rewrite Hx. assumption.
Qed.

Lemma lstrip_by_split (l : chars) :
  exists pre, l = (pre ++ lstrip_by p l)%list /\ forallb p pre = true.
Proof.
  induction l as [|c l IH]; simpl.
  - exists []. auto.
  - destruct (p c) eqn:Hc.
    + destruct IH as (pre & E & F). exists (c :: pre). simpl.
      rewrite Hc, F. split; [congruence|reflexivity].
    + exists []. auto.
Qed.

Lemma rstrip_by_split (l : chars) :
  exists t, l = (rstrip_by p l ++ t)%list /\ forallb p t = true.
Proof.
  unfold rstrip_by. destruct (lstrip_by_split (rev l)) as (pre & E & F).
  exists (rev pre). split.
  - rewrite <- rev_app_distr, <- E, rev_involutive. reflexivity.
  - rewrite forallb_forall in *. intros x Hx. apply F, in_rev, Hx.
Qed.

End Split.

Lemma filter_repeat_nil (n : nat) :
  filter (fun w : chars => match w with [] => false | _ => true end)
         (repeat [] n) = [].
Proof. induction n; simpl; auto. Qed.

Lemma words_lstrip (l : chars) :
  words_of_chars (lstrip_by isspace l) = words_of_chars l.
Proof.
  unfold words_of_chars. induction l as [|x l IH]; simpl; [reflexivity|].
  destruct (isspace x) eqn:Hx; [exact IH|].
  simpl. rewrite Hx. reflexivity.
Qed.

Lemma words_rstrip (l : chars) :
  words_of_chars (rstrip_by isspace l) = words_of_chars l.
Proof.
  destruct (rstrip_by_split isspace l) as (t & E & F).
  rewrite E at 2. unfold words_of_chars.
  rewrite (split_by_trailing isspace _ t F), filter_app, filter_repeat_nil,
    app_nil_r.
  reflexivity.
Qed.

Lemma words_strip (l : chars) :
  words_of_chars (strip l) = words_of_chars l.
Proof. unfold strip. rewrite words_rstrip, words_lstrip. reflexivity. Qed.

Lemma words_are_words (l : chars) : Forall is_word (words_of_chars l).
Proof.
  unfold words_of_chars. apply Forall_forall. intros w Hw.
  apply filter_In in Hw. destruct Hw as [Hin Hne].
  pose proof (split_by_pieces isspace l) as Hp.
  rewrite Forall_forall in Hp. split; [|apply Hp, Hin].
  destruct w; [discriminate|discriminate].
Qed.

Lemma words_of_spaced (ws : list chars) :
  Forall is_word ws ->
  words_of_chars (List.concat (map (fun w => w ++ [space])%list ws)) = ws.
Proof.
  intros H. induction H as [|w ws [Hne Hw] Hws IH]; [reflexivity|].
  simpl. rewrite <- app_assoc. simpl.
  unfold words_of_chars in *.
  rewrite (split_by_word isspace w space _ Hw eq_refl). simpl.
  destruct w; [congruence|]. rewrite IH. reflexivity.
Qed.

Lemma split_words_chars (s : string) :
  split_words s =
  map string_of_list_ascii (words_of_chars (list_ascii_of_string s)).
Proof. reflexivity. Qed.

Lemma split_words_strip (s : string) :
  split_words (str_strip s) = split_words s.
Proof.
  rewrite !split_words_chars. unfold str_strip.
  rewrite list_ascii_of_string_of_list_ascii, words_strip. reflexivity.
Qed.

Lemma split_words_are_words (s : string) :
  Forall is_word (map list_ascii_of_string (split_words s)).
Proof.
  rewrite split_words_chars, map_map.
  rewrite (map_ext _ (fun w => w)), map_id;
    [apply words_are_words|].
  intros w. apply list_ascii_of_string_of_list_ascii.
Qed.

Lemma spaced_snoc (buf : list string) (w : string) :
  spaced (buf ++ [w]) =
  (spaced buf ++ list_ascii_of_string (w ++ " "))%list.
Proof.
  unfold spaced. rewrite map_app, concat_app. simpl.
  rewrite app_nil_r, Upload.list_ascii_of_string_app. reflexivity.
Qed.

(** The words of a line under construction are the words it was built
    from. *)
Lemma words_of_line (new_line : string) (buf : list string) :
  Forall is_word (map list_ascii_of_string buf) ->
  list_ascii_of_string new_line = spaced buf ->
  split_words (str_strip new_line) = buf.
Proof.
  intros Hb Hl. rewrite split_words_strip, split_words_chars, Hl.
  unfold spaced. rewrite <- (map_map list_ascii_of_string
                              (fun w => (w ++ [space])%list)).
  rewrite words_of_spaced by exact Hb.
  rewrite map_map, (map_ext _ (fun w => w)), map_id; [reflexivity|].
  intros w. apply string_of_list_ascii_of_string.
Qed.

Lemma wrap_line_words (fits : string -> bool) (words : list string) :
  forall (ls : list string) (new_line : string) (buf : list string),
    Forall is_word (map list_ascii_of_string words) ->
    Forall is_word (map list_ascii_of_string buf) ->
    list_ascii_of_string new_line = spaced buf ->
    flat_map split_words
      (fst (fold_left
              (fun '(ls, new_line) word =>
                 if fits (new_line ++ word ++ " ")
                 then (ls, new_line ++ word ++ " ")
                 else ((ls ++ [str_strip new_line])%list,
                       word ++ " "))%string
              words (ls, new_line)) ++
       [str_strip
          (snd (fold_left
                  (fun '(ls, new_line) word =>
                     if fits (new_line ++ word ++ " ")
                     then (ls, new_line ++ word ++ " ")
                     else ((ls ++ [str_strip new_line])%list,
                           word ++ " "))%string
                  words (ls, new_line)))])%list =
    (flat_map split_words ls ++ buf ++ words)%list.
Proof.
  induction words as [|w words IH]; intros ls new_line buf Hw Hb Hl.
  - cbn [fold_left fst snd]. rewrite flat_map_app. cbn [flat_map].
    rewrite (words_of_line new_line buf Hb Hl), !app_nil_r. reflexivity.
  - cbn [fold_left]. cbn [map] in Hw. inversion Hw as [|? ? Hw1 Hw2]; subst.
    destruct (fits (new_line ++ w ++ " ")).
    + rewrite (IH ls (new_line ++ w ++ " ") (buf ++ [w])%list Hw2).
      * rewrite <- app_assoc. reflexivity.
      * rewrite map_app. apply Forall_app. split; [exact Hb|].
        constructor; [exact Hw1 | constructor].
      * rewrite spaced_snoc, Upload.list_ascii_of_string_app, Hl.
        reflexivity.
    + rewrite (IH (ls ++ [str_strip new_line])%list (w ++ " ") [w] Hw2).
      * rewrite flat_map_app. cbn [flat_map].
        rewrite (words_of_line new_line buf Hb Hl), app_nil_r,
          <- app_assoc.
        reflexivity.
      * constructor; [exact Hw1 | constructor].
      * unfold spaced. simpl. rewrite app_nil_r.
        apply Upload.list_ascii_of_string_app.
Qed.

Lemma wrap_lines_words (fits : string -> bool) (lines : list string) :
  forall acc : list string,
    flat_map split_words
      (fold_left
         (fun lines line =>
            if fits line then (lines ++ [line])%list
            else
              let words := split_words line in
              let '(lines', new_line) :=
                fold_left
                  (fun '(ls, new_line) word =>
                     if fits (new_line ++ word ++ " ")
                     then (ls, new_line ++ word ++ " ")
                     else ((ls ++ [str_strip new_line])%list, word ++ " "))
                  words (lines, "") in
              (lines' ++ [str_strip new_line])%list)
         lines acc) =
    (flat_map split_words acc ++ flat_map split_words lines)%list.
Proof.
  induction lines as [|line lines IH]; intros acc.
  - simpl. rewrite app_nil_r. reflexivity.
  - cbn [fold_left]. rewrite IH. cbn [flat_map]. rewrite app_assoc. f_equal.
    destruct (fits line).
    + rewrite flat_map_app. simpl. rewrite app_nil_r. reflexivity.
    + cbv zeta.
      pose proof (wrap_line_words fits (split_words line) acc "" []
                    (split_words_are_words line) (Forall_nil _) eq_refl)
        as H.
      destruct (fold_left _ (split_words line) (acc, "")) as [ls' nl'].
      exact H.
Qed.

(** X24: Wrapping loses no word and moves none: the words of the wrapped
    lines, read line after line, are the words of the lines of the text,
    in the same order -- whatever the width test is. *)
Theorem wrapping_keeps_words (fits : string -> bool) (text : string) :
  flat_map split_words (split_text_by_width fits text) =
  flat_map split_words (split_lines text).
Proof. unfold split_text_by_width. apply wrap_lines_words. Qed.

(** X25: A text whose lines all fit is left as it is: the wrapped lines are
    its lines. *)
Theorem fitting_text_is_not_wrapped (fits : string -> bool) (text : string) :
  Forall (fun line => fits line = true) (split_lines text) ->
  split_text_by_width fits text = split_lines text.
Proof.
  unfold split_text_by_width. intros H.
  assert (G : forall acc,
             fold_left
               (fun lines line =>
                  if fits line then (lines ++ [line])%list
                  else
                    let words := split_words line in
                    let '(lines', new_line) :=
                      fold_left
                        (fun '(ls, new_line) word =>
                           if fits (new_line ++ word ++ " ")
                           then (ls, new_line ++ word ++ " ")
                           else ((ls ++ [str_strip new_line])%list,
                                 word ++ " "))
                        words (lines, "") in
                    (lines' ++ [str_strip new_line])%list)
               (split_lines text) acc = (acc ++ split_lines text)%list).
  { induction H as [|line lines Hl Hls IH]; intros acc.
    - simpl. rewrite app_nil_r. reflexivity.
    - cbn [fold_left]. rewrite Hl, IH, <- app_assoc. reflexivity. }
  apply (G []).
Qed.

Lemma fitting_text_is_not_wrapped_witness :
  split_text_by_width (fun l => (String.length l <=? 30)%nat)
    ("Dear team," ++ Applier.nl ++ "I would like to apply.") =
  split_lines ("Dear team," ++ Applier.nl ++ "I would like to apply.").
Proof.
  apply (fitting_text_is_not_wrapped (fun l => (String.length l <=? 30)%nat)).
  vm_compute. repeat constructor.
Defined.

End WrapLaws.

(* ===================================================================== *)
(** * The errors of the locator *)
(* ===================================================================== *)

Module LocatorErrors.

Import Py World Applier Spec Runs Traces.
Local Open Scope string_scope.

Section Any.
Context {W : Type} (E : Env W).

Lemma try_method_returns (m : search_method) (s : state W) :
  exists r s', try_method E m s = (Ok r, s').
Proof.
  unfold try_method. apply try_always_returns.
  - destruct (method_find_elements m); fuelfree.
  - intros e s1. exists None, s1. reflexivity.
Qed.

Lemma try_methods_returns (ms : list search_method) :
  forall s : state W, exists r s', try_methods E ms s = (Ok r, s').
Proof.
  induction ms as [|m rest IH]; intros s; cbn [try_methods].
  - exists None, s. reflexivity.
  - unfold bind. destruct (try_method_returns m s) as ([b|] & s1 & R);
      rewrite R.
    + exists (Some b), s1. reflexivity.
    + apply IH.
Qed.

Lemma report_raises (s : state W) e s' :
  @report_not_found W E elem s = (Raise e, s') ->
  e = not_found_error \/ locator_step_raises E e s'.
Proof.
  unfold report_not_found, bind.
  destruct (driver_page_source E s) as [[x|e0|] s1] eqn:P;
    intros H; inversion H; subst.
  - left. reflexivity.
  - right. right. right. right. exists s. exact P.
Qed.

Lemma find_loop_raises (rounds : nat) :
  forall attempt (s : state W) e s',
    find_loop E rounds attempt s = (Raise e, s') ->
    e = not_found_error \/ locator_step_raises E e s'.
Proof.
  induction rounds as [|rounds IH]; intros attempt s e s';
    cbn [find_loop]; [apply report_raises|].
  destruct (attempt <? 2)%nat; [|apply report_raises].
  unfold bind at 1.
  destruct (check_for_premium_redirect E s) as [[[]|e0|] s1] eqn:G1;
    [| intros H; inversion H; subst; right; left; exists s; exact G1
     | discriminate].
  unfold bind at 1.
  destruct (_scroll_page E s1) as [[[]|e0|] s2] eqn:S1;
    [| intros H; inversion H; subst; right; right; left; exists s1; exact S1
     | discriminate].
  unfold bind at 1.
  destruct (try_methods_returns search_methods s2) as ([b|] & s3 & T);
    rewrite T; [discriminate|].
  unfold bind at 1.
  destruct (check_for_premium_redirect E s3) as [[[]|e0|] s4] eqn:G2;
    [| intros H; inversion H; subst; right; left; exists s3; exact G2
     | discriminate].
  unfold bind.
  destruct (attempt =? 0)%nat.
  - destruct (driver_refresh E s4) as [[[]|e0|] s5] eqn:R;
      [apply IH
      | intros H; inversion H; subst; right; right; right; left;
        exists s4; exact R
      | discriminate].
  - unfold ret at 1. apply IH.
Qed.

(** X26: The search methods never abort the locator: an exception that leaves
    [_find_easy_apply_button] is its own not-found error or was raised,
    as the last thing that happened, by the redirect guard, by the
    scroll, by the reload or by the capture of the markup. *)
Theorem locator_errors (s : state W) (e : exn) (s' : state W) :
  _find_easy_apply_button E s = (Raise e, s') ->
  e = not_found_error \/ locator_step_raises E e s'.
Proof. apply find_loop_raises. Qed.

End Any.

Lemma locator_errors_witness :
  redirect_error = not_found_error \/
  locator_step_raises (Scenario.env_of Scenario.premium_wall) redirect_error
    (snd (_find_easy_apply_button (Scenario.env_of Scenario.premium_wall)
            (Scenario.start None))).
Proof.
  apply (locator_errors (Scenario.env_of Scenario.premium_wall)
           (Scenario.start None)).
  vm_compute. reflexivity.
Defined.

End LocatorErrors.
